(** * mylocation-app: the connectivity monitor and the location screen

    A shallow embedding of

    - [src/components/InternetConnectionCheck.tsx] (module [Monitor]),
    - [src/app/index.tsx], the screen with the native map (module [Screen]),
    - the variant of that screen with the embedded web map, whose tracking
      code keeps the subscription handle (module [WebScreen]),
    - [Number.prototype.toFixed], which the screens print coordinates with
      (module [JSNumber]),
    - the screen together with the monitor it renders (module [App]),
    - [src/app/(tabs)/index.tsx], the screen of the tab, which is the
      screen with the native map without connectivity (module [TabScreen]),

    followed by the statements of the specification that concern them.

    JavaScript runs every callback to completion: between two [await]s no
    other callback of the application runs.  Each such segment is written
    here as the calls the source makes, in source order, and one transition
    of a component executes one segment.  The state setters of a segment
    are committed together (the application runs on React's new
    architecture, [newArchEnabled] in [app.json], where the updates of one
    tick are batched).  What the platform does (how a promise settles, when
    a timer fires, what NetInfo reports, which button is pressed) is the
    event of the transition.

    On the screens, the effect that subscribes to NetInfo has a dependency
    list, and what it registered (the listener, the clean-up) keeps the
    values of the render in which the effect last ran.  React renders
    again some time after a cell has changed, and until then further
    events reach the same listener.  The worlds of [Screen] and
    [WebScreen] therefore hold, besides the cells, the values those
    closures hold ([seen], [held]), and rendering is an event of its own,
    [Render], that can come after any number of other events. *)

From Stdlib Require Import ZArith String Ascii List Lia Bool DecimalString.
From stdpp Require Import base option list.
Import ListNotations.

Local Open Scope Z_scope.

(** ** Values shared by the components *)

(** [NetInfoState.isConnected] has type [boolean | null]. *)
Definition netinfo := option bool.

(** JavaScript truthiness of a [boolean | null]. *)
Definition truthy (v : option bool) : bool :=
  match v with
  | Some true => true
  | _ => false
  end.

(** How a promise settles. *)
Inductive settled (A : Type) : Type :=
| Resolved (v : A)
| Rejected.
Arguments Resolved {A} v.
Arguments Rejected {A}.

(** ** The connectivity monitor: [InternetConnectionCheck] *)

Module Monitor.

(** The three [useState] cells of the component. *)
Record state : Type := mkState {
  isConnected : option bool;   (* useState<boolean | null>(null) *)
  isChecking : bool;           (* useState<boolean>(false) *)
  lastChecked : option Z       (* useState<Date | null>(null), in ms *)
}.

Definition initial : state :=
  {| isConnected := None; isChecking := false; lastChecked := None |}.

(** The calls made by [checkConnection] and by the change listener. *)
Inductive cmd : Type :=
| setIsChecking (b : bool)
| setIsConnected (b : bool)
| setLastChecked            (* setLastChecked(new Date()) *)
| consoleLog
| setTimeoutAbort (ms : Z)  (* setTimeout(() => controller.abort(), ms) *)
| clearTimeout
| fetchHEAD                 (* fetch('https://www.google.com', {method: 'HEAD', ...}) *)
| netInfoFetch.             (* NetInfo.fetch() *)

(** Where an invocation of [checkConnection] is suspended. *)
Inductive phase : Type :=
| AwaitFetch    (* at [await NetInfo.fetch()] *)
| AwaitProbe    (* at [await fetch(...)] *)
| Done.         (* the async function has returned *)

Record call : Type := mkCall {
  at_ : phase;
  timer : option Z   (* deadline of the pending abort timer, if any *)
}.

Inductive lifecycle : Type := NotMounted | Mounted | Unmounted.

(** The component together with what it has pending outside itself. *)
Record world : Type := mkWorld {
  ui : state;
  calls : list call;       (* invocations of checkConnection, in start order *)
  now : Z;                 (* the clock, in ms *)
  interval : option Z;     (* next deadline of setInterval(checkConnection, 30000) *)
  subscribed : bool;       (* the NetInfo listener is registered *)
  life : lifecycle;
  probes : list nat        (* invocations that issued the HEAD request *)
}.

Definition boot (t : Z) : world :=
  {| ui := initial; calls := []; now := t; interval := None;
     subscribed := false; life := NotMounted; probes := [] |}.

Definition set_ui (f : state -> state) (w : world) : world :=
  {| ui := match life w with Mounted => f (ui w) | _ => ui w end;
     calls := calls w; now := now w; interval := interval w;
     subscribed := subscribed w; life := life w; probes := probes w |}.

Definition set_calls (f : list call -> list call) (w : world) : world :=
  {| ui := ui w; calls := f (calls w); now := now w; interval := interval w;
     subscribed := subscribed w; life := life w; probes := probes w |}.

Definition set_timer (k : nat) (d : option Z) : world -> world :=
  set_calls (alter (fun c => {| at_ := at_ c; timer := d |}) k).

Definition set_phase (k : nat) (p : phase) : world -> world :=
  set_calls (alter (fun c => {| at_ := p; timer := timer c |}) k).

(** One call of invocation [k].  A setter of an unmounted component has no
    effect. *)
Definition exec (k : nat) (c : cmd) (w : world) : world :=
  match c with
  | setIsChecking b =>
      set_ui (fun s => {| isConnected := isConnected s; isChecking := b;
                          lastChecked := lastChecked s |}) w
  | setIsConnected b =>
      set_ui (fun s => {| isConnected := Some b; isChecking := isChecking s;
                          lastChecked := lastChecked s |}) w
  | setLastChecked =>
      set_ui (fun s => {| isConnected := isConnected s; isChecking := isChecking s;
                          lastChecked := Some (now w) |}) w
  | consoleLog => w
  | setTimeoutAbort ms => set_timer k (Some (now w + ms)) w
  | clearTimeout => set_timer k None w
  | fetchHEAD =>
      {| ui := ui w; calls := calls w; now := now w; interval := interval w;
         subscribed := subscribed w; life := life w; probes := k :: probes w |}
  | netInfoFetch =>
      set_calls (fun cs => cs ++ [{| at_ := AwaitFetch; timer := None |}]) w
  end.

Definition execs (k : nat) (cs : list cmd) (w : world) : world :=
  fold_left (fun w c => exec k c w) cs w.

(** [checkConnection], up to its first [await]. *)
Definition checkConnection_enter : list cmd :=
  [setIsChecking true; netInfoFetch].

(** [checkConnection], from [await NetInfo.fetch()] to the next suspension
    or to the end.  The early [return] sits inside [try], so [finally] runs
    after it. *)
Definition checkConnection_afterNetInfo (r : settled netinfo) : list cmd * phase :=
  match r with
  | Resolved st =>
      if negb (truthy st)
      then ([setIsConnected false; setLastChecked; setIsChecking false;
             (* finally *) setLastChecked; setIsChecking false], Done)
      else ([setTimeoutAbort 5000; fetchHEAD], AwaitProbe)
  | Rejected =>
      ([consoleLog; setIsConnected false;
        (* finally *) setLastChecked; setIsChecking false], Done)
  end.

(** [checkConnection], from [await fetch(...)] to the end.  The promise
    resolves with [response.ok], or rejects (network error, abort). *)
Definition checkConnection_afterProbe (r : settled bool) : list cmd :=
  match r with
  | Resolved ok =>
      [clearTimeout; setIsConnected ok;
       (* finally *) setLastChecked; setIsChecking false]
  | Rejected =>
      [consoleLog; setIsConnected false;
       (* finally *) setLastChecked; setIsChecking false]
  end.

(** The listener given to [NetInfo.addEventListener]; [None] stands for the
    branch that calls [checkConnection]. *)
Definition onNetInfoChange (st : netinfo) : option (list cmd) :=
  if negb (truthy st) then Some [setIsConnected false; setLastChecked]
  else None.

Inductive event : Type :=
| Mount
| Unmount
| Advance (dt : Z)
| IntervalFire
| Press                              (* the button "Verificar conexión" *)
| NetInfoChange (st : netinfo)
| FetchSettled (k : nat) (r : settled netinfo)
| ProbeSettled (k : nat) (r : settled bool)
| TimeoutFire (k : nat).

Definition start_check (w : world) : world :=
  execs (length (calls w)) checkConnection_enter w.

Definition step (w : world) (e : event) : option world :=
  match e with
  | Mount =>
      match life w with
      | NotMounted =>
          let w1 := {| ui := ui w; calls := calls w; now := now w;
                       interval := interval w; subscribed := subscribed w;
                       life := Mounted; probes := probes w |} in
          let w2 := start_check w1 in
          Some {| ui := ui w2; calls := calls w2; now := now w2;
                  interval := Some (now w2 + 30000); subscribed := true;
                  life := life w2; probes := probes w2 |}
      | _ => None
      end
  | Unmount =>
      match life w with
      | Mounted =>
          Some {| ui := ui w; calls := calls w; now := now w;
                  interval := None; subscribed := false;
                  life := Unmounted; probes := probes w |}
      | _ => None
      end
  | Advance dt =>
      if 0 <=? dt
      then Some {| ui := ui w; calls := calls w; now := now w + dt;
                   interval := interval w; subscribed := subscribed w;
                   life := life w; probes := probes w |}
      else None
  | IntervalFire =>
      match interval w with
      | Some d =>
          if d <=? now w
          then let w1 := start_check w in
               Some {| ui := ui w1; calls := calls w1; now := now w1;
                       interval := Some (now w1 + 30000);
                       subscribed := subscribed w1;
                       life := life w1; probes := probes w1 |}
          else None
      | None => None
      end
  | Press =>
      match life w, isChecking (ui w) with
      | Mounted, false => Some (start_check w)
      | _, _ => None
      end
  | NetInfoChange st =>
      if subscribed w
      then match onNetInfoChange st with
           | Some cs => Some (execs 0 cs w)
           | None => Some (start_check w)
           end
      else None
  | FetchSettled k r =>
      match calls w !! k with
      | Some {| at_ := AwaitFetch |} =>
          let '(cs, p) := checkConnection_afterNetInfo r in
          Some (set_phase k p (execs k cs w))
      | _ => None
      end
  | ProbeSettled k r =>
      match calls w !! k with
      | Some {| at_ := AwaitProbe |} =>
          Some (set_phase k Done (execs k (checkConnection_afterProbe r) w))
      | _ => None
      end
  | TimeoutFire k =>
      match calls w !! k with
      | Some {| at_ := p; timer := Some d |} =>
          if d <=? now w
          then
            let w1 := set_timer k None w in
            match p with
            | AwaitProbe =>
                (* controller.abort() rejects the pending fetch *)
                Some (set_phase k Done
                        (execs k (checkConnection_afterProbe Rejected) w1))
            | _ => Some w1
            end
          else None
      | _ => None
      end
  end.

Fixpoint run (w : world) (es : list event) : option world :=
  match es with
  | [] => Some w
  | e :: es' =>
      match step w e with
      | Some w' => run w' es'
      | None => None
      end
  end.

Definition reachable (w : world) : Prop :=
  exists t es, run (boot t) es = Some w.

(** *** Vocabulary of the statements *)

(** The result a probe's continuation writes: [response.ok], or [false]
    when the promise rejects. *)
Definition probe_result (r : settled bool) : bool :=
  match r with
  | Resolved ok => ok
  | Rejected => false
  end.

Definition phase_of (w : world) (k : nat) : option phase :=
  at_ <$> calls w !! k.

(** The HEAD requests a segment adds. *)
Fixpoint issued (k : nat) (cs : list cmd) : list nat :=
  match cs with
  | [] => []
  | fetchHEAD :: cs' => issued k cs' ++ [k]
  | _ :: cs' => issued k cs'
  end.

(** Invocation [k] has returned and never issued the HEAD request. *)
Definition finished_without_probe (w : world) (k : nat) : Prop :=
  phase_of w k = Some Done /\ k ∉ probes w.

(** Only invocations past [await NetInfo.fetch()] have issued the request. *)
Definition probes_sound (w : world) : Prop :=
  forall k, k ∈ probes w ->
            exists p, phase_of w k = Some p /\ p <> AwaitFetch.

Definition after_mount : world :=
  Eval vm_compute in default (boot 0) (run (boot 0) [Mount]).

(** The monitor of the scenario: mounted at time 0, the interface reported
    active, the probe still pending after 5 seconds. *)
Definition probe_overdue : world :=
  Eval vm_compute in
    default (boot 0)
      (run (boot 0) [Mount; FetchSettled 0 (Resolved (Some true)); Advance 5000]).

(** What one segment does to the status and to the time stamp: it leaves
    both alone, or writes both. *)
Definition paired (w w' : world) : Prop :=
  (isConnected (ui w') = isConnected (ui w)
   /\ lastChecked (ui w') = lastChecked (ui w))
  \/ (exists b, isConnected (ui w') = Some b
                /\ lastChecked (ui w') = Some (now w)).

(** The step made some invocation of [checkConnection] return. *)
Definition completes (w w' : world) : Prop :=
  exists k p, phase_of w k = Some p /\ p <> Done /\ phase_of w' k = Some Done.

(** The race of the counterexample: check 0 starts at mount, passes stage 1
    and issues its probe, which stays pending; a change event starts
    check 1, which passes stage 1 and whose probe is answered at once, so
    check 1 completes with Connected while the probe of check 0 is still
    pending. *)
Definition race : list event :=
  [Mount; FetchSettled 0 (Resolved (Some true));
   NetInfoChange (Some true); FetchSettled 1 (Resolved (Some true));
   ProbeSettled 1 (Resolved true)].

Definition after_race : world :=
  Eval vm_compute in default (boot 0) (run (boot 0) race).


(** *** Rendering, resources and life cycle *)

(** What the component renders (the JSX of [InternetConnectionCheck]). *)
Record view : Type := mkView {
  spinner : bool;               (* the ActivityIndicator replaces the dot *)
  dot : option string;          (* backgroundColor of the status dot *)
  statusText : string;
  lastCheckedLine : option Z;   (* 'Última verificación: ...', the Date shown *)
  buttonLabel : string;
  buttonDisabled : bool
}.

Definition render (s : state) : view :=
  {| spinner := isChecking s;
     dot := if isChecking s then None
            else Some (if truthy (isConnected s) then "#4CAF50"%string
                       else "#F44336"%string);
     statusText :=
       if isChecking s then "Verificando..."%string
       else match isConnected s with
            | None => "Desconocido"%string
            | Some true => "Conectado"%string
            | Some false => "Sin conexión"%string
            end;
     lastCheckedLine := lastChecked s;
     buttonLabel := if isChecking s then "Verificando..."%string
                    else "Verificar conexión"%string;
     buttonDisabled := isChecking s |}.

(** The pending abort timer of invocation [k]. *)
Definition timer_of (w : world) (k : nat) : option Z :=
  calls w !! k ≫= timer.

(** The four things a segment can do to the cells of a mounted monitor. *)
Inductive ui_change (w : world) (s' : state) : Prop :=
| ui_same : s' = ui w -> ui_change w s'
| ui_checking :
    s' = {| isConnected := isConnected (ui w); isChecking := true;
            lastChecked := lastChecked (ui w) |} -> ui_change w s'
| ui_completed b :
    s' = {| isConnected := Some b; isChecking := false;
            lastChecked := Some (now w) |} -> ui_change w s'
| ui_down :
    s' = {| isConnected := Some false; isChecking := isChecking (ui w);
            lastChecked := Some (now w) |} -> ui_change w s'.

(** The timer and the listener are held exactly while the component is
    mounted, and the next tick is at most 30 s away. *)
Definition resources_scoped (w : world) : Prop :=
  match life w with
  | Mounted =>
      (exists d, interval w = Some d /\ d <= now w + 30000)
      /\ subscribed w = true
  | _ => interval w = None /\ subscribed w = false
  end.

(** What the cells of a mounted monitor always satisfy. *)
Definition cells_consistent (w : world) : Prop :=
  (isConnected (ui w) = None <-> lastChecked (ui w) = None)
  /\ (life w <> NotMounted -> isChecking (ui w) = false ->
      isConnected (ui w) <> None)
  /\ (life w = NotMounted -> ui w = initial).

(** The events that call [checkConnection]. *)
Definition starts_check (e : event) : bool :=
  match e with
  | Mount | IntervalFire | Press => true
  | NetInfoChange st => truthy st
  | _ => false
  end.

(** The state an unmounted component is left in. *)
Definition torn_down (u : state) (n : nat) (w : world) : Prop :=
  life w = Unmounted /\ interval w = None /\ subscribed w = false
  /\ ui w = u /\ length (calls w) = n.

(** The monitor of [race], unmounted while the probe of check 0 is pending,
    and then that probe failing. *)
Definition unmounted_in_flight : world :=
  Eval vm_compute in
    default after_race (run after_race [Unmount; ProbeSettled 0 Rejected]).

(** The monitor 100 ms after the probe of its first check was issued. *)
Definition probe_in_flight : world :=
  Eval vm_compute in
    default (boot 0)
      (run (boot 0) [Mount; FetchSettled 0 (Resolved (Some true));
                     Advance 100]).

(** Check 0 waits for its probe; check 1, started by a change event, waits
    for its own. *)
Definition two_probes_pending : world :=
  Eval vm_compute in
    default (boot 0)
      (run (boot 0) [Mount; FetchSettled 0 (Resolved (Some true));
                     NetInfoChange (Some true);
                     FetchSettled 1 (Resolved (Some true))]).

End Monitor.

(** ** JavaScript numbers and [Number.prototype.toFixed] *)

Module JSNumber.

Local Open Scope string_scope.
Local Open Scope Z_scope.

(** A finite double, as the exact value [mant * 2 ^ expn]. *)
Record float64 : Type := mkFloat {
  mant : Z;
  expn : Z
}.

Definition of_Z (n : Z) : float64 := {| mant := n; expn := 0 |}.

(** [p / q] rounded to the nearest integer, ties to even ([0 <= p], [0 < q]). *)
Definition div_nearest_even (p q : Z) : Z :=
  let d := p / q in
  let r := p mod q in
  if 2 * r <? q then d
  else if q <? 2 * r then d + 1
  else if Z.even d then d else d + 1.

(** The double a decimal literal [n / 10 ^ f] denotes (normal range):
    53 significant bits, round to nearest, ties to even. *)
Definition of_decimal (n : Z) (f : nat) : float64 :=
  let a := Z.abs n in
  let q := 10 ^ Z.of_nat f in
  if a =? 0 then {| mant := 0; expn := 0 |}
  else
    let e0 := Z.log2 a - Z.log2 q - 52 in
    let scaled e := (a * 2 ^ Z.max 0 (- e), q * 2 ^ Z.max 0 e) in
    let e := if fst (scaled e0) <? 2 ^ 52 * snd (scaled e0) then e0 - 1 else e0 in
    let m := div_nearest_even (fst (scaled e)) (snd (scaled e)) in
    let '(m, e) := if m =? 2 ^ 53 then (2 ^ 52, e + 1) else (m, e) in
    {| mant := Z.sgn n * m; expn := e |}.

(** The decimal digits of a natural number. *)
Definition digits (n : Z) : string :=
  DecimalString.NilZero.string_of_uint (N.to_uint (Z.to_N n)).

Fixpoint zeros (n : nat) : string :=
  match n with
  | O => ""
  | S n' => String "0" (zeros n')
  end.

(** The integer [n] for which [n / 10 ^ f - x] is closest to zero, the
    larger one when there are two ([0 <= x]). *)
Definition scaled_nearest (x : float64) (f : nat) : Z :=
  let p := Z.abs (mant x) * 10 ^ Z.of_nat f in
  if 0 <=? expn x then p * 2 ^ expn x
  else (2 * p + 2 ^ (- expn x)) / (2 * 2 ^ (- expn x)).

(** [x >= 10 ^ 21], on the absolute value. *)
Definition huge (x : float64) : bool :=
  if 0 <=? expn x then 10 ^ 21 <=? Z.abs (mant x) * 2 ^ expn x
  else 10 ^ 21 * 2 ^ (- expn x) <=? Z.abs (mant x).

Section ToFixed.

(** [Number::toString], which [toFixed] falls back on from [10 ^ 21] on. *)
Variable NumberToString : float64 -> string.

(** [x.toFixed(f)] for [0 <= f <= 100], step by step as ECMA-262 has it. *)
Definition toFixed (x : float64) (f : nat) : string :=
  let s := if mant x <? 0 then "-" else "" in
  let ax := {| mant := Z.abs (mant x); expn := expn x |} in
  let m :=
    if huge x then NumberToString ax
    else
      let n := scaled_nearest x f in
      let m := if n =? 0 then "0" else digits n in
      match f with
      | O => m
      | _ =>
          let m := if (String.length m <=? f)%nat
                   then (zeros (f + 1 - String.length m)%nat ++ m)%string else m in
          let k := String.length m in
          (substring 0 (k - f)%nat m ++ "." ++ substring (k - f)%nat f m)%string
      end in
  (s ++ m)%string.

End ToFixed.

(** *** Vocabulary of the statements *)

(** The sign [toFixed] prints. *)
Definition sign (x : float64) : string :=
  if (mant x <? 0)%Z then "-" else "".

End JSNumber.

(** ** The screen with the native map: [LocationApp] in [src/app/index.tsx] *)

Module Screen.

Import JSNumber.

Local Open Scope string_scope.

Record Coords : Type := mkCoords {
  latitude : float64;
  longitude : float64;
  accuracy : option float64   (* number | null *)
}.

Record LocationObject : Type := mkLocation {
  coords : Coords
}.

Record Region : Type := mkRegion {
  r_latitude : float64;
  r_longitude : float64;
  latitudeDelta : float64;
  longitudeDelta : float64
}.

(** The literal [0.01]. *)
Definition delta_0_01 : float64 := Eval vm_compute in of_decimal 1 2.

(** The [useState] cells of the screen. *)
Record state : Type := mkState {
  location : option LocationObject;
  errorMsg : option string;
  loading : bool;
  region : option Region;
  isConnected : option bool
}.

Definition initial : state :=
  {| location := None; errorMsg := None; loading := true;
     region := None; isConnected := None |}.

(** What a rejected promise carries: an [Error] with its message, or any
    other value. *)
Inductive thrown : Type :=
| ErrorObject (message : string)
| OtherValue.

Inductive outcome (A : Type) : Type :=
| Ok (v : A)
| Thrown (e : thrown).
Arguments Ok {A} v.
Arguments Thrown {A} e.

(** [error instanceof Error ? error.message : 'Error desconocido'] *)
Definition errorMessage (e : thrown) : string :=
  match e with
  | ErrorObject m => m
  | OtherValue => "Error desconocido"
  end.

(** The calls the screen makes on the platform, in the order made. *)
Inductive ext : Type :=
| Alert (title message : string)
| NetInfo_fetch
| requestForegroundPermissionsAsync
| getCurrentPositionAsync
| getForegroundPermissionsAsync
| watchPositionAsync
| animateToRegion (r : Region) (ms : Z).

(** The two notifications of the change listener. *)
Definition alert_restored : ext :=
  Alert "Conexión restablecida" "La conexión a Internet ha sido restablecida.".
Definition alert_lost : ext :=
  Alert "Conexión perdida" "Se ha perdido la conexión a Internet.".
Definition alert_offline : ext :=
  Alert "Sin conexión a Internet"
        "Algunas funciones del mapa pueden no estar disponibles sin conexión a Internet.".

(** Where the start-up effect (permission, then position) is suspended. *)
Inductive startup : Type :=
| AskingPermission
| FetchingPosition
| Started.

Record world : Type := mkWorld {
  st : state;                     (* the cells, every update made so far applied *)
  seen : option bool;             (* the [isConnected] of the render in which the
                                     connectivity effect last ran: the value the
                                     subscribed listener closed over *)
  netFetches : nat;               (* NetInfo.fetch() promises of checkInternetConnection pending *)
  boot : startup;
  asks : list (option Region);    (* pending getForegroundPermissionsAsync, each with
                                     the [region] its invocation closes over *)
  watches : list (option Region); (* live position subscriptions, each with the
                                     [region] its callback closes over *)
  log : list ext                  (* platform calls, oldest first *)
}.

(** After the first render: both effects have run. *)
Definition init : world :=
  {| st := initial; seen := None; netFetches := 1; boot := AskingPermission;
     asks := []; watches := [];
     log := [NetInfo_fetch; requestForegroundPermissionsAsync] |}.

Definition set_st (f : state -> state) (w : world) : world :=
  {| st := f (st w); seen := seen w; netFetches := netFetches w; boot := boot w;
     asks := asks w; watches := watches w; log := log w |}.

Definition call (c : ext) (w : world) : world :=
  {| st := st w; seen := seen w; netFetches := netFetches w; boot := boot w;
     asks := asks w; watches := watches w; log := log w ++ [c] |}.

Definition setLocation (l : LocationObject) : world -> world :=
  set_st (fun s => {| location := Some l; errorMsg := errorMsg s;
                      loading := loading s; region := region s;
                      isConnected := isConnected s |}).

Definition setErrorMsg (m : string) : world -> world :=
  set_st (fun s => {| location := location s; errorMsg := Some m;
                      loading := loading s; region := region s;
                      isConnected := isConnected s |}).

Definition setLoading (b : bool) : world -> world :=
  set_st (fun s => {| location := location s; errorMsg := errorMsg s;
                      loading := b; region := region s;
                      isConnected := isConnected s |}).

Definition setRegion (r : Region) : world -> world :=
  set_st (fun s => {| location := location s; errorMsg := errorMsg s;
                      loading := loading s; region := Some r;
                      isConnected := isConnected s |}).

Definition setIsConnected (v : option bool) : world -> world :=
  set_st (fun s => {| location := location s; errorMsg := errorMsg s;
                      loading := loading s; region := region s;
                      isConnected := v |}).

(** *** Rendering *)

Record marker : Type := mkMarker {
  coordinate : float64 * float64;
  title : string;
  description : string
}.

Record mapSection : Type := mkMap {
  initialRegion : option Region;
  markers : list marker;
  buttons : list string;
  infoBox : list string
}.

Inductive view : Type :=
| LoadingView                        (* 'Obteniendo tu ubicación...' *)
| ErrorView (msg : string)
| MainView (map : option mapSection).
    (* <InternetConnectionCheck /> above the map section; [None] is the
       text 'No se pudo obtener la ubicación' *)

(** A JavaScript string is truthy unless empty. *)
Definition nonempty (s : string) : bool :=
  match s with
  | EmptyString => false
  | _ => true
  end.

Section Render.

Variable NumberToString : float64 -> string.

Definition fixed (x : float64) (f : nat) : string :=
  toFixed NumberToString x f.

(** [accuracy?.toFixed(0)]; [undefined] renders as nothing. *)
Definition fixed_opt (x : option float64) (f : nat) : string :=
  match x with
  | Some v => fixed v f
  | None => ""
  end.

Definition render_map (s : state) (l : LocationObject) : mapSection :=
  let c := coords l in
  {| initialRegion := region s;
     markers :=
       [ {| coordinate := (latitude c, longitude c);
            title := "Mi ubicación";
            description := "Lat: " ++ fixed (latitude c) 6 ++
                           ", Lng: " ++ fixed (longitude c) 6 |} ];
     buttons := ["Centrar mapa"; "Seguimiento en tiempo real"];
     infoBox :=
       [ "Latitud: " ++ fixed (latitude c) 6;
         "Longitud: " ++ fixed (longitude c) 6;
         "Precisión: ±" ++ fixed_opt (accuracy c) 0 ++ " metros";
         "Internet: " ++ (if truthy (isConnected s) then "Conectado"
                          else "Sin conexión") ] |}.

Definition render (s : state) : view :=
  if loading s then LoadingView
  else
    match errorMsg s with
    | Some m =>
        if nonempty m then ErrorView m
        else MainView (option_map (render_map s) (location s))
    | None => MainView (option_map (render_map s) (location s))
    end.

End Render.

(** The buttons exist, and [mapRef.current] is set, exactly when the map
    section with the map is on screen; that does not depend on how numbers
    are printed. *)
Definition map_shown (s : state) : bool :=
  match render (fun _ => "") s with
  | MainView (Some _) => true
  | _ => false
  end.

(** *** Handlers *)

(** React renders again some time after a cell has changed; the updates
    made in between are batched into that render.  The effect with
    dependency list [[isConnected]] runs again when [isConnected] differs
    from its value in the render in which the effect last ran: the listener
    is unsubscribed, [checkInternetConnection] is called, and a new listener
    is subscribed, which closes over the new value. *)
Definition commit (w : world) : world :=
  if decide (isConnected (st w) = seen w) then w
  else
    let w := call NetInfo_fetch w in
    {| st := st w; seen := isConnected (st w);
       netFetches := S (netFetches w); boot := boot w;
       asks := asks w; watches := watches w; log := log w |}.

(** [checkInternetConnection], after [await NetInfo.fetch()]. *)
Definition checkInternetConnection_after (v : netinfo) (w : world) : world :=
  let w := setIsConnected v w in
  if negb (truthy v) then call alert_offline w else w.

(** The listener given to [NetInfo.addEventListener].  Its [isConnected]
    is the one of the render that subscribed it, not the cell: until React
    has rendered again and the effect has subscribed a new listener, every
    report is compared with that same value. *)
Definition listener_alert (seen v : option bool) : option ext :=
  if truthy v && negb (truthy seen) then Some alert_restored
  else if negb (truthy v) && truthy seen then Some alert_lost
  else None.

Definition onNetInfoChange (v : netinfo) (w : world) : world :=
  let closed := seen w in
  let w := setIsConnected v w in
  match listener_alert closed v with
  | Some a => call a w
  | None => w
  end.

(** The start-up effect, after [await requestForegroundPermissionsAsync()]. *)
Definition startup_afterPermission (granted : bool) (w : world) : world * startup :=
  if negb granted
  then (setLoading false
          (setErrorMsg "Se requiere permiso para acceder a la ubicación" w),
        Started)
  else (call getCurrentPositionAsync w, FetchingPosition).

(** The start-up effect, after [await getCurrentPositionAsync(...)]. *)
Definition startup_afterPosition (r : outcome LocationObject) (w : world) : world :=
  let w :=
    match r with
    | Ok l =>
        setRegion {| r_latitude := latitude (coords l);
                     r_longitude := longitude (coords l);
                     latitudeDelta := delta_0_01;
                     longitudeDelta := delta_0_01 |}
          (setLocation l w)
    | Thrown e =>
        call (Alert "Error" "No se pudo obtener la ubicación actual")
          (setErrorMsg ("Error al obtener la ubicación: " ++ errorMessage e) w)
    end in
  (* finally *) setLoading false w.

Definition centerMapOnLocation (w : world) : world :=
  match location (st w) with
  | Some l =>
      if map_shown (st w)
      then call (animateToRegion
                   {| r_latitude := latitude (coords l);
                      r_longitude := longitude (coords l);
                      latitudeDelta := delta_0_01;
                      longitudeDelta := delta_0_01 |} 1000) w
      else w
  | None => w
  end.

(** [startLocationTracking], up to its [await]. *)
Definition startLocationTracking_enter (w : world) : world :=
  let w := call getForegroundPermissionsAsync w in
  {| st := st w; seen := seen w; netFetches := netFetches w; boot := boot w;
     asks := asks w ++ [region (st w)]; watches := watches w; log := log w |}.

(** [startLocationTracking], after [await getForegroundPermissionsAsync()].
    The promise of [watchPositionAsync] is neither awaited nor kept. *)
Definition startLocationTracking_after
    (closed : option Region) (r : outcome bool) (w : world) : world :=
  match r with
  | Ok granted =>
      if negb granted
      then call (Alert "Permiso denegado"
                       "No se puede seguir la ubicación sin permiso") w
      else
        let w := call watchPositionAsync w in
        let w := {| st := st w; seen := seen w;
                    netFetches := netFetches w; boot := boot w;
                    asks := asks w; watches := watches w ++ [closed];
                    log := log w |} in
        call (Alert "Seguimiento activado"
                    "Ahora se está siguiendo tu ubicación en tiempo real") w
  | Thrown e =>
      call (Alert "Error"
                  ("No se pudo iniciar el seguimiento: " ++ errorMessage e)) w
  end.

(** The callback given to [watchPositionAsync]. *)
Definition onPosition (closed : option Region) (l : LocationObject) (w : world) : world :=
  let shown := map_shown (st w) in
  let w := setLocation l w in
  if shown
  then setRegion
         {| r_latitude := latitude (coords l);
            r_longitude := longitude (coords l);
            latitudeDelta := match closed with
                             | Some r => latitudeDelta r
                             | None => delta_0_01
                             end;
            longitudeDelta := match closed with
                              | Some r => longitudeDelta r
                              | None => delta_0_01
                              end |} w
  else w.

Inductive event : Type :=
| PermissionSettled (r : outcome bool)   (* status === 'granted' *)
| PositionSettled (r : outcome LocationObject)
| NetFetchSettled (v : netinfo)
| NetInfoChange (v : netinfo)
| PressCenter
| PressTrack
| TrackPermissionSettled (i : nat) (r : outcome bool)
| WatchUpdate (i : nat) (l : LocationObject)
| Render.                                (* React renders and runs the effects *)

Definition set_boot (b : startup) (w : world) : world :=
  {| st := st w; seen := seen w; netFetches := netFetches w; boot := b;
     asks := asks w; watches := watches w; log := log w |}.

Definition step (w : world) (e : event) : option world :=
  match e with
  | PermissionSettled r =>
      match boot w, r with
      | AskingPermission, Ok granted =>
          let '(w', b) := startup_afterPermission granted w in
          Some (set_boot b w')
      | AskingPermission, Thrown _ =>
          (* not inside [try]: the rejection goes unhandled *)
          Some (set_boot Started w)
      | _, _ => None
      end
  | PositionSettled r =>
      match boot w with
      | FetchingPosition => Some (set_boot Started (startup_afterPosition r w))
      | _ => None
      end
  | NetFetchSettled v =>
      match netFetches w with
      | S n =>
          let w := {| st := st w; seen := seen w;
                      netFetches := n; boot := boot w;
                      asks := asks w; watches := watches w; log := log w |} in
          Some (checkInternetConnection_after v w)
      | O => None
      end
  | NetInfoChange v => Some (onNetInfoChange v w)
  | PressCenter =>
      if map_shown (st w) then Some (centerMapOnLocation w) else None
  | PressTrack =>
      if map_shown (st w) then Some (startLocationTracking_enter w) else None
  | TrackPermissionSettled i r =>
      match asks w !! i with
      | Some closed =>
          let w := {| st := st w; seen := seen w;
                      netFetches := netFetches w; boot := boot w;
                      asks := delete i (asks w); watches := watches w;
                      log := log w |} in
          Some (startLocationTracking_after closed r w)
      | None => None
      end
  | WatchUpdate i l =>
      match watches w !! i with
      | Some closed => Some (onPosition closed l w)
      | None => None
      end
  | Render => Some (commit w)
  end.

Fixpoint run (w : world) (es : list event) : option world :=
  match es with
  | [] => Some w
  | e :: es' =>
      match step w e with
      | Some w' => run w' es'
      | None => None
      end
  end.

Definition reachable (w : world) : Prop :=
  exists es, run init es = Some w.

(** *** Vocabulary of the statements *)

(** What the listener appends to the platform calls when the status it
    sees is [seen] and [v] is reported. *)
Definition notifications (seen v : option bool) : list ext :=
  match truthy seen, truthy v with
  | false, true => [alert_restored]
  | true, false => [alert_lost]
  | _, _ => []
  end.

(** What a render adds to the platform calls: the effect runs again when
    [isConnected] is no longer what the effect last saw. *)
Definition refetch (seen v : option bool) : list ext :=
  if decide (v = seen) then [] else [NetInfo_fetch].

(** The platform calls a connectivity handler can add. *)
Definition connectivity_call (c : ext) : Prop :=
  c = NetInfo_fetch \/ exists t m, c = Alert t m.

Definition with_isConnected (v : option bool) (s : state) : state :=
  {| location := location s; errorMsg := errorMsg s; loading := loading s;
     region := region s; isConnected := v |}.

(** Until the start-up effect has finished, the screen shows the loading
    view and nothing but connectivity has been touched. *)
Definition starting_up (w : world) : Prop :=
  boot w <> Started ->
  loading (st w) = true /\ errorMsg (st w) = None /\ location (st w) = None
  /\ asks w = [] /\ watches w = []
  /\ (watchPositionAsync ∉ log w)
  /\ (boot w = AskingPermission -> getCurrentPositionAsync ∉ log w).

Definition denied_message : string :=
  "Se requiere permiso para acceder a la ubicación".

(** The state the screen is left in by a denied permission, [l0] being
    the platform calls made up to the denial. *)
Definition denied (l0 : list ext) (w : world) : Prop :=
  boot w = Started /\ loading (st w) = false
  /\ errorMsg (st w) = Some denied_message /\ location (st w) = None
  /\ asks w = [] /\ watches w = []
  /\ exists cs, log w = (l0 ++ cs)%list /\ Forall connectivity_call cs.

(** The reading of the scenario: the doubles nearest to 40.4168 and
    -3.7038, accuracy 5. *)
Definition madrid : LocationObject :=
  Eval vm_compute in
    {| coords := {| latitude := of_decimal 404168 4;
                    longitude := of_decimal (-37038) 4;
                    accuracy := Some (of_Z 5) |} |}.

Definition fetching : world :=
  Eval vm_compute in default init (run init [PermissionSettled (Ok true)]).

Definition two_starts : list event :=
  [PermissionSettled (Ok true); PositionSettled (Ok madrid);
   PressTrack; TrackPermissionSettled 0 (Ok true);
   PressTrack; TrackPermissionSettled 0 (Ok true)].

Definition after_two_starts : world :=
  Eval vm_compute in default init (run init two_starts).

(** *** Stages of the screen *)

(** The region both the start-up effect and [centerMapOnLocation] build:
    the location with deltas of 0.01. *)
Definition region_of (l : LocationObject) : Region :=
  {| r_latitude := latitude (coords l);
     r_longitude := longitude (coords l);
     latitudeDelta := delta_0_01;
     longitudeDelta := delta_0_01 |}.

(** The four conditions the screen can be in. *)
Inductive stage (w : world) : Prop :=
| stage_starting :
    boot w <> Started -> loading (st w) = true -> errorMsg (st w) = None ->
    location (st w) = None -> asks w = [] -> watches w = [] -> stage w
| stage_stuck :   (* the permission promise was rejected *)
    boot w = Started -> loading (st w) = true -> errorMsg (st w) = None ->
    location (st w) = None -> asks w = [] -> watches w = [] -> stage w
| stage_error m :
    boot w = Started -> loading (st w) = false -> errorMsg (st w) = Some m ->
    nonempty m = true ->
    location (st w) = None -> asks w = [] -> watches w = [] -> stage w
| stage_map l :
    boot w = Started -> loading (st w) = false -> errorMsg (st w) = None ->
    location (st w) = Some l -> stage w.

Definition default_deltas (o : option Region) : Prop :=
  match o with
  | Some r => latitudeDelta r = delta_0_01 /\ longitudeDelta r = delta_0_01
  | None => True
  end.

(** The [region] cell is the 0.01-degree window around the location, and
    so is every region a tracking invocation has closed over. *)
Definition region_follows (w : world) : Prop :=
  region (st w) = option_map region_of (location (st w))
  /\ Forall default_deltas (asks w)
  /\ Forall default_deltas (watches w).

Definition well_staged (w : world) : Prop :=
  stage w /\ region_follows w.

(** A screen whose start-up has ended without a map: [s0] are its cells up
    to [isConnected], [l0] the platform calls made so far. *)
Definition halted (s0 : state) (l0 : list ext) (w : world) : Prop :=
  boot w = Started /\ asks w = [] /\ watches w = []
  /\ (exists v, st w = with_isConnected v s0)
  /\ exists cs, log w = (l0 ++ cs)%list /\ Forall connectivity_call cs.

(** The map section is on screen. *)
Definition showing_map (w : world) : Prop :=
  boot w = Started /\ loading (st w) = false /\ errorMsg (st w) = None
  /\ exists l, location (st w) = Some l.

(** The screen with the map shown and one permission query pending. *)
Definition tracking_asked : world :=
  Eval vm_compute in
    default init (run init [PermissionSettled (Ok true);
                            PositionSettled (Ok madrid); PressTrack]).

(** The screen of [after_two_starts] told that the connection is up, and
    rendered. *)
Definition after_two_starts_online : world :=
  Eval vm_compute in
    default after_two_starts
      (run after_two_starts [NetInfoChange (Some true); Render]).

(** The alert [startLocationTracking] raises instead of starting. *)
Definition refusal (r : outcome bool) : ext :=
  match r with
  | Ok _ => Alert "Permiso denegado" "No se puede seguir la ubicación sin permiso"
  | Thrown e =>
      Alert "Error" ("No se pudo iniciar el seguimiento: " ++ errorMessage e)
  end.

(** Whether the permission query answered 'granted'. *)
Definition granted (r : outcome bool) : bool :=
  match r with
  | Ok true => true
  | _ => false
  end.

End Screen.

(** ** The screen with the embedded web map

    The variant of [LocationApp] that renders the map in a [WebView].  It
    keeps the handle of the position subscription in [watchId]. *)

Module WebScreen.

Import Screen(LocationObject, thrown, outcome, Ok, Thrown, errorMessage, startup,
              AskingPermission, FetchingPosition, Started, nonempty).

Local Open Scope string_scope.

(** The [useState] cells.  A [Location.LocationSubscription] is named by
    its number in creation order. *)
Record state : Type := mkState {
  location : option LocationObject;
  errorMsg : option string;
  loading : bool;
  isConnected : option bool;
  trackingActive : bool;
  watchId : option nat;
  mapError : bool
}.

Definition initial : state :=
  {| location := None; errorMsg := None; loading := true; isConnected := None;
     trackingActive := false; watchId := None; mapError := false |}.

Inductive ext : Type :=
| Alert (title message : string)
| NetInfo_fetch
| requestForegroundPermissionsAsync
| getCurrentPositionAsync
| getForegroundPermissionsAsync
| watchPositionAsync
| remove (id : nat).          (* subscription.remove() *)

Record world : Type := mkWorld {
  st : state;                (* the cells, every update made so far applied *)
  seen : option bool;        (* the [isConnected] of the render in which the
                                connectivity effect last ran: what the subscribed
                                listener closed over *)
  held : option nat;         (* the [watchId] of that render: what the clean-up
                                of the effect closed over *)
  netFetches : nat;          (* NetInfo.fetch() promises pending *)
  boot : startup;
  refreshes : nat;           (* getCurrentPositionAsync promises of refreshLocation pending *)
  asks : list (option nat);  (* pending getForegroundPermissionsAsync, each with
                                the [watchId] its invocation closes over *)
  starting : list nat;       (* pending watchPositionAsync promises *)
  live : list nat;           (* subscriptions started and not removed *)
  created : nat;             (* subscriptions created so far *)
  log : list ext
}.

Definition init : world :=
  {| st := initial; seen := None; held := None; netFetches := 1;
     boot := AskingPermission; refreshes := 0;
     asks := []; starting := []; live := []; created := 0;
     log := [NetInfo_fetch; requestForegroundPermissionsAsync] |}.

Definition set_st (f : state -> state) (w : world) : world :=
  {| st := f (st w); seen := seen w; held := held w;
     netFetches := netFetches w; boot := boot w;
     refreshes := refreshes w; asks := asks w; starting := starting w;
     live := live w; created := created w; log := log w |}.

Definition call (c : ext) (w : world) : world :=
  {| st := st w; seen := seen w; held := held w;
     netFetches := netFetches w; boot := boot w;
     refreshes := refreshes w; asks := asks w; starting := starting w;
     live := live w; created := created w; log := log w ++ [c] |}.

Definition set_live (f : list nat -> list nat) (w : world) : world :=
  {| st := st w; seen := seen w; held := held w;
     netFetches := netFetches w; boot := boot w;
     refreshes := refreshes w; asks := asks w; starting := starting w;
     live := f (live w); created := created w; log := log w |}.

Definition without (id : nat) (l : list nat) : list nat :=
  List.filter (fun j => negb (Nat.eqb j id)) l.

(** [if (watchId) { watchId.remove(); }]; removing twice is harmless. *)
Definition remove_if (h : option nat) (w : world) : world :=
  match h with
  | Some id => set_live (without id) (call (remove id) w)
  | None => w
  end.

Definition setLocation (l : LocationObject) : world -> world :=
  set_st (fun s => {| location := Some l; errorMsg := errorMsg s;
                      loading := loading s; isConnected := isConnected s;
                      trackingActive := trackingActive s; watchId := watchId s;
                      mapError := mapError s |}).

Definition setErrorMsg (m : string) : world -> world :=
  set_st (fun s => {| location := location s; errorMsg := Some m;
                      loading := loading s; isConnected := isConnected s;
                      trackingActive := trackingActive s; watchId := watchId s;
                      mapError := mapError s |}).

Definition setLoading (b : bool) : world -> world :=
  set_st (fun s => {| location := location s; errorMsg := errorMsg s;
                      loading := b; isConnected := isConnected s;
                      trackingActive := trackingActive s; watchId := watchId s;
                      mapError := mapError s |}).

Definition setIsConnected (v : option bool) : world -> world :=
  set_st (fun s => {| location := location s; errorMsg := errorMsg s;
                      loading := loading s; isConnected := v;
                      trackingActive := trackingActive s; watchId := watchId s;
                      mapError := mapError s |}).

Definition setTrackingActive (b : bool) : world -> world :=
  set_st (fun s => {| location := location s; errorMsg := errorMsg s;
                      loading := loading s; isConnected := isConnected s;
                      trackingActive := b; watchId := watchId s;
                      mapError := mapError s |}).

Definition setWatchId (h : option nat) : world -> world :=
  set_st (fun s => {| location := location s; errorMsg := errorMsg s;
                      loading := loading s; isConnected := isConnected s;
                      trackingActive := trackingActive s; watchId := h;
                      mapError := mapError s |}).

Definition setMapError (b : bool) : world -> world :=
  set_st (fun s => {| location := location s; errorMsg := errorMsg s;
                      loading := loading s; isConnected := isConnected s;
                      trackingActive := trackingActive s; watchId := watchId s;
                      mapError := b |}).

(** The action buttons are on screen when the location section is. *)
Definition actions_shown (s : state) : bool :=
  negb (loading s)
  && match errorMsg s with Some m => negb (nonempty m) | None => true end
  && match location s with Some _ => true | None => false end.

(** React renders again some time after a cell has changed; the updates
    made in between are batched into that render.  The effect with
    dependency list [[isConnected, watchId]] runs again when either differs
    from its value in the render in which the effect last ran: the clean-up
    of that run unsubscribes the listener and removes the subscription that
    run saw in [watchId], and the body calls [checkInternetConnection] and
    subscribes a new listener. *)
Definition commit (w : world) : world :=
  if decide (isConnected (st w) = seen w /\ watchId (st w) = held w) then w
  else
    let w := remove_if (held w) w in
    let w := call NetInfo_fetch w in
    {| st := st w; seen := isConnected (st w); held := watchId (st w);
       netFetches := S (netFetches w); boot := boot w;
       refreshes := refreshes w; asks := asks w; starting := starting w;
       live := live w; created := created w; log := log w |}.

Definition checkInternetConnection_after (v : netinfo) (w : world) : world :=
  let w := setIsConnected v w in
  if negb (truthy v)
  then call (Alert "Sin conexión a Internet"
                   "Algunas funciones del mapa pueden no estar disponibles sin conexión a Internet.") w
  else w.

(** The listener compares the report with the [isConnected] of the render
    that subscribed it. *)
Definition onNetInfoChange (v : netinfo) (w : world) : world :=
  let closed := seen w in
  let w := setIsConnected v w in
  if truthy v && negb (truthy closed)
  then setMapError false
         (call (Alert "Conexión restablecida"
                      "La conexión a Internet ha sido restablecida.") w)
  else if negb (truthy v) && truthy closed
  then call (Alert "Conexión perdida" "Se ha perdido la conexión a Internet.") w
  else w.

Definition startup_afterPermission (granted : bool) (w : world) : world * startup :=
  if negb granted
  then (setLoading false
          (setErrorMsg "Se requiere permiso para acceder a la ubicación" w),
        Started)
  else (call getCurrentPositionAsync w, FetchingPosition).

Definition startup_afterPosition (r : outcome LocationObject) (w : world) : world :=
  let w :=
    match r with
    | Ok l => setLocation l w
    | Thrown e =>
        call (Alert "Error" "No se pudo obtener la ubicación actual")
          (setErrorMsg ("Error al obtener la ubicación: " ++ errorMessage e) w)
    end in
  (* finally *) setLoading false w.

Definition refreshLocation_enter (w : world) : world :=
  let w := call getCurrentPositionAsync (setMapError false (setLoading true w)) in
  {| st := st w; seen := seen w; held := held w;
     netFetches := netFetches w; boot := boot w;
     refreshes := S (refreshes w); asks := asks w; starting := starting w;
     live := live w; created := created w; log := log w |}.

Definition refreshLocation_after (r : outcome LocationObject) (w : world) : world :=
  let w :=
    match r with
    | Ok l => setLocation l w
    | Thrown e =>
        call (Alert "Error"
                    ("No se pudo actualizar la ubicación: " ++ errorMessage e)) w
    end in
  (* finally *) setLoading false w.

(** [startLocationTracking], up to its first [await]. *)
Definition startLocationTracking_enter (w : world) : world :=
  let w := call getForegroundPermissionsAsync w in
  {| st := st w; seen := seen w; held := held w;
     netFetches := netFetches w; boot := boot w;
     refreshes := refreshes w; asks := asks w ++ [watchId (st w)];
     starting := starting w; live := live w; created := created w;
     log := log w |}.

(** [startLocationTracking], from the permission to
    [await watchPositionAsync(...)]: the previous subscription is stopped
    first ("Detener el seguimiento anterior si existe"). *)
Definition startLocationTracking_afterPermission
    (closed : option nat) (r : outcome bool) (w : world) : world :=
  match r with
  | Ok granted =>
      if negb granted
      then call (Alert "Permiso denegado"
                       "No se puede seguir la ubicación sin permiso") w
      else
        let w := call watchPositionAsync (remove_if closed w) in
        {| st := st w; seen := seen w; held := held w;
           netFetches := netFetches w; boot := boot w;
           refreshes := refreshes w; asks := asks w;
           starting := starting w ++ [created w];
           live := live w ++ [created w]; created := S (created w);
           log := log w |}
  | Thrown e =>
      call (Alert "Error"
                  ("No se pudo iniciar el seguimiento: " ++ errorMessage e)) w
  end.

(** [startLocationTracking], after [await watchPositionAsync(...)]; a
    subscription whose start was rejected delivers nothing. *)
Definition startLocationTracking_afterWatch
    (id : nat) (r : outcome unit) (w : world) : world :=
  match r with
  | Ok _ =>
      call (Alert "Seguimiento activado"
                  "Ahora se está siguiendo tu ubicación en tiempo real")
        (setTrackingActive true (setWatchId (Some id) w))
  | Thrown e =>
      call (Alert "Error"
                  ("No se pudo iniciar el seguimiento: " ++ errorMessage e))
        (set_live (without id) w)
  end.

Definition stopLocationTracking (w : world) : world :=
  match watchId (st w) with
  | Some id =>
      call (Alert "Seguimiento desactivado"
                  "Se ha detenido el seguimiento de ubicación")
        (setTrackingActive false (setWatchId None (remove_if (Some id) w)))
  | None => w
  end.

Inductive event : Type :=
| PermissionSettled (r : outcome bool)
| PositionSettled (r : outcome LocationObject)
| NetFetchSettled (v : netinfo)
| NetInfoChange (v : netinfo)
| PressRefresh
| RefreshSettled (r : outcome LocationObject)
| PressStart
| PressStop
| TrackPermissionSettled (i : nat) (r : outcome bool)
| WatchSettled (j : nat) (r : outcome unit)
| WatchUpdate (id : nat) (l : LocationObject)
| WebViewError
| Render.                     (* React renders and runs the effects *)

Definition set_boot (b : startup) (w : world) : world :=
  {| st := st w; seen := seen w; held := held w;
     netFetches := netFetches w; boot := b;
     refreshes := refreshes w; asks := asks w; starting := starting w;
     live := live w; created := created w; log := log w |}.

Definition step (w : world) (e : event) : option world :=
  match e with
  | PermissionSettled r =>
      match boot w, r with
      | AskingPermission, Ok granted =>
          let '(w', b) := startup_afterPermission granted w in
          Some (set_boot b w')
      | AskingPermission, Thrown _ => Some (set_boot Started w)
      | _, _ => None
      end
  | PositionSettled r =>
      match boot w with
      | FetchingPosition => Some (set_boot Started (startup_afterPosition r w))
      | _ => None
      end
  | NetFetchSettled v =>
      match netFetches w with
      | S n =>
          Some (checkInternetConnection_after v
                  {| st := st w; seen := seen w; held := held w;
                     netFetches := n; boot := boot w;
                     refreshes := refreshes w; asks := asks w;
                     starting := starting w; live := live w;
                     created := created w; log := log w |})
      | O => None
      end
  | NetInfoChange v => Some (onNetInfoChange v w)
  | PressRefresh =>
      if actions_shown (st w) then Some (refreshLocation_enter w) else None
  | RefreshSettled r =>
      match refreshes w with
      | S n =>
          Some (refreshLocation_after r
                  {| st := st w; seen := seen w; held := held w;
                     netFetches := netFetches w; boot := boot w;
                     refreshes := n; asks := asks w; starting := starting w;
                     live := live w; created := created w; log := log w |})
      | O => None
      end
  | PressStart =>
      if actions_shown (st w) && negb (trackingActive (st w))
      then Some (startLocationTracking_enter w) else None
  | PressStop =>
      if actions_shown (st w) && trackingActive (st w)
      then Some (stopLocationTracking w) else None
  | TrackPermissionSettled i r =>
      match asks w !! i with
      | Some closed =>
          Some (startLocationTracking_afterPermission closed r
                  {| st := st w; seen := seen w; held := held w;
                     netFetches := netFetches w; boot := boot w;
                     refreshes := refreshes w; asks := delete i (asks w);
                     starting := starting w; live := live w;
                     created := created w; log := log w |})
      | None => None
      end
  | WatchSettled j r =>
      match starting w !! j with
      | Some id =>
          Some (startLocationTracking_afterWatch id r
                  {| st := st w; seen := seen w; held := held w;
                     netFetches := netFetches w; boot := boot w;
                     refreshes := refreshes w; asks := asks w;
                     starting := delete j (starting w); live := live w;
                     created := created w; log := log w |})
      | None => None
      end
  | WatchUpdate id l =>
      if bool_decide (id ∈ live w) then Some (setLocation l w) else None
  | WebViewError => Some (setMapError true w)
  | Render => Some (commit w)
  end.

Fixpoint run (w : world) (es : list event) : option world :=
  match es with
  | [] => Some w
  | e :: es' =>
      match step w e with
      | Some w' => run w' es'
      | None => None
      end
  end.

Definition reachable (w : world) : Prop :=
  exists es, run init es = Some w.

(** *** Vocabulary of the statements *)

(** Every live subscription is the one held in [watchId] or one whose
    [watchPositionAsync] is still pending. *)
Definition tracked (w : world) : Prop :=
  NoDup (live w)
  /\ (forall id, id ∈ live w -> (id < created w)%nat)
  /\ (forall id, id ∈ live w -> watchId (st w) = Some id \/ id ∈ starting w).

(** What a handler may do to the subscriptions, the render pending:
    [old] is the [watchId] the clean-up of the effect closed over. *)
Definition tracked_but (old : option nat) (w : world) : Prop :=
  NoDup (live w)
  /\ (forall id, id ∈ live w -> (id < created w)%nat)
  /\ (forall id, id ∈ live w ->
        watchId (st w) = Some id \/ id ∈ starting w \/ old = Some id).

(** The events [es] with React rendering after each of them. *)
Definition rendering_each (es : list event) : list event :=
  flat_map (fun e => [e; Render]) es.

(** The subscriptions are accounted for and the clean-up of the effect
    holds the handle that is in [watchId]. *)
Definition caught_up (w : world) : Prop :=
  tracked w /\ held w = watchId (st w).

(** *** Rendering and further vocabulary *)

(** What stands in the map container: the [WebView] with the document
    generated for the location, or a text.  The document itself, which
    embeds the coordinates as [Number::toString] prints them, is not
    modelled. *)
Inductive mapPane : Type :=
| WebViewMap (l : LocationObject)
| NoMap (text : string).

Definition render_pane (s : state) (l : LocationObject) : mapPane :=
  if truthy (isConnected s) && negb (mapError s) then WebViewMap l
  else NoMap (if truthy (isConnected s)
              then "No se pudo cargar el mapa. Intente de nuevo más tarde."
              else "Mapa no disponible sin conexión a internet").

(** The two action buttons. *)
Definition render_buttons (s : state) : list string :=
  ["Actualizar ubicación";
   if trackingActive s then "Detener seguimiento"
   else "Seguimiento en tiempo real"].

(** The tracking flag and the handle are set and cleared together. *)
Definition flag_matches_handle (w : world) : Prop :=
  trackingActive (st w) = true <-> watchId (st w) <> None.

(** No error message is on screen. *)
Definition no_error (s : state) : bool :=
  match errorMsg s with Some m => negb (nonempty m) | None => true end.

(** A refresh is pending only behind the loading view, one at a time, and
    only once the start-up has ended with a location. *)
Definition refresh_behind_loading (w : world) : Prop :=
  (boot w <> Started -> loading (st w) = true)
  /\ (refreshes w <= 1)%nat
  /\ (refreshes w = 1%nat ->
      loading (st w) = true /\ boot w = Started
      /\ no_error (st w) = true /\ location (st w) <> None).

(** Events that neither refresh the location nor report the connection
    as down. *)
Definition online_without_refresh (e : event) : bool :=
  match e with
  | PressRefresh => false
  | NetInfoChange v | NetFetchSettled v => truthy v
  | _ => true
  end.

(** The screen while a refresh is pending. *)
Definition refreshing_trace : list event :=
  [PermissionSettled (Ok true); PositionSettled (Ok Screen.madrid); PressRefresh].

Definition refreshing : world :=
  Eval vm_compute in default init (run init refreshing_trace).

Definition tracking_on_trace : list event :=
  [PermissionSettled (Ok true); PositionSettled (Ok Screen.madrid);
   PressStart; TrackPermissionSettled 0 (Ok true); WatchSettled 0 (Ok tt)].

(** The screen with tracking started once and nothing in flight. *)
Definition tracking_on : world :=
  Eval vm_compute in
    default init (run init (rendering_each tracking_on_trace)).

Definition map_failed_trace : list event :=
  [NetFetchSettled (Some true); PermissionSettled (Ok true);
   PositionSettled (Ok Screen.madrid); Render; WebViewError].

Definition map_failed : world :=
  Eval vm_compute in default init (run init map_failed_trace).

End WebScreen.

(** ** The screen with the monitor it renders *)

Module App.

Record world : Type := mkWorld {
  screen : Screen.world;
  monitor : Monitor.world
}.

Definition init (t : Z) : world :=
  {| screen := Screen.init; monitor := Monitor.boot t |}.

Inductive event : Type :=
| OnScreen (e : Screen.event)
| OnMonitor (e : Monitor.event).

(** [<InternetConnectionCheck />] is part of the main view only: the
    monitor mounts with the first render of that view. *)
Definition mounts (s : Screen.world) (m : Monitor.world) : bool :=
  match Screen.render (fun _ => EmptyString) (Screen.st s), Monitor.life m with
  | Screen.MainView _, Monitor.NotMounted => true
  | _, _ => false
  end.

Definition step (w : world) (e : event) : option world :=
  match e with
  | OnScreen e =>
      match Screen.step (screen w) e with
      | Some s =>
          if mounts s (monitor w)
          then option_map (fun m => {| screen := s; monitor := m |})
                          (Monitor.step (monitor w) Monitor.Mount)
          else Some {| screen := s; monitor := monitor w |}
      | None => None
      end
  | OnMonitor Monitor.Mount => None
  | OnMonitor Monitor.Unmount => None
  | OnMonitor e =>
      option_map (fun m => {| screen := screen w; monitor := m |})
                 (Monitor.step (monitor w) e)
  end.

Fixpoint run (w : world) (es : list event) : option world :=
  match es with
  | [] => Some w
  | e :: es' =>
      match step w e with
      | Some w' => run w' es'
      | None => None
      end
  end.

(** *** The environment of the divergence *)

(** The environment of C10: the interface is up, the probe fails. *)
Definition captive_portal : list App.event :=
  [App.OnScreen (Screen.NetFetchSettled (Some true));
   App.OnScreen (Screen.PermissionSettled (Screen.Ok true));
   App.OnScreen (Screen.PositionSettled (Screen.Ok Screen.madrid));
   App.OnMonitor (Monitor.FetchSettled 0 (Resolved (Some true)));
   App.OnMonitor (Monitor.ProbeSettled 0 Rejected)].

Definition behind_captive_portal : App.world :=
  Eval vm_compute in
    default (App.init 0) (App.run (App.init 0) captive_portal).

(** *** The two components together *)

(** The two components in step. *)
Definition in_step (a : App.world) : Prop :=
  Screen.reachable (App.screen a) /\ Monitor.reachable (App.monitor a)
  /\ Monitor.life (App.monitor a)
     = if Screen.map_shown (Screen.st (App.screen a))
       then Monitor.Mounted else Monitor.NotMounted.

End App.

(** ** The screen of the tab: [LocationMap] in [src/app/(tabs)/index.tsx] *)

Module TabScreen.

Import JSNumber.
Import Screen(Coords, latitude, longitude, accuracy, LocationObject, coords,
              Region, r_latitude, r_longitude, latitudeDelta, longitudeDelta,
              delta_0_01, thrown, outcome, Ok, Thrown, errorMessage,
              ext, Alert, requestForegroundPermissionsAsync,
              getCurrentPositionAsync, getForegroundPermissionsAsync,
              watchPositionAsync, animateToRegion,
              startup, AskingPermission, FetchingPosition, Started,
              marker, mapSection, nonempty).

Local Open Scope string_scope.

(** The [useState] cells of the screen. *)
Record state : Type := mkState {
  location : option LocationObject;
  errorMsg : option string;
  loading : bool;
  region : option Region
}.

Definition initial : state :=
  {| location := None; errorMsg := None; loading := true; region := None |}.

Record world : Type := mkWorld {
  st : state;
  boot : startup;
  asks : list (option Region);    (* pending getForegroundPermissionsAsync, each with
                                     the [region] its invocation closes over *)
  watches : list (option Region); (* live position subscriptions, each with the
                                     [region] its callback closes over *)
  log : list ext                  (* platform calls, oldest first *)
}.

(** After the first render: the effect has run. *)
Definition init : world :=
  {| st := initial; boot := AskingPermission; asks := []; watches := [];
     log := [requestForegroundPermissionsAsync] |}.

Definition set_st (f : state -> state) (w : world) : world :=
  {| st := f (st w); boot := boot w; asks := asks w; watches := watches w;
     log := log w |}.

Definition call (c : ext) (w : world) : world :=
  {| st := st w; boot := boot w; asks := asks w; watches := watches w;
     log := log w ++ [c] |}.

Definition setLocation (l : LocationObject) : world -> world :=
  set_st (fun s => {| location := Some l; errorMsg := errorMsg s;
                      loading := loading s; region := region s |}).

Definition setErrorMsg (m : string) : world -> world :=
  set_st (fun s => {| location := location s; errorMsg := Some m;
                      loading := loading s; region := region s |}).

Definition setLoading (b : bool) : world -> world :=
  set_st (fun s => {| location := location s; errorMsg := errorMsg s;
                      loading := b; region := region s |}).

Definition setRegion (r : Region) : world -> world :=
  set_st (fun s => {| location := location s; errorMsg := errorMsg s;
                      loading := loading s; region := Some r |}).

(** *** Rendering *)

Inductive view : Type :=
| LoadingView                        (* 'Obteniendo tu ubicación...' *)
| ErrorView (msg : string)
| MainView (map : option mapSection).
    (* [None] is the text 'No se pudo obtener la ubicación' *)

Section Render.

Variable NumberToString : float64 -> string.

Definition fixed (x : float64) (f : nat) : string :=
  toFixed NumberToString x f.

Definition fixed_opt (x : option float64) (f : nat) : string :=
  match x with
  | Some v => fixed v f
  | None => ""
  end.

Definition render_map (s : state) (l : LocationObject) : mapSection :=
  let c := coords l in
  {| Screen.initialRegion := region s;
     Screen.markers :=
       [ {| Screen.coordinate := (latitude c, longitude c);
            Screen.title := "Mi ubicación";
            Screen.description := "Lat: " ++ fixed (latitude c) 6 ++
                                  ", Lng: " ++ fixed (longitude c) 6 |} ];
     Screen.buttons := ["Centrar mapa"; "Seguimiento en tiempo real"];
     Screen.infoBox :=
       [ "Latitud: " ++ fixed (latitude c) 6;
         "Longitud: " ++ fixed (longitude c) 6;
         "Precisión: ±" ++ fixed_opt (accuracy c) 0 ++ " metros" ] |}.

Definition render (s : state) : view :=
  if loading s then LoadingView
  else
    match errorMsg s with
    | Some m =>
        if nonempty m then ErrorView m
        else MainView (option_map (render_map s) (location s))
    | None => MainView (option_map (render_map s) (location s))
    end.

End Render.

Definition map_shown (s : state) : bool :=
  match render (fun _ => "") s with
  | MainView (Some _) => true
  | _ => false
  end.

(** *** Handlers *)

(** The start-up effect, after [await requestForegroundPermissionsAsync()]. *)
Definition startup_afterPermission (granted : bool) (w : world) : world * startup :=
  if negb granted
  then (setLoading false
          (setErrorMsg "Se requiere permiso para acceder a la ubicación" w),
        Started)
  else (call getCurrentPositionAsync w, FetchingPosition).

(** The start-up effect, after [await getCurrentPositionAsync(...)]. *)
Definition startup_afterPosition (r : outcome LocationObject) (w : world) : world :=
  let w :=
    match r with
    | Ok l =>
        setRegion {| r_latitude := latitude (coords l);
                     r_longitude := longitude (coords l);
                     latitudeDelta := delta_0_01;
                     longitudeDelta := delta_0_01 |}
          (setLocation l w)
    | Thrown e =>
        call (Alert "Error" "No se pudo obtener la ubicación actual")
          (setErrorMsg ("Error al obtener la ubicación: " ++ errorMessage e) w)
    end in
  (* finally *) setLoading false w.

Definition centerMapOnLocation (w : world) : world :=
  match location (st w) with
  | Some l =>
      if map_shown (st w)
      then call (animateToRegion
                   {| r_latitude := latitude (coords l);
                      r_longitude := longitude (coords l);
                      latitudeDelta := delta_0_01;
                      longitudeDelta := delta_0_01 |} 1000) w
      else w
  | None => w
  end.

(** [startLocationTracking], up to its [await]. *)
Definition startLocationTracking_enter (w : world) : world :=
  let w := call getForegroundPermissionsAsync w in
  {| st := st w; boot := boot w; asks := asks w ++ [region (st w)];
     watches := watches w; log := log w |}.

(** [startLocationTracking], after [await getForegroundPermissionsAsync()].
    The promise of [watchPositionAsync] is neither awaited nor kept. *)
Definition startLocationTracking_after
    (closed : option Region) (r : outcome bool) (w : world) : world :=
  match r with
  | Ok granted =>
      if negb granted
      then call (Alert "Permiso denegado"
                       "No se puede seguir la ubicación sin permiso") w
      else
        let w := call watchPositionAsync w in
        let w := {| st := st w; boot := boot w; asks := asks w;
                    watches := watches w ++ [closed]; log := log w |} in
        call (Alert "Seguimiento activado"
                    "Ahora se está siguiendo tu ubicación en tiempo real") w
  | Thrown e =>
      call (Alert "Error"
                  ("No se pudo iniciar el seguimiento: " ++ errorMessage e)) w
  end.

(** The callback given to [watchPositionAsync]. *)
Definition onPosition (closed : option Region) (l : LocationObject) (w : world) : world :=
  let shown := map_shown (st w) in
  let w := setLocation l w in
  if shown
  then setRegion
         {| r_latitude := latitude (coords l);
            r_longitude := longitude (coords l);
            latitudeDelta := match closed with
                             | Some r => latitudeDelta r
                             | None => delta_0_01
                             end;
            longitudeDelta := match closed with
                              | Some r => longitudeDelta r
                              | None => delta_0_01
                              end |} w
  else w.

Inductive event : Type :=
| PermissionSettled (r : outcome bool)   (* status === 'granted' *)
| PositionSettled (r : outcome LocationObject)
| PressCenter
| PressTrack
| TrackPermissionSettled (i : nat) (r : outcome bool)
| WatchUpdate (i : nat) (l : LocationObject).

Definition set_boot (b : startup) (w : world) : world :=
  {| st := st w; boot := b; asks := asks w; watches := watches w;
     log := log w |}.

Definition step (w : world) (e : event) : option world :=
  match e with
  | PermissionSettled r =>
      match boot w, r with
      | AskingPermission, Ok granted =>
          let '(w', b) := startup_afterPermission granted w in
          Some (set_boot b w')
      | AskingPermission, Thrown _ =>
          (* not inside [try]: the rejection goes unhandled *)
          Some (set_boot Started w)
      | _, _ => None
      end
  | PositionSettled r =>
      match boot w with
      | FetchingPosition => Some (set_boot Started (startup_afterPosition r w))
      | _ => None
      end
  | PressCenter =>
      if map_shown (st w) then Some (centerMapOnLocation w) else None
  | PressTrack =>
      if map_shown (st w) then Some (startLocationTracking_enter w) else None
  | TrackPermissionSettled i r =>
      match asks w !! i with
      | Some closed =>
          let w := {| st := st w; boot := boot w; asks := delete i (asks w);
                      watches := watches w; log := log w |} in
          Some (startLocationTracking_after closed r w)
      | None => None
      end
  | WatchUpdate i l =>
      match watches w !! i with
      | Some closed => Some (onPosition closed l w)
      | None => None
      end
  end.

Fixpoint run (w : world) (es : list event) : option world :=
  match es with
  | [] => Some w
  | e :: es' =>
      match step w e with
      | Some w' => run w' es'
      | None => None
      end
  end.

(** *** The screen of [src/app/index.tsx], connectivity left out *)

(** The platform calls of the connectivity handling of [LocationApp]. *)
Definition of_connectivity (c : ext) : bool :=
  match c with
  | Screen.NetInfo_fetch => true
  | Alert t _ =>
      String.eqb t "Sin conexión a Internet"
      || String.eqb t "Conexión restablecida"
      || String.eqb t "Conexión perdida"
  | _ => false
  end.

Definition forget_state (s : Screen.state) : state :=
  {| location := Screen.location s; errorMsg := Screen.errorMsg s;
     loading := Screen.loading s; region := Screen.region s |}.

Definition forget (w : Screen.world) : world :=
  {| st := forget_state (Screen.st w); boot := Screen.boot w;
     asks := Screen.asks w; watches := Screen.watches w;
     log := List.filter (fun c => negb (of_connectivity c)) (Screen.log w) |}.

Definition erase (e : Screen.event) : option event :=
  match e with
  | Screen.PermissionSettled r => Some (PermissionSettled r)
  | Screen.PositionSettled r => Some (PositionSettled r)
  | Screen.NetFetchSettled _ | Screen.NetInfoChange _ | Screen.Render => None
  | Screen.PressCenter => Some PressCenter
  | Screen.PressTrack => Some PressTrack
  | Screen.TrackPermissionSettled i r => Some (TrackPermissionSettled i r)
  | Screen.WatchUpdate i l => Some (WatchUpdate i l)
  end.

Definition embed (e : event) : Screen.event :=
  match e with
  | PermissionSettled r => Screen.PermissionSettled r
  | PositionSettled r => Screen.PositionSettled r
  | PressCenter => Screen.PressCenter
  | PressTrack => Screen.PressTrack
  | TrackPermissionSettled i r => Screen.TrackPermissionSettled i r
  | WatchUpdate i l => Screen.WatchUpdate i l
  end.

(** The info box of [LocationApp] ends with the line 'Internet: ...'. *)
Definition without_internet_line (m : mapSection) : mapSection :=
  {| Screen.initialRegion := Screen.initialRegion m;
     Screen.markers := Screen.markers m;
     Screen.buttons := Screen.buttons m;
     Screen.infoBox := removelast (Screen.infoBox m) |}.

Definition forget_view (v : Screen.view) : view :=
  match v with
  | Screen.LoadingView => LoadingView
  | Screen.ErrorView m => ErrorView m
  | Screen.MainView o => MainView (option_map without_internet_line o)
  end.

(** A run of [LocationApp] that starts off line and starts tracking twice. *)
Definition offline_two_starts : list Screen.event :=
  Screen.NetFetchSettled (Some false) :: Screen.two_starts.

Definition after_offline_two_starts : Screen.world :=
  Eval vm_compute in
    default Screen.init (Screen.run Screen.init offline_two_starts).

End TabScreen.

(** * Statements and proofs *)

Lemma Some_eq {A} (a b : A) : Some a = Some b -> a = b.
Proof. congruence. Qed.

(** ** Printing numbers *)

Module JSNumberFacts.

Import JSNumber.

Local Open Scope string_scope.
Local Open Scope Z_scope.

(** For a double with a fractional part, [scaled_nearest x f] is the
    integer [n] nearest to [|x| * 10 ^ f], the larger one in a tie: with
    [d = 2 ^ (- expn x)] and [p = |mant x| * 10 ^ f],
    [n - 1/2 <= p / d < n + 1/2]. *)
Lemma scaled_nearest_spec (x : float64) (f : nat) :
  expn x < 0 ->
  let d := 2 ^ (- expn x) in
  let p := Z.abs (mant x) * 10 ^ Z.of_nat f in
  let n := scaled_nearest x f in
  2 * d * n - d <= 2 * p < 2 * d * n + d.
Proof.
  intros He d p n. subst n. unfold scaled_nearest.
  replace (0 <=? expn x) with false by (symmetry; apply Z.leb_gt; lia).
  fold p. fold d.
  assert (0 < d) as Hd by (apply Z.pow_pos_nonneg; lia).
  pose proof (Z.mul_div_le (2 * p + d) (2 * d) ltac:(lia)) as Hlo.
  pose proof (Z.mul_succ_div_gt (2 * p + d) (2 * d) ltac:(lia)) as Hhi.
  lia.
Qed.

(** An integer-valued double prints its digits, scaled exactly. *)
Lemma scaled_nearest_integer (x : float64) (f : nat) :
  0 <= expn x ->
  scaled_nearest x f = Z.abs (mant x) * 10 ^ Z.of_nat f * 2 ^ expn x.
Proof.
  intros He. unfold scaled_nearest.
  now replace (0 <=? expn x) with true by (symmetry; apply Z.leb_le; lia).
Qed.

(** [(1.005).toFixed(2)] is "1.00": the double below 1.005 is printed. *)
Example toFixed_1_005 :
  forall ts, toFixed ts (of_decimal 1005 3) 2 = "1.00".
Proof. intros ts. vm_compute. reflexivity. Qed.

(** [(2.5).toFixed(0)] is "3": a tie goes to the larger integer. *)
Example toFixed_tie :
  forall ts, toFixed ts (of_decimal 25 1) 0 = "3".
Proof. intros ts. vm_compute. reflexivity. Qed.

(** [(-0.000000001).toFixed(2)] is "-0.00": the sign is that of the
    number, not of the rounded digits. *)
Example toFixed_small_negative :
  forall ts, toFixed ts (of_decimal (-1) 9) 2 = "-0.00".
Proof. intros ts. vm_compute. reflexivity. Qed.

(** From [10 ^ 21] on the result is that of [Number::toString]. *)
Example toFixed_huge :
  forall ts, toFixed ts (of_Z (10 ^ 21)) 2 = ts (of_Z (10 ^ 21)).
Proof. intros ts. vm_compute. reflexivity. Qed.

End JSNumberFacts.

(** ** The connectivity monitor *)

Module MonitorFacts.

Import Monitor.

Lemma exec_life k c w : life (exec k c w) = life w.
Proof. destruct c; reflexivity. Qed.

Lemma exec_now k c w : now (exec k c w) = now w.
Proof. destruct c; reflexivity. Qed.

Lemma execs_life k cs w : life (execs k cs w) = life w.
Proof.
  unfold execs. revert w.
  induction cs as [|c cs IH]; intros w; simpl; [reflexivity|].
  rewrite IH. apply exec_life.
Qed.

Lemma execs_now k cs w : now (execs k cs w) = now w.
Proof.
  unfold execs. revert w.
  induction cs as [|c cs IH]; intros w; simpl; [reflexivity|].
  rewrite IH. apply exec_now.
Qed.

Lemma ui_afterProbe k r w :
  life w = Mounted ->
  ui (execs k (checkConnection_afterProbe r) w)
  = {| isConnected := Some (probe_result r); isChecking := false;
       lastChecked := Some (now w) |}.
Proof.
  intros Hl. destruct r; cbn; rewrite Hl; reflexivity.
Qed.

Lemma ui_set_phase k p w : ui (set_phase k p w) = ui w.
Proof. reflexivity. Qed.

Lemma ui_set_timer k d w : ui (set_timer k d w) = ui w.
Proof. reflexivity. Qed.

Lemma phase_of_set_timer k d w j :
  phase_of (set_timer k d w) j = phase_of w j.
Proof.
  unfold phase_of, set_timer, set_calls; simpl.
  rewrite list_lookup_alter.
  destruct (decide (k = j)) as [->|]; [|reflexivity].
  destruct (calls w !! j); reflexivity.
Qed.

Lemma phase_of_set_phase_ne k p w j :
  k <> j -> phase_of (set_phase k p w) j = phase_of w j.
Proof.
  intros Hne. unfold phase_of, set_phase, set_calls; simpl.
  now rewrite list_lookup_alter_ne.
Qed.

Lemma phase_of_set_phase_eq k p w :
  is_Some (calls w !! k) -> phase_of (set_phase k p w) k = Some p.
Proof.
  intros [c Hc]. unfold phase_of, set_phase, set_calls; simpl.
  rewrite list_lookup_alter_eq, Hc. reflexivity.
Qed.

Lemma phase_of_exec k c w j :
  is_Some (calls w !! j) -> phase_of (exec k c w) j = phase_of w j.
Proof.
  intros Hj. destruct c; try reflexivity.
  - apply phase_of_set_timer.
  - apply phase_of_set_timer.
  - unfold phase_of; simpl. rewrite lookup_app_l; [reflexivity|].
    now apply lookup_lt_is_Some.
Qed.

Lemma calls_exec_is_Some k c w j :
  is_Some (calls w !! j) -> is_Some (calls (exec k c w) !! j).
Proof.
  intros Hj. destruct c; simpl; try assumption.
  - unfold set_timer, set_calls; simpl. apply lookup_lt_is_Some.
    rewrite length_alter. now apply lookup_lt_is_Some.
  - unfold set_timer, set_calls; simpl. apply lookup_lt_is_Some.
    rewrite length_alter. now apply lookup_lt_is_Some.
  - apply lookup_lt_is_Some. rewrite length_app. simpl.
    apply lookup_lt_is_Some in Hj. lia.
Qed.

Lemma phase_of_execs k cs w j :
  is_Some (calls w !! j) ->
  phase_of (execs k cs w) j = phase_of w j
  /\ is_Some (calls (execs k cs w) !! j).
Proof.
  unfold execs. revert w.
  induction cs as [|c cs IH]; intros w Hj; simpl; [now split|].
  destruct (IH (exec k c w)) as [-> ?]; [now apply calls_exec_is_Some|].
  split; [now apply phase_of_exec|assumption].
Qed.

Lemma probes_execs k cs w :
  probes (execs k cs w) = (issued k cs ++ probes w)%list.
Proof.
  unfold execs. revert w.
  induction cs as [|c cs IH]; intros w; simpl; [reflexivity|].
  rewrite IH. destruct c; simpl; try reflexivity.
  now rewrite <- app_assoc.
Qed.

Lemma probes_start_check w : probes (start_check w) = probes w.
Proof. unfold start_check. now rewrite probes_execs. Qed.

Lemma phase_of_start_check w j :
  is_Some (calls w !! j) -> phase_of (start_check w) j = phase_of w j.
Proof. intros Hj. unfold start_check. now apply phase_of_execs. Qed.

Lemma phase_of_is_Some w k p : phase_of w k = Some p -> is_Some (calls w !! k).
Proof.
  unfold phase_of. destruct (calls w !! k); [eauto|discriminate].
Qed.

Lemma lookup_phase w k c : calls w !! k = Some c -> phase_of w k = Some (at_ c).
Proof. unfold phase_of. now intros ->. Qed.

Ltac monitor_step_inv H :=
  unfold step in H;
  repeat match type of H with
         | context [match ?x with _ => _ end] =>
             let E := fresh "E" in destruct x eqn:E; try discriminate H
         | (let '(_, _) := ?x in _) = _ =>
             let E := fresh "E" in destruct x eqn:E
         end;
  try (apply Some_eq in H); subst.

Lemma finished_without_probe_step w e w' k :
  finished_without_probe w k -> step w e = Some w' ->
  finished_without_probe w' k.
Proof.
  intros [Hp Hn] Hs.
  pose proof (phase_of_is_Some _ _ _ Hp) as Hk.
  destruct e; monitor_step_inv Hs; unfold finished_without_probe.
  - (* Mount *)
    split.
    + change (phase_of (start_check (mkWorld (ui w) (calls w) (now w) (interval w) (subscribed w) Mounted (probes w))) k = Some Done).
      rewrite phase_of_start_check; assumption.
    + cbn [probes]. now rewrite probes_start_check.
  - (* Unmount *) split; assumption.
  - (* Advance *) split; assumption.
  - (* IntervalFire *)
    split.
    + change (phase_of (start_check w) k = Some Done).
      now rewrite phase_of_start_check.
    + cbn [probes]. now rewrite probes_start_check.
  - (* Press *)
    split; [now rewrite phase_of_start_check|now rewrite probes_start_check].
  - (* NetInfoChange, interface down *)
    destruct (phase_of_execs 0 l w k Hk) as [-> _].
    split; [assumption|]. rewrite probes_execs.
    unfold onNetInfoChange in E0. destruct (negb (truthy st)); [|discriminate].
    injection E0 as <-. exact Hn.
  - (* NetInfoChange, interface up *)
    split; [now rewrite phase_of_start_check|now rewrite probes_start_check].
  - (* FetchSettled *)
    assert (k0 <> k) as Hne.
    { intros ->. rewrite (lookup_phase _ _ _ E) in Hp. discriminate. }
    rewrite phase_of_set_phase_ne by assumption.
    destruct (phase_of_execs k0 l w k Hk) as [-> _].
    split; [assumption|]. cbn [set_phase set_calls probes].
    rewrite probes_execs.
    unfold checkConnection_afterNetInfo in E2.
    destruct r as [v|]; [destruct (negb (truthy v))|];
      injection E2 as <- <-; simpl; try assumption.
    rewrite elem_of_cons. intros [?|?]; [congruence|contradiction].
  - (* ProbeSettled *)
    assert (k0 <> k) as Hne.
    { intros ->. rewrite (lookup_phase _ _ _ E) in Hp. discriminate. }
    rewrite phase_of_set_phase_ne by assumption.
    destruct (phase_of_execs k0 (checkConnection_afterProbe r) w k Hk) as [-> _].
    split; [assumption|]. cbn [set_phase set_calls probes].
    rewrite probes_execs. destruct r; exact Hn.
  - (* TimeoutFire, fetch awaited: impossible phase, timer only *)
    rewrite phase_of_set_timer. split; assumption.
  - (* TimeoutFire, probe pending *)
    assert (k0 <> k) as Hne.
    { intros ->. rewrite (lookup_phase _ _ _ E) in Hp. discriminate. }
    rewrite phase_of_set_phase_ne by assumption.
    destruct (phase_of_execs k0 (checkConnection_afterProbe Rejected)
                (set_timer k0 None w) k) as [-> _].
    { apply phase_of_is_Some with Done. now rewrite phase_of_set_timer. }
    rewrite phase_of_set_timer.
    split; [assumption|]. cbn [set_phase set_calls probes].
    rewrite probes_execs. exact Hn.
  - (* TimeoutFire, already returned *)
    rewrite phase_of_set_timer. split; assumption.
Qed.

Lemma probes_sound_keep w w' :
  probes w' = probes w ->
  (forall k, is_Some (calls w !! k) -> phase_of w' k = phase_of w k) ->
  probes_sound w -> probes_sound w'.
Proof.
  intros Hpr Hph Hs k Hk. rewrite Hpr in Hk.
  destruct (Hs k Hk) as (p & Hp & Hne).
  exists p. split; [|assumption].
  rewrite Hph; [assumption|]. eapply phase_of_is_Some; eassumption.
Qed.

Lemma probes_sound_step w e w' :
  probes_sound w -> step w e = Some w' -> probes_sound w'.
Proof.
  intros Hs Hst.
  destruct e; monitor_step_inv Hst.
  - apply (probes_sound_keep w); [| |exact Hs].
    + cbn [probes]. now rewrite probes_start_check.
    + intros k Hk.
      change (phase_of (start_check (mkWorld (ui w) (calls w) (now w)
                (interval w) (subscribed w) Mounted (probes w))) k = phase_of w k).
      now rewrite phase_of_start_check.
  - exact Hs.
  - exact Hs.
  - apply (probes_sound_keep w); [| |exact Hs].
    + cbn [probes]. now rewrite probes_start_check.
    + intros k Hk. change (phase_of (start_check w) k = phase_of w k).
      now rewrite phase_of_start_check.
  - apply (probes_sound_keep w); [| |exact Hs].
    + now rewrite probes_start_check.
    + intros k Hk. now rewrite phase_of_start_check.
  - apply (probes_sound_keep w); [| |exact Hs].
    + rewrite probes_execs.
      unfold onNetInfoChange in E0. destruct (negb (truthy st)); [|discriminate].
      apply Some_eq in E0. now subst l.
    + intros k Hk. now destruct (phase_of_execs 0 l w k Hk) as [-> _].
  - apply (probes_sound_keep w); [| |exact Hs].
    + now rewrite probes_start_check.
    + intros k Hk. now rewrite phase_of_start_check.
  - (* FetchSettled *)
    pose proof (lookup_phase _ _ _ E) as Hk0. cbn [at_] in Hk0.
    assert (is_Some (calls w !! k)) as Hsome by (rewrite E; eauto).
    destruct (phase_of_execs k l w k Hsome) as [_ Hsome'].
    intros j Hj. cbn [set_phase set_calls probes] in Hj.
    rewrite probes_execs in Hj.
    destruct (decide (k = j)) as [<-|Hne].
    + exists p. split; [now apply phase_of_set_phase_eq|].
      unfold checkConnection_afterNetInfo in E2.
      destruct r as [v|]; [destruct (negb (truthy v))|];
        apply (f_equal snd) in E2; cbn [snd] in E2; subst p; discriminate.
    + assert (j ∈ probes w) as Hjw.
      { unfold checkConnection_afterNetInfo in E2.
        destruct r as [v|]; [destruct (negb (truthy v))|];
          apply (f_equal fst) in E2; cbn [fst] in E2; subst l;
          simpl in Hj; try assumption.
        apply elem_of_cons in Hj as [?|?]; [congruence|assumption]. }
      destruct (Hs j Hjw) as (q & Hq & Hqne).
      exists q. split; [|assumption].
      rewrite phase_of_set_phase_ne by assumption.
      destruct (phase_of_execs k l w j) as [-> _]; [|assumption].
      eapply phase_of_is_Some; eassumption.
  - (* ProbeSettled *)
    assert (is_Some (calls w !! k)) as Hsome by (rewrite E; eauto).
    destruct (phase_of_execs k (checkConnection_afterProbe r) w k Hsome)
      as [_ Hsome'].
    intros j Hj. cbn [set_phase set_calls probes] in Hj.
    rewrite probes_execs in Hj.
    destruct (decide (k = j)) as [<-|Hne].
    + exists Done. split; [now apply phase_of_set_phase_eq|discriminate].
    + assert (j ∈ probes w) as Hjw by (destruct r; exact Hj).
      destruct (Hs j Hjw) as (q & Hq & Hqne).
      exists q. split; [|assumption].
      rewrite phase_of_set_phase_ne by assumption.
      destruct (phase_of_execs k (checkConnection_afterProbe r) w j) as [-> _];
        [|assumption].
      eapply phase_of_is_Some; eassumption.
  - apply (probes_sound_keep w); [reflexivity| |exact Hs].
    intros j Hj. apply phase_of_set_timer.
  - (* TimeoutFire while the probe is pending *)
    assert (is_Some (calls (set_timer k None w) !! k)) as Hsome.
    { eapply phase_of_is_Some. rewrite phase_of_set_timer.
      exact (lookup_phase _ _ _ E). }
    intros j Hj. cbn [set_phase set_calls probes] in Hj.
    rewrite probes_execs in Hj. simpl in Hj.
    destruct (decide (k = j)) as [<-|Hne].
    + exists Done. split; [|discriminate].
      apply phase_of_set_phase_eq.
      now destruct (phase_of_execs k (checkConnection_afterProbe Rejected)
                      (set_timer k None w) k Hsome).
    + destruct (Hs j Hj) as (q & Hq & Hqne).
      exists q. split; [|assumption].
      rewrite phase_of_set_phase_ne by assumption.
      destruct (phase_of_execs k (checkConnection_afterProbe Rejected)
                  (set_timer k None w) j) as [-> _].
      * eapply phase_of_is_Some. rewrite phase_of_set_timer. eassumption.
      * now rewrite phase_of_set_timer.
  - apply (probes_sound_keep w); [reflexivity| |exact Hs].
    intros j Hj. apply phase_of_set_timer.
Qed.

Lemma monitor_run_invariant (P : world -> Prop) :
  (forall w e w', P w -> step w e = Some w' -> P w') ->
  forall es w w', P w -> run w es = Some w' -> P w'.
Proof.
  intros Hstep. induction es as [|e es IH]; intros w w' HP Hrun; simpl in Hrun.
  - apply Some_eq in Hrun. now subst.
  - destruct (step w e) as [w1|] eqn:E; [|discriminate].
    eapply IH; [|eassumption]. eapply Hstep; eassumption.
Qed.

Lemma reachable_probes_sound w : reachable w -> probes_sound w.
Proof.
  intros (t & es & Hrun).
  eapply (monitor_run_invariant probes_sound); [exact probes_sound_step| |exact Hrun].
  intros k Hk. inversion Hk.
Qed.

Lemma ui_afterNetInfo_down k st w :
  life w = Mounted -> truthy st = false ->
  ui (execs k (fst (checkConnection_afterNetInfo (Resolved st))) w)
  = {| isConnected := Some false; isChecking := false;
       lastChecked := Some (now w) |}.
Proof.
  intros Hl Ht. unfold checkConnection_afterNetInfo. rewrite Ht.
  cbn. rewrite Hl. reflexivity.
Qed.

(** C3.  When [NetInfo.fetch()] reports no active interface ([false] or
    [null]) to a check of a mounted monitor, the check returns at once:
    the status becomes Disconnected, and neither this continuation nor
    anything that happens later issues the HEAD request for that check. *)
Theorem inactive_interface_skips_probe
    (w : world) (k : nat) (c : call) (st : netinfo) :
  reachable w -> life w = Mounted ->
  calls w !! k = Some c -> at_ c = AwaitFetch ->
  truthy st = false ->
  exists w',
    step w (FetchSettled k (Resolved st)) = Some w'
    /\ isConnected (ui w') = Some false
    /\ probes w' = probes w
    /\ forall es w'', run w' es = Some w'' -> k ∉ probes w''.
Proof.
  intros Hreach Hl Hc Hat Ht.
  destruct c as [p tm]; cbn [at_] in Hat; subst p.
  assert (k ∉ probes w) as Hnot.
  { intros Hin. destruct (reachable_probes_sound w Hreach k Hin) as (p & Hp & Hne).
    rewrite (lookup_phase _ _ _ Hc) in Hp. cbn [at_] in Hp. congruence. }
  assert (checkConnection_afterNetInfo (Resolved st)
          = (fst (checkConnection_afterNetInfo (Resolved st)), Done)) as Hseg.
  { unfold checkConnection_afterNetInfo. now rewrite Ht. }
  assert (issued k (fst (checkConnection_afterNetInfo (Resolved st))) = [])
    as Hiss.
  { unfold checkConnection_afterNetInfo. now rewrite Ht. }
  eexists. split.
  { unfold step. rewrite Hc, Hseg. reflexivity. }
  assert (is_Some (calls w !! k)) as Hsome by (rewrite Hc; eauto).
  split; [|split].
  - rewrite ui_set_phase, ui_afterNetInfo_down by assumption. reflexivity.
  - cbn [set_phase set_calls probes]. now rewrite probes_execs, Hiss.
  - intros es w'' Hrun.
    eapply (monitor_run_invariant (fun w => finished_without_probe w k)) in Hrun.
    + exact (proj2 Hrun).
    + intros; eapply finished_without_probe_step; eassumption.
    + split.
      * apply phase_of_set_phase_eq. now apply phase_of_execs.
      * cbn [set_phase set_calls probes]. now rewrite probes_execs, Hiss.
Qed.

Lemma inactive_interface_skips_probe_witness :
  exists w',
    step after_mount (FetchSettled 0 (Resolved (Some false))) = Some w'
    /\ isConnected (ui w') = Some false
    /\ probes w' = probes after_mount
    /\ forall es w'', run w' es = Some w'' -> 0%nat ∉ probes w''.
Proof.
  apply (inactive_interface_skips_probe after_mount 0
           {| at_ := AwaitFetch; timer := None |} (Some false)).
  - exists 0, [Mount]. reflexivity.
  - reflexivity.
  - reflexivity.
  - reflexivity.
  - reflexivity.
Defined.

(** C4.  When the abort timer of a pending probe fires, the check ends as
    it does for every other failed probe (a rejected request, or a response
    that is not [ok]): Disconnected, not checking, stamped with the current
    time.  The component state has no other value to offer: the status is a
    [boolean | null]. *)
Theorem probe_timeout_is_failure (w : world) (k : nat) (d : Z) :
  life w = Mounted ->
  calls w !! k = Some {| at_ := AwaitProbe; timer := Some d |} ->
  d <= now w ->
  exists w',
    step w (TimeoutFire k) = Some w'
    /\ ui w' = {| isConnected := Some false; isChecking := false;
                  lastChecked := Some (now w) |}
    /\ phase_of w' k = Some Done
    /\ forall r, probe_result r = false ->
         exists w'', step w (ProbeSettled k r) = Some w''
                     /\ ui w'' = ui w'
                     /\ phase_of w'' k = Some Done.
Proof.
  intros Hl Hc Hd.
  assert (is_Some (calls w !! k)) as Hsome by (rewrite Hc; eauto).
  assert (is_Some (calls (set_timer k None w) !! k)) as Hsome'.
  { eapply phase_of_is_Some. rewrite phase_of_set_timer.
    exact (lookup_phase _ _ _ Hc). }
  eexists. split.
  { unfold step. rewrite Hc.
    apply Z.leb_le in Hd. rewrite Hd. reflexivity. }
  split; [|split].
  - rewrite ui_set_phase, ui_afterProbe by exact Hl. reflexivity.
  - apply phase_of_set_phase_eq. now apply phase_of_execs.
  - intros r Hr. eexists. split.
    { unfold step. rewrite Hc. reflexivity. }
    split.
    + rewrite !ui_set_phase, !ui_afterProbe by exact Hl.
      now rewrite Hr.
    + apply phase_of_set_phase_eq. now apply phase_of_execs.
Qed.

Lemma probe_timeout_is_failure_witness :
  exists w',
    step probe_overdue (TimeoutFire 0) = Some w'
    /\ ui w' = {| isConnected := Some false; isChecking := false;
                  lastChecked := Some 5000 |}
    /\ phase_of w' 0 = Some Done
    /\ forall r, probe_result r = false ->
         exists w'', step probe_overdue (ProbeSettled 0 r) = Some w''
                     /\ ui w'' = ui w'
                     /\ phase_of w'' 0 = Some Done.
Proof.
  apply (probe_timeout_is_failure probe_overdue 0 5000).
  - reflexivity.
  - reflexivity.
  - simpl. lia.
Defined.

(** The abort timer is set 5000 ms after the moment the probe is issued,
    and cannot fire earlier. *)
Lemma abort_timer_deadline (w : world) (k : nat) (c : call) :
  calls w !! k = Some c -> at_ c = AwaitFetch ->
  exists w',
    step w (FetchSettled k (Resolved (Some true))) = Some w'
    /\ calls w' !! k = Some {| at_ := AwaitProbe; timer := Some (now w + 5000) |}
    /\ now w' = now w
    /\ forall dt, 0 <= dt < 5000 -> run w' [Advance dt; TimeoutFire k] = None.
Proof.
  intros Hc Hat. destruct c as [p tm]; cbn [at_] in Hat; subst p.
  eexists. split.
  { unfold step. rewrite Hc. reflexivity. }
  assert (calls (set_phase k AwaitProbe
            (execs k [setTimeoutAbort 5000; fetchHEAD] w)) !! k
          = Some {| at_ := AwaitProbe; timer := Some (now w + 5000) |}) as Hk.
  { cbn. rewrite !list_lookup_alter_eq, Hc. reflexivity. }
  split; [exact Hk|]. split; [reflexivity|].
  intros dt Hdt. cbn [run].
  unfold step at 1. destruct (0 <=? dt) eqn:E; [|reflexivity].
  unfold step. cbn [calls now]. cbn [fst] in Hk. rewrite Hk.
  replace (now w + 5000 <=? _) with false; [reflexivity|].
  symmetry. apply Z.leb_gt. cbn. lia.
Qed.

Lemma ui_start_check w :
  isConnected (ui (start_check w)) = isConnected (ui w)
  /\ lastChecked (ui (start_check w)) = lastChecked (ui w).
Proof.
  unfold start_check. cbn. destruct (life w); split; reflexivity.
Qed.

Lemma not_completes_keep w w' :
  (forall k, is_Some (calls w !! k) -> phase_of w' k = phase_of w k) ->
  ~ completes w w'.
Proof.
  intros Hk (k & p & Hp & Hne & Hd).
  rewrite Hk in Hd by (eapply phase_of_is_Some; eassumption).
  congruence.
Qed.

Lemma wrote_both_afterProbe k r w :
  life w = Mounted ->
  exists b, isConnected (ui (set_phase k Done
                               (execs k (checkConnection_afterProbe r) w)))
            = Some b
            /\ lastChecked (ui (set_phase k Done
                                  (execs k (checkConnection_afterProbe r) w)))
               = Some (now w).
Proof.
  intros Hl. rewrite ui_set_phase, ui_afterProbe by exact Hl.
  eexists. split; reflexivity.
Qed.

Lemma paired_afterProbe k r w :
  paired w (set_phase k Done (execs k (checkConnection_afterProbe r) w)).
Proof.
  destruct (life w) eqn:Hl.
  - left. destruct r; cbn; rewrite Hl; split; reflexivity.
  - right. now apply wrote_both_afterProbe.
  - left. destruct r; cbn; rewrite Hl; split; reflexivity.
Qed.

Lemma segment_writes_both_or_none
    (w : world) (e : event) (w' : world) :
  step w e = Some w' ->
  paired w w'
  /\ (life w = Mounted -> completes w w' ->
      exists b, isConnected (ui w') = Some b
                /\ lastChecked (ui w') = Some (now w)).
Proof.
  intros Hst. destruct e; monitor_step_inv Hst.
  - (* Mount *)
    split.
    + left. apply (ui_start_check (mkWorld (ui w) (calls w) (now w)
                     (interval w) (subscribed w) Mounted (probes w))).
    + intros Hl. congruence.
  - (* Unmount *)
    split; [left; split; reflexivity|].
    intros _ Hc. exfalso. revert Hc. now apply not_completes_keep.
  - (* Advance *)
    split; [left; split; reflexivity|].
    intros _ Hc. exfalso. revert Hc. now apply not_completes_keep.
  - (* IntervalFire *)
    split; [left; apply ui_start_check|].
    intros _ Hc. exfalso. revert Hc. apply not_completes_keep.
    intros k Hk. change (phase_of (start_check w) k = phase_of w k).
    now apply phase_of_start_check.
  - (* Press *)
    split; [left; apply ui_start_check|].
    intros _ Hc. exfalso. revert Hc. apply not_completes_keep.
    intros k Hk. now apply phase_of_start_check.
  - (* NetInfoChange, interface down *)
    unfold onNetInfoChange in E0. destruct (negb (truthy st)); [|discriminate].
    apply Some_eq in E0. subst l.
    split.
    + destruct (life w) eqn:Hl.
      * left. cbn. rewrite Hl. split; reflexivity.
      * right. exists false. cbn. rewrite Hl. split; reflexivity.
      * left. cbn. rewrite Hl. split; reflexivity.
    + intros Hl _. exists false. cbn. rewrite Hl. split; reflexivity.
  - (* NetInfoChange, interface up *)
    split; [left; apply ui_start_check|].
    intros _ Hc. exfalso. revert Hc. apply not_completes_keep.
    intros k Hk. now apply phase_of_start_check.
  - (* FetchSettled *)
    unfold checkConnection_afterNetInfo in E2.
    destruct r as [v|]; [destruct (negb (truthy v))|];
      apply pair_equal_spec in E2 as [<- <-].
    + split.
      * destruct (life w) eqn:Hl.
        -- left. cbn. rewrite Hl. split; reflexivity.
        -- right. exists false. cbn. rewrite Hl. split; reflexivity.
        -- left. cbn. rewrite Hl. split; reflexivity.
      * intros Hl _. exists false. cbn. rewrite Hl. split; reflexivity.
    + split; [left; split; reflexivity|].
      intros _ (j & q & Hq & Hne & Hd).
      destruct (decide (k = j)) as [<-|Hkj].
      * rewrite phase_of_set_phase_eq in Hd; [discriminate|].
        apply phase_of_execs. rewrite E. eauto.
      * rewrite phase_of_set_phase_ne in Hd by assumption.
        destruct (phase_of_execs k [setTimeoutAbort 5000; fetchHEAD] w j)
          as [Hj _]; [eapply phase_of_is_Some; eassumption|].
        rewrite Hj in Hd. congruence.
    + split.
      * destruct (life w) eqn:Hl.
        -- left. cbn. rewrite Hl. split; reflexivity.
        -- right. exists false. cbn. rewrite Hl. split; reflexivity.
        -- left. cbn. rewrite Hl. split; reflexivity.
      * intros Hl _. exists false. cbn. rewrite Hl. split; reflexivity.
  - (* ProbeSettled *)
    split; [apply paired_afterProbe|].
    intros Hl _. now apply wrote_both_afterProbe.
  - (* TimeoutFire, no probe pending *)
    split; [left; split; reflexivity|].
    intros _ Hc. exfalso. revert Hc. apply not_completes_keep.
    intros j Hj. apply phase_of_set_timer.
  - (* TimeoutFire, probe pending *)
    split.
    + apply (paired_afterProbe k Rejected (set_timer k None w)).
    + intros Hl _.
      apply (wrote_both_afterProbe k Rejected (set_timer k None w)). exact Hl.
  - split; [left; split; reflexivity|].
    intros _ Hc. exfalso. revert Hc. apply not_completes_keep.
    intros j Hj. apply phase_of_set_timer.
Qed.

(** C7.  Every segment of the monitor either leaves the status and the time
    stamp as they were or writes both, the stamp being the time of that
    segment; and a segment in which a check of the mounted monitor
    completes writes both.  No state of the component has one of the two
    updated by a check and the other not. *)
Theorem status_and_timestamp_change_together
    (w : world) (e : event) (w' : world) :
  step w e = Some w' ->
  paired w w'
  /\ (life w = Mounted -> completes w w' ->
      exists b, isConnected (ui w') = Some b
                /\ lastChecked (ui w') = Some (now w)).
Proof. exact (segment_writes_both_or_none w e w'). Qed.

Lemma status_and_timestamp_change_together_witness :
  exists b, isConnected (ui (default (boot 0) (step probe_overdue (TimeoutFire 0))))
            = Some b
            /\ lastChecked (ui (default (boot 0) (step probe_overdue (TimeoutFire 0))))
               = Some (now probe_overdue).
Proof.
  refine (proj2 (status_and_timestamp_change_together probe_overdue
                   (TimeoutFire 0) _ eq_refl) eq_refl _).
  exists 0%nat, AwaitProbe. repeat split; discriminate.
Defined.

(** C1, as stated, fails.  After [race] the newer check 1 has set
    Connected and has returned, and the probe of the older check 0 is still
    pending; when that probe then fails, its continuation sets the status
    to Disconnected. *)
Lemma stale_probe_overwrites_newer_check :
  exists w1 w2,
    run (boot 0) race = Some w1
    /\ phase_of w1 0 = Some AwaitProbe
    /\ phase_of w1 1 = Some Done
    /\ isConnected (ui w1) = Some true
    /\ step w1 (ProbeSettled 0 Rejected) = Some w2
    /\ isConnected (ui w2) = Some false.
Proof.
  exists after_race.
  exists (default after_race (step after_race (ProbeSettled 0 Rejected))).
  repeat split; vm_compute; reflexivity.
Qed.

(** C1, amended.  The continuation of a pending probe of a mounted monitor
    always runs and writes that probe's own result and the current time,
    whichever checks started or completed since the probe was issued: the
    check that completes last decides the status. *)
Theorem last_completed_probe_decides
    (w : world) (k : nat) (c : call) (r : settled bool) :
  life w = Mounted ->
  calls w !! k = Some c -> at_ c = AwaitProbe ->
  exists w',
    step w (ProbeSettled k r) = Some w'
    /\ ui w' = {| isConnected := Some (probe_result r); isChecking := false;
                  lastChecked := Some (now w) |}
    /\ phase_of w' k = Some Done.
Proof.
  intros Hl Hc Hat. destruct c as [p tm]; cbn [at_] in Hat; subst p.
  eexists. split.
  { unfold step. rewrite Hc. reflexivity. }
  split.
  - rewrite ui_set_phase. now apply ui_afterProbe.
  - apply phase_of_set_phase_eq. apply phase_of_execs. rewrite Hc. eauto.
Qed.

Lemma last_completed_probe_decides_witness :
  exists w',
    step after_race (ProbeSettled 0 Rejected) = Some w'
    /\ ui w' = {| isConnected := Some false; isChecking := false;
                  lastChecked := Some 0 |}
    /\ phase_of w' 0 = Some Done.
Proof.
  apply (last_completed_probe_decides after_race 0
           {| at_ := AwaitProbe; timer := Some 5000 |} Rejected);
    vm_compute; reflexivity.
Defined.

(** *** The status never returns to Unknown *)



Lemma start_check_life w : life (start_check w) = life w.
Proof. unfold start_check. apply execs_life. Qed.

Lemma set_phase_life k p w : life (set_phase k p w) = life w.
Proof. reflexivity. Qed.

Lemma step_life w e w' :
  step w e = Some w' ->
  life w' = life w
  \/ (e = Mount /\ life w = NotMounted /\ life w' = Mounted)
  \/ (e = Unmount /\ life w = Mounted /\ life w' = Unmounted).
Proof.
  intros Hst. destruct e; monitor_step_inv Hst; cbn [life];
    rewrite ?set_phase_life, ?start_check_life, ?execs_life; auto.
Qed.




End MonitorFacts.

(** ** The screen with the native map *)

Module ScreenFacts.

Import JSNumber Screen.

Lemma screen_run_invariant (P : world -> Prop) :
  (forall w e w', P w -> step w e = Some w' -> P w') ->
  forall es w w', P w -> run w es = Some w' -> P w'.
Proof.
  intros Hstep. induction es as [|e es IH]; intros w w' HP Hrun; simpl in Hrun.
  - apply Some_eq in Hrun. now subst.
  - destruct (step w e) as [w1|] eqn:E; [|discriminate].
    eapply IH; [|eassumption]. eapply Hstep; eassumption.
Qed.

Lemma log_commit w :
  log (commit w) = (log w ++ refetch (seen w) (isConnected (st w)))%list.
Proof.
  unfold commit, refetch. destruct (decide (isConnected (st w) = seen w)).
  - now rewrite app_nil_r.
  - reflexivity.
Qed.

Lemma st_commit w : st (commit w) = st w.
Proof. unfold commit. now destruct (decide _). Qed.

Lemma seen_commit w : seen (commit w) = isConnected (st w).
Proof. unfold commit. now destruct (decide _). Qed.

(** The listener always runs: it stores the report, and what it raises is
    decided by the value it closed over, which a report does not change. *)
Lemma listener_step (w : world) (v : netinfo) :
  exists w',
    step w (NetInfoChange v) = Some w'
    /\ isConnected (st w') = v
    /\ log w' = (log w ++ notifications (seen w) v)%list
    /\ seen w' = seen w.
Proof.
  eexists. split; [reflexivity|].
  unfold onNetInfoChange, listener_alert, notifications.
  destruct (truthy (seen w)), (truthy v); cbn;
    rewrite ?app_nil_r; repeat split.
Qed.

(** A report of [null] while the listener holds Connected raises 'Conexión
    perdida' although the status becomes Unknown. *)
Lemma notification_on_connected_to_unknown :
  exists w1 w2,
    run init [NetInfoChange (Some true); Render] = Some w1
    /\ isConnected (st w1) = Some true
    /\ step w1 (NetInfoChange None) = Some w2
    /\ isConnected (st w2) = None
    /\ log w2 = (log w1 ++ [alert_lost])%list.
Proof.
  eexists. eexists. repeat split; vm_compute; reflexivity.
Qed.

(** C5 does not hold of the code.  The listener compares a report with the
    [isConnected] of the render that subscribed it, and that value is
    replaced only when React has rendered again and the effect has
    subscribed a new listener.  Every report raises what
    [notifications] gives for that closed-over value, whatever the status
    is by then.  On the screen just mounted, two reports of Connected that
    arrive before the next render are both compared with Unknown: 'Conexión
    restablecida' is raised twice, the second time while the status is
    already Connected (Connected→Connected); and a report of Connected
    followed by one of Disconnected raises no 'Conexión perdida', although
    the status goes from Connected to Disconnected.  With a render between
    the two reports the second report of Connected raises nothing. *)
Theorem stale_listener_repeats_notification :
  (forall w v,
      exists w',
        step w (NetInfoChange v) = Some w'
        /\ isConnected (st w') = v
        /\ log w' = (log w ++ notifications (seen w) v)%list
        /\ seen w' = seen w)
  /\ (exists w1 w2,
         step init (NetInfoChange (Some true)) = Some w1
         /\ isConnected (st w1) = Some true
         /\ step w1 (NetInfoChange (Some true)) = Some w2
         /\ isConnected (st w2) = Some true
         /\ log w2 = (log init ++ [alert_restored; alert_restored])%list)
  /\ (exists w1 w2,
         step init (NetInfoChange (Some true)) = Some w1
         /\ isConnected (st w1) = Some true
         /\ step w1 (NetInfoChange (Some false)) = Some w2
         /\ isConnected (st w2) = Some false
         /\ log w2 = (log init ++ [alert_restored])%list)
  /\ (exists w1 w2,
         run init [NetInfoChange (Some true); Render] = Some w1
         /\ step w1 (NetInfoChange (Some true)) = Some w2
         /\ log w2 = (log init ++ [alert_restored; NetInfo_fetch])%list).
Proof.
  split; [exact listener_step|].
  repeat split; eexists; eexists; repeat split; vm_compute; reflexivity.
Qed.

(** A status change made by [checkInternetConnection] raises neither of
    the two notifications: it raises the off-line warning or nothing. *)
Lemma fetch_result_raises_no_change_notification (w : world) (v : netinfo) (w' : world) :
  step w (NetFetchSettled v) = Some w' ->
  isConnected (st w') = v
  /\ log w' = (log w ++ (if truthy v then [] else [alert_offline]))%list
  /\ seen w' = seen w.
Proof.
  unfold step. destruct (netFetches w) as [|n]; [discriminate|].
  intros H. apply Some_eq in H. subst w'.
  unfold checkInternetConnection_after.
  destruct (truthy v); cbn; rewrite ?app_nil_r; repeat split.
Qed.

(** *** Start-up: permission, then position *)

Ltac screen_step_inv H :=
  unfold step in H;
  repeat match type of H with
         | context [match ?x with _ => _ end] =>
             let E := fresh "E" in destruct x eqn:E; try discriminate H
         | (let '(_, _) := ?x in _) = _ =>
             let E := fresh "E" in destruct x eqn:E
         end;
  try (apply Some_eq in H); subst.

Lemma commit_frame w :
  st (commit w) = st w /\ boot (commit w) = boot w
  /\ asks (commit w) = asks w /\ watches (commit w) = watches w.
Proof. unfold commit. destruct (decide _); repeat split. Qed.

Lemma connectivity_step w v w' :
  step w (NetFetchSettled v) = Some w' \/ step w (NetInfoChange v) = Some w' ->
  st w' = with_isConnected v (st w)
  /\ boot w' = boot w /\ asks w' = asks w /\ watches w' = watches w
  /\ exists cs, log w' = (log w ++ cs)%list /\ Forall connectivity_call cs.
Proof.
  intros [H|H].
  - pose proof (fetch_result_raises_no_change_notification w v w' H)
      as (_ & Hlog & _).
    unfold step in H. destruct (netFetches w) as [|n]; [discriminate|].
    apply Some_eq in H. subst w'.
    unfold checkInternetConnection_after.
    split; [|split; [|split; [|split]]];
      try (destruct (negb (truthy v)); reflexivity).
    eexists. split; [exact Hlog|].
    destruct (truthy v); [constructor|].
    constructor; [right; unfold alert_offline; eauto|constructor].
  - destruct (listener_step w v) as (w1 & Hst & _ & Hlog & _).
    rewrite Hst in H. apply Some_eq in H. subst w1.
    unfold step in Hst. apply Some_eq in Hst. subst w'.
    unfold onNetInfoChange.
    split; [|split; [|split; [|split]]];
      try (destruct (listener_alert _ _); reflexivity).
    eexists. split; [exact Hlog|].
    unfold notifications.
    destruct (truthy _), (truthy v); try constructor;
      try (right; unfold alert_lost, alert_restored; eauto); constructor.
Qed.

(** A render changes no cell; the effect it may run again calls
    [NetInfo.fetch()]. *)
Lemma render_step w w' :
  step w Render = Some w' ->
  st w' = st w
  /\ boot w' = boot w /\ asks w' = asks w /\ watches w' = watches w
  /\ exists cs, log w' = (log w ++ cs)%list /\ Forall connectivity_call cs.
Proof.
  intros H. unfold step in H. apply Some_eq in H. subst w'.
  destruct (commit_frame w) as (-> & -> & -> & ->).
  repeat split. exists (refetch (seen w) (isConnected (st w))).
  split; [apply log_commit|].
  unfold refetch. destruct (decide _); [constructor|].
  constructor; [now left|constructor].
Qed.

Lemma map_shown_loading s : loading s = true -> map_shown s = false.
Proof. unfold map_shown, render. now intros ->. Qed.

Lemma not_in_connectivity (c : ext) l cs :
  c ∉ l -> Forall connectivity_call cs ->
  c <> NetInfo_fetch -> (forall t m, c <> Alert t m) ->
  c ∉ (l ++ cs)%list.
Proof.
  intros Hl Hcs Hn Ha Hin. apply elem_of_app in Hin as [Hin|Hin]; [auto|].
  rewrite Forall_forall in Hcs. destruct (Hcs c Hin) as [?|(t & m & ?)].
  - contradiction.
  - now apply (Ha t m).
Qed.

Lemma starting_up_step w e w' :
  starting_up w -> step w e = Some w' -> starting_up w'.
Proof.
  intros Hinv Hst Hb'.
  destruct e.
  - (* PermissionSettled *)
    screen_step_inv Hst; cbn [boot set_boot] in Hb'; try congruence.
    unfold startup_afterPermission in E1. destruct (negb v).
    + apply pair_equal_spec in E1 as [<- <-]. congruence.
    + apply pair_equal_spec in E1 as [<- <-].
      destruct Hinv as (? & ? & ? & ? & ? & Hw & Hg); [congruence|].
      cbn. repeat split; try assumption; try congruence.
      intros Hin. apply elem_of_app in Hin as [Hin|Hin]; [auto|].
      apply list_elem_of_singleton in Hin. discriminate.
  - (* PositionSettled *)
    screen_step_inv Hst. cbn [boot set_boot] in Hb'. congruence.
  - (* NetFetchSettled *)
    destruct (connectivity_step w v w' (or_introl Hst))
      as (Hs & Hbo & Has & Hwa & cs & Hlog & Hcs).
    rewrite Hbo in Hb'. destruct (Hinv Hb') as (? & ? & ? & ? & ? & Hw & Hg).
    rewrite Hs, Hbo, Has, Hwa, Hlog. cbn [with_isConnected loading errorMsg location].
    repeat split; try assumption.
    + apply not_in_connectivity; try assumption; discriminate.
    + intros Hb. apply not_in_connectivity; try (now apply Hg); try assumption;
        discriminate.
  - (* NetInfoChange *)
    destruct (connectivity_step w v w' (or_intror Hst))
      as (Hs & Hbo & Has & Hwa & cs & Hlog & Hcs).
    rewrite Hbo in Hb'. destruct (Hinv Hb') as (? & ? & ? & ? & ? & Hw & Hg).
    rewrite Hs, Hbo, Has, Hwa, Hlog. cbn [with_isConnected loading errorMsg location].
    repeat split; try assumption.
    + apply not_in_connectivity; try assumption; discriminate.
    + intros Hb. apply not_in_connectivity; try (now apply Hg); try assumption;
        discriminate.
  - (* PressCenter *)
    screen_step_inv Hst.
    assert (boot w <> Started) as Hb.
    { revert Hb'. unfold centerMapOnLocation.
      destruct (location (st w)); [rewrite E|]; auto. }
    destruct (Hinv Hb) as (Hld & _). rewrite map_shown_loading in E by assumption.
    discriminate.
  - (* PressTrack *)
    screen_step_inv Hst. cbn [boot startLocationTracking_enter call] in Hb'.
    destruct (Hinv Hb') as (Hld & _). rewrite map_shown_loading in E by assumption.
    discriminate.
  - (* TrackPermissionSettled *)
    screen_step_inv Hst.
    assert (boot w <> Started) as Hb.
    { revert Hb'. unfold startLocationTracking_after.
      destruct r as [[|]|]; cbn; auto. }
    destruct (Hinv Hb) as (_ & _ & _ & Has & _). rewrite Has in E. discriminate.
  - (* WatchUpdate *)
    screen_step_inv Hst.
    assert (boot w <> Started) as Hb.
    { revert Hb'. unfold onPosition. destruct (map_shown (st w)); cbn; auto. }
    destruct (Hinv Hb) as (_ & _ & _ & _ & Hwa & _). rewrite Hwa in E.
    discriminate.
  - (* Render *)
    destruct (render_step w w' Hst)
      as (Hs & Hbo & Has & Hwa & cs & Hlog & Hcs).
    rewrite Hbo in Hb'. destruct (Hinv Hb') as (? & ? & ? & ? & ? & Hw & Hg).
    rewrite Hs, Hbo, Has, Hwa, Hlog.
    repeat split; try assumption.
    + apply not_in_connectivity; try assumption; discriminate.
    + intros Hb. apply not_in_connectivity; try (now apply Hg); try assumption;
        discriminate.
Qed.

Lemma reachable_starting_up w : reachable w -> starting_up w.
Proof.
  intros (es & Hrun).
  eapply (screen_run_invariant starting_up); [exact starting_up_step| |exact Hrun].
  intros _. repeat split.
  - intros Hin. apply list_elem_of_In in Hin. cbn in Hin.
    intuition discriminate.
  - intros _ Hin. apply list_elem_of_In in Hin. cbn in Hin.
    intuition discriminate.
Qed.

Local Open Scope string_scope.

Lemma map_shown_error s m : 
  errorMsg s = Some m -> nonempty m = true -> map_shown s = false.
Proof.
  unfold map_shown, render. intros -> ->. now destruct (loading s).
Qed.

Lemma denied_step l0 w e w' :
  denied l0 w -> step w e = Some w' -> denied l0 w'.
Proof.
  intros (Hb & Hld & Her & Hlo & Has & Hwa & cs & Hlog & Hcs) Hst.
  assert (map_shown (st w) = false) as Hms
    by (eapply map_shown_error; [exact Her|reflexivity]).
  destruct e.
  - screen_step_inv Hst; congruence.
  - screen_step_inv Hst; congruence.
  - destruct (connectivity_step w v w' (or_introl Hst))
      as (Hs & Hbo & Has' & Hwa' & cs' & Hlog' & Hcs').
    unfold denied. rewrite Hs, Hbo, Has', Hwa', Hlog', Hlog.
    cbn [with_isConnected loading errorMsg location].
    repeat (split; [assumption|]).
    exists (cs ++ cs')%list. split; [now rewrite app_assoc|].
    apply Forall_app. now split.
  - destruct (connectivity_step w v w' (or_intror Hst))
      as (Hs & Hbo & Has' & Hwa' & cs' & Hlog' & Hcs').
    unfold denied. rewrite Hs, Hbo, Has', Hwa', Hlog', Hlog.
    cbn [with_isConnected loading errorMsg location].
    repeat (split; [assumption|]).
    exists (cs ++ cs')%list. split; [now rewrite app_assoc|].
    apply Forall_app. now split.
  - screen_step_inv Hst. congruence.
  - screen_step_inv Hst. congruence.
  - screen_step_inv Hst. rewrite Has in E. discriminate.
  - screen_step_inv Hst. rewrite Hwa in E. discriminate.
  - destruct (render_step w w' Hst)
      as (Hs & Hbo & Has' & Hwa' & cs' & Hlog' & Hcs').
    unfold denied. rewrite Hs, Hbo, Has', Hwa', Hlog', Hlog.
    repeat (split; [assumption|]).
    exists (cs ++ cs')%list. split; [now rewrite app_assoc|].
    apply Forall_app. now split.
Qed.

(** C6.  When the permission request of the start-up effect resolves with a
    status other than 'granted', the continuation runs, and from then on,
    whatever happens: loading has ended, the screen renders the error view
    with the permission message (so neither the map nor the monitor), and
    the only platform calls ever added are [NetInfo.fetch()] and alerts;
    in particular the position is never requested, the permission is not
    asked again and no tracking starts. *)
Theorem permission_denied_is_terminal
    (NumberToString : float64 -> string) (w : world) :
  reachable w -> boot w = AskingPermission ->
  exists w1,
    step w (PermissionSettled (Ok false)) = Some w1
    /\ forall es w', run w1 es = Some w' ->
         loading (st w') = false
         /\ render NumberToString (st w') = ErrorView denied_message
         /\ (exists cs, log w' = (log w ++ cs)%list
                        /\ Forall connectivity_call cs)
         /\ (getCurrentPositionAsync ∉ log w').
Proof.
  intros Hreach Hb.
  destruct (reachable_starting_up w Hreach) as (Hld & Her & Hlo & Has & Hwa & Hw & Hg);
    [congruence|].
  eexists. split.
  { unfold step. rewrite Hb. reflexivity. }
  intros es w' Hrun.
  assert (denied (log w) w') as (Hb' & Hld' & Her' & Hlo' & _ & _ & cs & Hlog & Hcs).
  { eapply (screen_run_invariant (denied (log w))); [apply denied_step| |exact Hrun].
    unfold denied. cbn. repeat (split; [assumption || reflexivity|]).
    exists []. split; [now rewrite app_nil_r|constructor]. }
  split; [assumption|]. split; [|split].
  - unfold render. rewrite Hld', Her'. reflexivity.
  - eauto.
  - rewrite Hlog. apply not_in_connectivity; try assumption; try discriminate.
    now apply Hg.
Qed.

Lemma permission_denied_is_terminal_witness :
  exists w1,
    step init (PermissionSettled (Ok false)) = Some w1
    /\ forall es w', run w1 es = Some w' ->
         loading (st w') = false
         /\ render (fun _ => "") (st w') = ErrorView denied_message
         /\ (exists cs, log w' = (log init ++ cs)%list
                        /\ Forall connectivity_call cs)
         /\ (getCurrentPositionAsync ∉ log w').
Proof.
  apply (permission_denied_is_terminal (fun _ => "") init).
  - exists []. reflexivity.
  - reflexivity.
Defined.

(** Whatever position the start-up fetch returns, the screen then shows
    the map section built from it: one marker, at its coordinate. *)
Lemma any_position_is_rendered
    (NumberToString : float64 -> string) (w : world) (l : LocationObject) :
  reachable w -> boot w = FetchingPosition ->
  exists w',
    step w (PositionSettled (Ok l)) = Some w'
    /\ location (st w') = Some l
    /\ render NumberToString (st w')
       = MainView (Some (render_map NumberToString (st w') l))
    /\ map coordinate (markers (render_map NumberToString (st w') l))
       = [(latitude (coords l), longitude (coords l))].
Proof.
  intros Hreach Hb.
  destruct (reachable_starting_up w Hreach) as (Hld & Her & Hlo & _);
    [congruence|].
  eexists. split.
  { unfold step. rewrite Hb. reflexivity. }
  split; [reflexivity|]. split; [|reflexivity].
  unfold render. cbn. rewrite Her. reflexivity.
Qed.

(** C9.  When the position fetch of the start-up effect succeeds with
    (40.4168, -3.7038, accuracy 5), the screen renders the main view with
    the map, carrying exactly one marker, at that coordinate, and the info
    box reads "Latitud: 40.416800", "Longitud: -3.703800",
    "Precisión: ±5 metros", followed by the connectivity line. *)
Theorem position_is_rendered
    (NumberToString : float64 -> string) (w : world) :
  reachable w -> boot w = FetchingPosition ->
  exists w' m,
    step w (PositionSettled (Ok madrid)) = Some w'
    /\ render NumberToString (st w') = MainView (Some m)
    /\ map coordinate (markers m)
       = [(latitude (coords madrid), longitude (coords madrid))]
    /\ infoBox m
       = ["Latitud: 40.416800"; "Longitud: -3.703800"; "Precisión: ±5 metros";
          "Internet: " ++ (if truthy (isConnected (st w)) then "Conectado"
                           else "Sin conexión")].
Proof.
  intros Hreach Hb.
  destruct (reachable_starting_up w Hreach) as (Hld & Her & Hlo & _);
    [congruence|].
  eexists. eexists. split.
  { unfold step. rewrite Hb. reflexivity. }
  unfold render. cbn. rewrite Her. cbn.
  split; [reflexivity|]. split; reflexivity.
Qed.

Lemma position_is_rendered_witness :
  exists w' m,
    step fetching (PositionSettled (Ok madrid)) = Some w'
    /\ render (fun _ => "") (st w') = MainView (Some m)
    /\ map coordinate (markers m)
       = [(latitude (coords madrid), longitude (coords madrid))]
    /\ infoBox m
       = ["Latitud: 40.416800"; "Longitud: -3.703800"; "Precisión: ±5 metros";
          "Internet: Sin conexión"].
Proof.
  apply (position_is_rendered (fun _ => "") fetching).
  - exists [PermissionSettled (Ok true)]. reflexivity.
  - reflexivity.
Defined.

(** The literals of the scenario denote these doubles: each is within half
    a unit in the last place of the decimal value. *)
Lemma madrid_is_nearest :
  let lat := latitude (coords madrid) in
  let lon := longitude (coords madrid) in
  (2 ^ 52 <= mant lat < 2 ^ 53
   /\ Z.abs (2 * (mant lat * 10000 - 404168 * 2 ^ (- expn lat)))
      <= 10000)%Z
  /\ (2 ^ 52 <= - mant lon < 2 ^ 53
      /\ Z.abs (2 * (mant lon * 10000 + 37038 * 2 ^ (- expn lon)))
         <= 10000)%Z.
Proof. vm_compute. intuition discriminate. Qed.

End ScreenFacts.

(** ** Position tracking on the screen with the native map *)

Module TrackingFacts.

Import JSNumber Screen ScreenFacts.

(** No handler of the screen with the native map ends a subscription. *)
Lemma watches_never_shrink w e w' :
  step w e = Some w' -> exists new, watches w' = (watches w ++ new)%list.
Proof.
  intros Hst. destruct e.
  - screen_step_inv Hst; [|exists []; now rewrite app_nil_r].
    unfold startup_afterPermission in E1. destruct (negb v);
      apply pair_equal_spec in E1 as [<- <-]; exists []; now rewrite app_nil_r.
  - screen_step_inv Hst. exists []. destruct r; now rewrite app_nil_r.
  - destruct (connectivity_step w v w' (or_introl Hst)) as (_ & _ & _ & -> & _).
    exists []. now rewrite app_nil_r.
  - destruct (connectivity_step w v w' (or_intror Hst)) as (_ & _ & _ & -> & _).
    exists []. now rewrite app_nil_r.
  - screen_step_inv Hst. exists []. unfold centerMapOnLocation.
    destruct (location (st w)); [destruct (map_shown (st w))|];
      now rewrite app_nil_r.
  - screen_step_inv Hst. exists []. now rewrite app_nil_r.
  - screen_step_inv Hst. unfold startLocationTracking_after.
    destruct r as [g|e]; [destruct (negb g)|].
    + exists []. now rewrite app_nil_r.
    + exists [o]. reflexivity.
    + exists []. now rewrite app_nil_r.
  - screen_step_inv Hst. exists []. unfold onPosition.
    destruct (map_shown (st w)); now rewrite app_nil_r.
  - destruct (render_step w w' Hst) as (_ & _ & _ & -> & _).
    exists []. now rewrite app_nil_r.
Qed.

(** C2 on the screen with the native map, at the failing input: the
    tracking button pressed twice, permission granted both times.  Both
    subscriptions are live afterwards and both deliver positions; nothing
    the screen can do afterwards ends either. *)
Theorem second_start_keeps_first_subscription :
  run init two_starts = Some after_two_starts
  /\ length (watches after_two_starts) = 2%nat
  /\ (forall l, is_Some (step after_two_starts (WatchUpdate 0 l))
                /\ is_Some (step after_two_starts (WatchUpdate 1 l)))
  /\ forall es w', run after_two_starts es = Some w' ->
                   (2 <= length (watches w'))%nat.
Proof.
  split; [vm_compute; reflexivity|].
  split; [reflexivity|]. split.
  - intros l. split; eexists; reflexivity.
  - intros es w' Hrun.
    refine (screen_run_invariant (fun w => (2 <= length (watches w))%nat) _
              es after_two_starts w' (le_n 2) Hrun).
    intros w0 e w1 Hw0 Hst.
    destruct (watches_never_shrink w0 e w1 Hst) as [new ->].
    rewrite length_app. lia.
Qed.

End TrackingFacts.

(** ** Position tracking on the screen with the web map *)

Module WebScreenFacts.

Import WebScreen.
Import Screen(Ok, Thrown).

Lemma elem_of_without id j l : j ∈ without id l <-> j ∈ l /\ j <> id.
Proof.
  unfold without. rewrite !list_elem_of_In, filter_In.
  rewrite negb_true_iff, Nat.eqb_neq. reflexivity.
Qed.

Lemma NoDup_without id l : NoDup l -> NoDup (without id l).
Proof.
  rewrite !NoDup_ListNoDup. unfold without. apply List.NoDup_filter.
Qed.

Lemma live_remove_if h w j :
  j ∈ live (remove_if h w) <-> j ∈ live w /\ h <> Some j.
Proof.
  destruct h as [id|]; cbn [remove_if set_live live call].
  - rewrite elem_of_without. split; intros [? ?]; split; congruence.
  - split; [intros ?; split; [assumption|discriminate]|tauto].
Qed.

Lemma remove_if_st h w : st (remove_if h w) = st w.
Proof. now destruct h. Qed.
Lemma remove_if_starting h w : starting (remove_if h w) = starting w.
Proof. now destruct h. Qed.
Lemma remove_if_created h w : created (remove_if h w) = created w.
Proof. now destruct h. Qed.
Lemma remove_if_NoDup h w : NoDup (live w) -> NoDup (live (remove_if h w)).
Proof.
  destruct h; cbn [remove_if set_live live call]; auto using NoDup_without.
Qed.

Lemma commit_st w : st (commit w) = st w.
Proof.
  unfold commit. destruct (decide _); [reflexivity|].
  cbn. now rewrite remove_if_st.
Qed.

Lemma held_commit w : held (commit w) = watchId (st w).
Proof.
  unfold commit. destruct (decide _) as [[_ H]|_]; [now rewrite H|].
  cbn. now rewrite remove_if_st.
Qed.

Lemma commit_tracked w : tracked_but (held w) w -> tracked (commit w).
Proof.
  intros (Hnd & Hlt & Hin). unfold commit.
  destruct (decide _) as [[_ Hw]|Hne].
  - repeat split; try assumption.
    intros id Hid. destruct (Hin id Hid) as [?|[?|?]]; auto. left. congruence.
  - cbn [live created st starting call].
    repeat split.
    + now apply remove_if_NoDup.
    + intros id Hid. apply live_remove_if in Hid as [Hid _].
      rewrite remove_if_created. auto.
    + intros id Hid. apply live_remove_if in Hid as [Hid Hold].
      rewrite remove_if_st, remove_if_starting.
      destruct (Hin id Hid) as [?|[?|?]]; auto. contradiction.
Qed.

Lemma tracked_weaken old w : tracked w -> tracked_but old w.
Proof.
  intros (Hnd & Hlt & Hin). repeat split; try assumption.
  intros id Hid. destruct (Hin id Hid); auto.
Qed.

(** A handler that leaves the subscriptions, [watchId] and the pending
    starts alone. *)
Lemma tracked_but_same w w' :
  live w' = live w -> created w' = created w -> starting w' = starting w ->
  watchId (st w') = watchId (st w) ->
  tracked w -> tracked_but (watchId (st w)) w'.
Proof.
  intros Hl Hc Hs Hw Ht. apply tracked_weaken.
  destruct Ht as (Hnd & Hlt & Hin). unfold tracked.
  rewrite Hl, Hc, Hs, Hw. auto.
Qed.

Lemma elem_of_delete_other {A} (l : list A) j x y :
  x ∈ l -> l !! j = Some y -> x <> y -> x ∈ delete j l.
Proof.
  revert j. induction l as [|a l IH]; intros j Hx Hj Hne; [inversion Hx|].
  destruct j as [|j]; cbn in *.
  - apply Some_eq in Hj. subst a.
    apply elem_of_cons in Hx as [?|?]; [contradiction|assumption].
  - apply elem_of_cons in Hx as [->|Hx]; [left|right].
    now apply IH.
Qed.

Lemma tracked_same w w' :
  live w' = live w -> created w' = created w -> starting w' = starting w ->
  watchId (st w') = watchId (st w) ->
  tracked w -> tracked w'.
Proof.
  intros Hl Hc Hs Hw (Hnd & Hlt & Hin). unfold tracked.
  rewrite Hl, Hc, Hs, Hw. auto.
Qed.

Lemma afterPermission_tracked closed r w :
  tracked w ->
  tracked_but (watchId (st w)) (startLocationTracking_afterPermission closed r w).
Proof.
  intros Ht. pose proof Ht as (Hnd & Hlt & Hin).
  unfold startLocationTracking_afterPermission.
  destruct r as [g|e]; [destruct (negb g)|]; try now apply tracked_but_same.
  unfold tracked_but. cbn [live created st starting call].
  rewrite remove_if_st, remove_if_starting, remove_if_created.
  repeat split.
  - apply NoDup_app. split; [|split].
    + now apply remove_if_NoDup.
    + intros j Hj Hj'. apply live_remove_if in Hj as [Hj _].
      apply list_elem_of_singleton in Hj'. subst j.
      specialize (Hlt _ Hj). lia.
    + apply NoDup_singleton.
  - intros j Hj. apply elem_of_app in Hj as [Hj|Hj].
    + apply live_remove_if in Hj as [Hj _]. specialize (Hlt _ Hj). lia.
    + apply list_elem_of_singleton in Hj. subst j. lia.
  - intros j Hj. apply elem_of_app in Hj as [Hj|Hj].
    + apply live_remove_if in Hj as [Hj _].
      destruct (Hin j Hj) as [?|?]; [now left|].
      right. left. apply elem_of_app. now left.
    + right. left. apply elem_of_app. now right.
Qed.

(** What one event does to the subscriptions, seen before React renders
    again. *)
Lemma step_tracked_but w e w' :
  tracked w -> step w e = Some w' -> tracked_but (watchId (st w)) w'.
Proof.
  intros Ht Hh. pose proof Ht as (Hnd & Hlt & Hin).
  destruct e; cbn [step] in Hh.
  - (* PermissionSettled *)
    destruct (boot w); try discriminate. destruct r as [g|e].
    + unfold startup_afterPermission in Hh.
      destruct (negb g); cbv beta iota in Hh; apply Some_eq in Hh; subst w';
        now apply tracked_but_same.
    + apply Some_eq in Hh; subst w'; now apply tracked_but_same.
  - (* PositionSettled *)
    destruct (boot w); try discriminate.
    apply Some_eq in Hh; subst w'. destruct r; now apply tracked_but_same.
  - (* NetFetchSettled *)
    destruct (netFetches w); [discriminate|].
    apply Some_eq in Hh; subst w'. unfold checkInternetConnection_after.
    destruct (negb (truthy v)); now apply tracked_but_same.
  - (* NetInfoChange *)
    apply Some_eq in Hh; subst w'. unfold onNetInfoChange.
    repeat destruct (_ && _); now apply tracked_but_same.
  - (* PressRefresh *)
    destruct (actions_shown (st w)); [|discriminate].
    apply Some_eq in Hh; subst w'. now apply tracked_but_same.
  - (* RefreshSettled *)
    destruct (refreshes w); [discriminate|].
    apply Some_eq in Hh; subst w'. destruct r; now apply tracked_but_same.
  - (* PressStart *)
    destruct (_ && _); [|discriminate].
    apply Some_eq in Hh; subst w'. now apply tracked_but_same.
  - (* PressStop *)
    destruct (_ && _); [|discriminate].
    apply Some_eq in Hh; subst w'. unfold stopLocationTracking.
    destruct (watchId (st w)) as [id|] eqn:Hw.
    + cbn. repeat split.
      * now apply NoDup_without.
      * intros j Hj. apply elem_of_without in Hj as [Hj _]. auto.
      * intros j Hj. apply elem_of_without in Hj as [Hj Hne].
        destruct (Hin j Hj) as [?|?]; auto.
    + rewrite <- Hw. now apply tracked_but_same.
  - (* TrackPermissionSettled *)
    destruct (asks w !! i) as [closed|]; [|discriminate].
    apply Some_eq in Hh; subst w'.
    apply (afterPermission_tracked closed r
             (mkWorld (st w) (seen w) (held w) (netFetches w) (boot w)
                (refreshes w) (delete i (asks w)) (starting w) (live w)
                (created w) (log w))).
    now apply (tracked_same w).
  - (* WatchSettled *)
    destruct (starting w !! j) as [id|] eqn:Hj; [|discriminate].
    apply Some_eq in Hh; subst w'.
    unfold startLocationTracking_afterWatch. destruct r as [[]|e]; cbn.
    + repeat split; try assumption.
      intros x Hx. destruct (decide (x = id)) as [->|Hne]; [now left|].
      destruct (Hin x Hx) as [?|Hs]; [now right; right|].
      right. left. now apply (elem_of_delete_other _ _ _ id).
    + repeat split.
      * now apply NoDup_without.
      * intros x Hx. apply elem_of_without in Hx as [Hx _]. auto.
      * intros x Hx. apply elem_of_without in Hx as [Hx Hne].
        destruct (Hin x Hx) as [?|Hs]; [now left|].
        right. left. now apply (elem_of_delete_other _ _ _ id).
  - (* WatchUpdate *)
    destruct (bool_decide _); [|discriminate].
    apply Some_eq in Hh; subst w'. now apply tracked_but_same.
  - (* WebViewError *)
    apply Some_eq in Hh; subst w'. now apply tracked_but_same.
  - (* Render *)
    apply Some_eq in Hh; subst w'. apply tracked_weaken.
    apply commit_tracked. now apply tracked_weaken.
Qed.

(** Only a render changes what the clean-up of the effect holds. *)
Lemma step_held w e w' :
  step w e = Some w' -> e <> Render -> held w' = held w.
Proof.
  intros Hh Hne. destruct e; cbn [step] in Hh; try contradiction.
  - destruct (boot w); try discriminate. destruct r as [g|e].
    + unfold startup_afterPermission in Hh.
      destruct (negb g); cbv beta iota in Hh; apply Some_eq in Hh; now subst w'.
    + apply Some_eq in Hh; now subst w'.
  - destruct (boot w); try discriminate.
    apply Some_eq in Hh; subst w'. now destruct r.
  - destruct (netFetches w); [discriminate|].
    apply Some_eq in Hh; subst w'. unfold checkInternetConnection_after.
    now destruct (negb (truthy v)).
  - apply Some_eq in Hh; subst w'. unfold onNetInfoChange.
    now repeat destruct (_ && _).
  - destruct (actions_shown (st w)); [|discriminate].
    apply Some_eq in Hh; now subst w'.
  - destruct (refreshes w); [discriminate|].
    apply Some_eq in Hh; subst w'. now destruct r.
  - destruct (_ && _); [|discriminate].
    apply Some_eq in Hh; now subst w'.
  - destruct (_ && _); [|discriminate].
    apply Some_eq in Hh; subst w'. unfold stopLocationTracking.
    now destruct (watchId (st w)).
  - destruct (asks w !! i) as [closed|]; [|discriminate].
    apply Some_eq in Hh; subst w'.
    unfold startLocationTracking_afterPermission.
    destruct r as [g|e]; [destruct (negb g)|]; try reflexivity.
    now destruct closed.
  - destruct (starting w !! j) as [id|]; [|discriminate].
    apply Some_eq in Hh; subst w'.
    unfold startLocationTracking_afterWatch. now destruct r as [[]|e].
  - destruct (bool_decide _); [|discriminate].
    apply Some_eq in Hh; now subst w'.
  - apply Some_eq in Hh; now subst w'.
Qed.

(** An event and the render that follows it. *)
Lemma caught_up_step w e w1 w2 :
  caught_up w -> step w e = Some w1 -> step w1 Render = Some w2 ->
  caught_up w2.
Proof.
  intros [Ht Hh] Hst Hr. cbn [step] in Hr. apply Some_eq in Hr. subst w2.
  split; [|now rewrite held_commit, commit_st].
  apply commit_tracked.
  assert (held w1 = watchId (st w)) as ->.
  { destruct e; try (rewrite (step_held w _ w1 Hst) by discriminate; exact Hh).
    cbn [step] in Hst. apply Some_eq in Hst. subst w1. apply held_commit. }
  now apply (step_tracked_but w e).
Qed.

Lemma run_rendering_each_caught_up es :
  forall w w', caught_up w -> run w (rendering_each es) = Some w' ->
               caught_up w'.
Proof.
  induction es as [|e es IH]; intros w w' Hc Hrun.
  - apply Some_eq in Hrun. now subst.
  - change (rendering_each (e :: es))
      with (e :: Render :: rendering_each es) in Hrun.
    cbn [run] in Hrun.
    destruct (step w e) as [w1|] eqn:E1; [|discriminate].
    destruct (step w1 Render) as [w2|] eqn:E2; [|discriminate].
    apply (IH w2); [|exact Hrun]. now apply (caught_up_step w e w1).
Qed.

Lemma caught_up_init : caught_up init.
Proof.
  split; [|reflexivity].
  repeat split; [constructor|intros id Hid; inversion Hid..].
Qed.

(** In the variant with the web map, as long as React renders after every
    event, at most one subscription is live whenever no start is in
    flight. *)
Lemma at_most_one_live (es : list event) (w : world) :
  run init (rendering_each es) = Some w -> starting w = [] ->
  (length (live w) <= 1)%nat.
Proof.
  intros Hr Hs.
  destruct (run_rendering_each_caught_up es init w caught_up_init Hr)
    as [(Hnd & _ & Hin) _].
  rewrite Hs in Hin.
  destruct (live w) as [|a [|b l]]; cbn; try lia.
  exfalso.
  assert (watchId (st w) = Some a) as Ha.
  { destruct (Hin a) as [?|H]; [left|assumption|inversion H]. }
  assert (watchId (st w) = Some b) as Hb.
  { destruct (Hin b) as [?|H]; [right; left|assumption|inversion H]. }
  assert (a = b) by congruence. subst b.
  apply NoDup_cons in Hnd as [Hna _]. apply Hna. left.
Qed.

(** Two starts in flight at once.  When React renders between the two
    resolutions of [watchPositionAsync], the second render finds [watchId]
    changed and the clean-up of the effect removes the subscription of the
    first start. *)
Example double_start_leaves_one :
  option_map (fun w => (live w, watchId (st w)))
    (run init [PermissionSettled (Ok true); PositionSettled (Ok Screen.madrid);
               Render; PressStart; PressStart;
               TrackPermissionSettled 0 (Ok true);
               TrackPermissionSettled 0 (Ok true);
               WatchSettled 0 (Ok tt); Render;
               WatchSettled 0 (Ok tt); Render])
  = Some ([1%nat], Some 1%nat).
Proof. vm_compute. reflexivity. Qed.

(** When both resolutions reach React before it renders, the two
    [setWatchId] are batched: the handle of the first start is never in a
    render, no clean-up ever holds it, and its subscription stays live;
    'Detener seguimiento' ends the other one only. *)
Example batched_double_start_leaks :
  option_map (fun w => (live w, watchId (st w)))
    (run init [PermissionSettled (Ok true); PositionSettled (Ok Screen.madrid);
               Render; PressStart; PressStart;
               TrackPermissionSettled 0 (Ok true);
               TrackPermissionSettled 0 (Ok true);
               WatchSettled 0 (Ok tt); WatchSettled 0 (Ok tt); Render;
               PressStop; Render])
  = Some ([0%nat], None).
Proof. vm_compute. reflexivity. Qed.

End WebScreenFacts.

(** ** The screen and the monitor together *)

Module AppFacts.

Import JSNumber.
Import ScreenFacts MonitorFacts.

Local Open Scope string_scope.

Lemma screen_isConnected_from_netinfo w e w' :
  Screen.step w e = Some w' ->
  Screen.isConnected (Screen.st w') = Screen.isConnected (Screen.st w)
  \/ exists v, (e = Screen.NetFetchSettled v \/ e = Screen.NetInfoChange v)
               /\ Screen.isConnected (Screen.st w') = v.
Proof.
  intros Hst. destruct e.
  - left. screen_step_inv Hst; [|reflexivity].
    unfold Screen.startup_afterPermission in E1. destruct (negb v);
      apply pair_equal_spec in E1 as [<- <-]; reflexivity.
  - left. screen_step_inv Hst. destruct r; reflexivity.
  - right. exists v. split; [now left|].
    destruct (connectivity_step w v w' (or_introl Hst)) as (-> & _).
    reflexivity.
  - right. exists v. split; [now right|].
    destruct (connectivity_step w v w' (or_intror Hst)) as (-> & _).
    reflexivity.
  - left. screen_step_inv Hst. unfold Screen.centerMapOnLocation.
    destruct (Screen.location (Screen.st w));
      [destruct (Screen.map_shown (Screen.st w))|]; reflexivity.
  - left. screen_step_inv Hst. reflexivity.
  - left. screen_step_inv Hst. unfold Screen.startLocationTracking_after.
    destruct r as [g|e]; [destruct (negb g)|]; reflexivity.
  - left. screen_step_inv Hst. unfold Screen.onPosition.
    destruct (Screen.map_shown (Screen.st w)); reflexivity.
  - left. destruct (render_step w w' Hst) as (-> & _). reflexivity.
Qed.

(** C10.  The screen's own [isConnected] changes only with a value NetInfo
    reports (the result of [NetInfo.fetch()] or a change event); no event
    of the monitor, the outcome of the probe included, touches the screen.
    So behind a network with the interface up and the probe failing, the
    info box reads "Internet: Conectado" while the monitor's status is
    Disconnected. *)
Theorem screen_indicator_ignores_probe (NumberToString : float64 -> string) :
  (forall w e w',
      Screen.step w e = Some w' ->
      Screen.isConnected (Screen.st w') = Screen.isConnected (Screen.st w)
      \/ exists v, (e = Screen.NetFetchSettled v \/ e = Screen.NetInfoChange v)
                   /\ Screen.isConnected (Screen.st w') = v)
  /\ (forall a e a',
         App.step a (App.OnMonitor e) = Some a' -> App.screen a' = App.screen a)
  /\ App.run (App.init 0) App.captive_portal = Some App.behind_captive_portal
  /\ (exists m,
         Screen.render NumberToString (Screen.st (App.screen App.behind_captive_portal))
         = Screen.MainView (Some m)
         /\ last (Screen.infoBox m) = Some "Internet: Conectado")
  /\ Monitor.isConnected (Monitor.ui (App.monitor App.behind_captive_portal))
     = Some false.
Proof.
  split; [exact screen_isConnected_from_netinfo|].
  split.
  { intros a e a' Hst. unfold App.step in Hst.
    destruct e; try discriminate;
      destruct (Monitor.step _ _); try discriminate;
      apply Some_eq in Hst; now subst a'. }
  split; [vm_compute; reflexivity|].
  split; [|reflexivity].
  eexists. split; reflexivity.
Qed.




End AppFacts.

(** ** The format of [toFixed] *)

Module ToFixedFacts.


Import JSNumber.

Local Open Scope string_scope.

Lemma length_append (a b : string) :
  String.length (a ++ b) = (String.length a + String.length b)%nat.
Proof. induction a as [|c a IH]; cbn; [reflexivity|]. now rewrite IH. Qed.

Lemma length_zeros n : String.length (zeros n) = n.
Proof. induction n as [|n IH]; cbn; [reflexivity|]. now rewrite IH. Qed.

Lemma length_substring (s : string) : forall n m,
  (n + m <= String.length s)%nat -> String.length (substring n m s) = m.
Proof.
  induction s as [|c s IH]; intros n m H; cbn in H.
  - assert (n = 0%nat) by lia. assert (m = 0%nat) by lia. now subst.
  - destruct n as [|n]; cbn.
    + destruct m as [|m]; cbn; [reflexivity|]. rewrite IH by lia. reflexivity.
    + apply IH. lia.
Qed.

Lemma substring_split (s : string) : forall k,
  (k <= String.length s)%nat ->
  substring 0 k s ++ substring k (String.length s - k) s = s.
Proof.
  induction s as [|c s IH]; intros k H; cbn in H.
  - assert (k = 0%nat) by lia. now subst.
  - destruct k as [|k].
    + cbn. f_equal.
      generalize (IH 0%nat ltac:(lia)).
      rewrite Nat.sub_0_r. destruct s; cbn; auto.
    + cbn. f_equal. apply IH. lia.
Qed.

(** The shape of [x.toFixed(f)] for [1 <= f] below [10 ^ 21]: the sign, at
    least one digit, the point, and exactly [f] digits; read without the
    point, the digits are those of the integer nearest to
    [|x| * 10 ^ f], after leading zeros. *)
Lemma toFixed_format (ts : float64 -> string) (x : float64) (f : nat) :
  huge x = false ->
  exists a b p,
    toFixed ts x (S f) = sign x ++ a ++ "." ++ b
    /\ String.length b = S f
    /\ (1 <= String.length a)%nat
    /\ a ++ b = zeros p ++ digits (scaled_nearest x (S f)).
Proof.
  intros Hh. unfold toFixed. rewrite Hh. fold (sign x).
  set (n := scaled_nearest x (S f)).
  set (m0 := if (n =? 0)%Z then "0" else digits n).
  assert (m0 = digits n) as Hm0.
  { subst m0. destruct (n =? 0)%Z eqn:E; [|reflexivity].
    apply Z.eqb_eq in E. now rewrite E. }
  set (p := if (String.length m0 <=? S f)%nat
            then (S f + 1 - String.length m0)%nat else 0%nat).
  set (m := if (String.length m0 <=? S f)%nat
            then zeros (S f + 1 - String.length m0) ++ m0 else m0).
  assert (m = zeros p ++ m0) as Hm.
  { subst m p. now destruct (String.length m0 <=? S f)%nat. }
  assert (S f + 1 <= String.length m)%nat as Hlen.
  { subst m. destruct (String.length m0 <=? S f)%nat eqn:E.
    - apply Nat.leb_le in E. rewrite length_append, length_zeros. lia.
    - apply Nat.leb_gt in E. lia. }
  exists (substring 0 (String.length m - S f) m),
         (substring (String.length m - S f) (S f) m), p.
  split; [reflexivity|]. split; [apply length_substring; lia|].
  split; [rewrite length_substring; lia|].
  rewrite <- Hm0, <- Hm.
  pose proof (substring_split m (String.length m - S f) ltac:(lia)) as Hsp.
  replace (String.length m - (String.length m - S f))%nat with (S f) in Hsp
    by lia.
  exact Hsp.
Qed.

End ToFixedFacts.

(** ** The monitor: rendering, resources and life cycle *)

Module MonitorLifeFacts.


Import Monitor MonitorFacts.

Lemma state_eta (s : state) :
  s = {| isConnected := isConnected s; isChecking := isChecking s;
         lastChecked := lastChecked s |}.
Proof. now destruct s. Qed.

Lemma ui_start_check_mounted w :
  life w = Mounted ->
  ui (start_check w)
  = {| isConnected := isConnected (ui w); isChecking := true;
       lastChecked := lastChecked (ui w) |}.
Proof. intros Hl. unfold start_check. cbn. now rewrite Hl. Qed.

Lemma ui_step_mounted w e w' :
  life w = Mounted -> step w e = Some w' -> ui_change w (ui w').
Proof.
  intros Hl Hst. destruct e; monitor_step_inv Hst.
  - congruence.
  - now apply ui_same.
  - now apply ui_same.
  - apply ui_checking. now apply (ui_start_check_mounted w).
  - apply ui_checking. now apply ui_start_check_mounted.
  - unfold onNetInfoChange in E0. destruct (negb (truthy st)); [|discriminate].
    apply Some_eq in E0. subst l. apply ui_down. cbn. now rewrite Hl.
  - apply ui_checking. now apply ui_start_check_mounted.
  - unfold checkConnection_afterNetInfo in E2.
    destruct r as [v|]; [destruct (negb (truthy v))|];
      apply pair_equal_spec in E2 as [<- <-].
    + apply (ui_completed _ _ false). cbn. now rewrite Hl.
    + now apply ui_same.
    + apply (ui_completed _ _ false). cbn. now rewrite Hl.
  - apply (ui_completed _ _ (probe_result r)).
    rewrite ui_set_phase. now apply ui_afterProbe.
  - now apply ui_same.
  - apply (ui_completed _ _ false).
    rewrite ui_set_phase.
    now rewrite (ui_afterProbe k Rejected (set_timer k None w)).
  - now apply ui_same.
Qed.

Lemma ui_step_not_mounted w e w' :
  life w <> Mounted -> step w e = Some w' ->
  (e <> Mount /\ ui w' = ui w)
  \/ (e = Mount /\ ui w' = {| isConnected := isConnected (ui w);
                                           isChecking := true;
                                           lastChecked := lastChecked (ui w) |}).
Proof.
  intros Hl Hst.
  assert (forall k cs q, life q <> Mounted -> ui (execs k cs q) = ui q) as Hex.
  { intros k cs. unfold execs. induction cs as [|c cs IH]; intros q Hq; [reflexivity|].
    cbn [fold_left]. rewrite IH by now rewrite exec_life.
    destruct c; try reflexivity; cbn; destruct (life q); congruence. }
  destruct e; monitor_step_inv Hst;
    try (left; split; [discriminate|reflexivity]); try congruence;
    try (left; split; [discriminate|];
         unfold start_check; cbn [ui]; rewrite ?ui_set_phase;
         apply Hex; exact Hl).
  2: { left. split; [discriminate|]. rewrite ui_set_phase.
       now rewrite (Hex k _ (set_timer k None w)). }
  right. split; [reflexivity|].
  now rewrite (ui_start_check_mounted
                 (mkWorld (ui w) (calls w) (now w) (interval w) (subscribed w)
                    Mounted (probes w))).
Qed.

Lemma cells_consistent_step w e w' :
  cells_consistent w -> step w e = Some w' -> cells_consistent w'.
Proof.
  intros (Hiff & Hchk & Hini) Hst. unfold cells_consistent.
  pose proof (step_life w e w' Hst) as Hlife.
  destruct (life w) eqn:Hl.
  - (* not mounted *)
    destruct (ui_step_not_mounted w e w') as [[Hne Hu]|[-> Hu]];
      [congruence|assumption| |].
    + rewrite Hu. split; [assumption|]. split.
      * intros Hl'. destruct Hlife as [H|[(? & _ & H)|(? & H & _)]]; congruence.
      * intros _. now apply Hini.
    + assert (life w' = Mounted) as Hl'.
      { unfold step in Hst. rewrite Hl in Hst. apply Some_eq in Hst. subst w'.
        cbn [life]. now rewrite start_check_life. }
      rewrite Hu. cbn. split; [assumption|]. split; [discriminate|congruence].
  - (* mounted *)
    assert (life w' <> NotMounted) as Hnn
      by (destruct Hlife as [H|[(? & H & _)|(? & _ & H)]]; congruence).
    destruct (ui_step_mounted w e w' Hl Hst) as [Hu|Hu|b Hu|Hu]; rewrite Hu; cbn.
    + split; [assumption|]. split; [|contradiction].
      intros _. apply Hchk. discriminate.
    + split; [assumption|]. split; [discriminate|contradiction].
    + split; [split; discriminate|]. split; [discriminate|contradiction].
    + split; [split; discriminate|]. split; [discriminate|contradiction].
  - (* unmounted *)
    destruct (ui_step_not_mounted w e w') as [[Hne Hu]|[-> Hu]];
      [congruence|assumption| |].
    + rewrite Hu. split; [assumption|]. split.
      * intros _. apply Hchk. discriminate.
      * intros Hl'. destruct Hlife as [H|[(? & H & _)|(? & H & _)]]; congruence.
    + unfold step in Hst. rewrite Hl in Hst. discriminate.
Qed.

Lemma reachable_cells_consistent w : reachable w -> cells_consistent w.
Proof.
  intros (t & es & Hrun).
  eapply (monitor_run_invariant cells_consistent);
    [exact cells_consistent_step| |exact Hrun].
  split; [split; reflexivity|]. split; [intros H; now elim H|reflexivity].
Qed.

Local Open Scope string_scope.
Local Open Scope Z_scope.

(** X1.  The status text 'Desconocido' is what the component shows in its
    very first render only: once the effect has run (and ever after), the
    text is 'Verificando...', 'Conectado' or 'Sin conexión'. *)
Theorem unknown_text_only_in_first_render (w : world) :
  reachable w ->
  (statusText (render (ui w)) = "Desconocido" <-> life w = NotMounted).
Proof.
  intros Hr. destruct (reachable_cells_consistent w Hr) as (_ & Hchk & Hini).
  split.
  - intros Htxt.
    destruct (life w) eqn:Hl; [reflexivity| |]; exfalso;
      unfold render in Htxt; cbn [statusText] in Htxt;
      destruct (isChecking (ui w)) eqn:Hc; [discriminate Htxt| |discriminate Htxt|];
      (apply (Hchk ltac:(discriminate) eq_refl);
       destruct (isConnected (ui w)) as [[|]|]; [discriminate Htxt..|reflexivity]).
  - intros Hl. now rewrite (Hini Hl).
Qed.

Lemma unknown_text_only_in_first_render_witness :
  statusText (render (ui after_race)) = "Desconocido"
  <-> life after_race = NotMounted.
Proof.
  apply (unknown_text_only_in_first_render after_race).
  exists 0, race. vm_compute. reflexivity.
Defined.

(** X2.  The line 'Última verificación' is on screen exactly when the
    status is known: the component never shows a status without the time
    it was checked, nor a time without a status. *)
Theorem timestamp_line_iff_status_known (w : world) :
  reachable w ->
  (lastCheckedLine (render (ui w)) = None <-> isConnected (ui w) = None).
Proof.
  intros Hr. destruct (reachable_cells_consistent w Hr) as (Hiff & _).
  cbn. tauto.
Qed.

Lemma timestamp_line_iff_status_known_witness :
  lastCheckedLine (render (ui after_race)) = None
  <-> isConnected (ui after_race) = None.
Proof.
  apply (timestamp_line_iff_status_known after_race).
  exists 0, race. vm_compute. reflexivity.
Defined.

(** *** Timers and the listener *)

Lemma execs_frame k cs w :
  now (execs k cs w) = now w
  /\ interval (execs k cs w) = interval w
  /\ subscribed (execs k cs w) = subscribed w.
Proof.
  unfold execs. revert w.
  induction cs as [|c cs IH]; intros w; [repeat split|].
  cbn [fold_left]. destruct (IH (exec k c w)) as (-> & -> & ->).
  destruct c; repeat split.
Qed.

Lemma start_check_frame w :
  now (start_check w) = now w
  /\ interval (start_check w) = interval w
  /\ subscribed (start_check w) = subscribed w.
Proof. apply execs_frame. Qed.

Lemma set_phase_execs_frame k p cs w :
  now (set_phase k p (execs k cs w)) = now w
  /\ interval (set_phase k p (execs k cs w)) = interval w
  /\ subscribed (set_phase k p (execs k cs w)) = subscribed w.
Proof. apply (execs_frame k cs w). Qed.

(** What a step does to the clock, the periodic timer and the listener. *)
Lemma step_resources w e w' :
  step w e = Some w' ->
  match e with
  | Mount =>
      life w = NotMounted /\ now w' = now w
      /\ interval w' = Some (now w + 30000) /\ subscribed w' = true
  | Unmount =>
      life w = Mounted /\ now w' = now w
      /\ interval w' = None /\ subscribed w' = false
  | Advance dt =>
      0 <= dt /\ now w' = now w + dt
      /\ interval w' = interval w /\ subscribed w' = subscribed w
  | IntervalFire =>
      (exists d, interval w = Some d /\ d <= now w) /\ now w' = now w
      /\ interval w' = Some (now w + 30000) /\ subscribed w' = subscribed w
  | _ =>
      now w' = now w
      /\ interval w' = interval w /\ subscribed w' = subscribed w
  end.
Proof.
  intros Hst. destruct e; monitor_step_inv Hst.
  - cbn [now interval subscribed].
    destruct (start_check_frame
                (mkWorld (ui w) (calls w) (now w) (interval w) (subscribed w)
                   Mounted (probes w))) as (-> & _). auto.
  - auto.
  - cbn [now interval subscribed]. repeat split. now apply Z.leb_le.
  - cbn [now interval subscribed].
    destruct (start_check_frame w) as (-> & _ & ->).
    repeat split. exists z. split; [reflexivity|]. now apply Z.leb_le.
  - apply start_check_frame.
  - destruct (execs_frame 0 l w) as (? & ? & ?). repeat split; congruence.
  - destruct (start_check_frame w) as (? & ? & ?). repeat split; congruence.
  - apply set_phase_execs_frame.
  - apply set_phase_execs_frame.
  - repeat split.
  - apply (set_phase_execs_frame k Done _ (set_timer k None w)).
  - repeat split.
Qed.

Lemma resources_scoped_keep w w' :
  life w' = life w -> interval w' = interval w ->
  subscribed w' = subscribed w -> now w <= now w' ->
  resources_scoped w -> resources_scoped w'.
Proof.
  unfold resources_scoped. intros -> -> -> Hn.
  destruct (life w); try tauto.
  intros ((d & Hd1 & Hd2) & Hs). split; [|assumption].
  exists d. split; [assumption|lia].
Qed.

Lemma step_life_exact w e w' :
  step w e = Some w' ->
  match e with
  | Mount => life w = NotMounted /\ life w' = Mounted
  | Unmount => life w = Mounted /\ life w' = Unmounted
  | _ => life w' = life w
  end.
Proof.
  intros Hst. destruct e; monitor_step_inv Hst; cbn [life];
    rewrite ?set_phase_life, ?start_check_life, ?execs_life; auto.
Qed.

Lemma resources_scoped_step w e w' :
  resources_scoped w -> step w e = Some w' -> resources_scoped w'.
Proof.
  intros Hinv Hst.
  pose proof (step_resources w e w' Hst) as Hres.
  pose proof (step_life_exact w e w' Hst) as Hlife.
  destruct e.
  - destruct Hres as (Hl & Hn & Hi & Hs).
    destruct Hlife as [_ Hl'].
    unfold resources_scoped. rewrite Hl'. split; [|assumption].
    exists (now w + 30000). split; [assumption|lia].
  - destruct Hres as (Hl & Hn & Hi & Hs).
    destruct Hlife as [_ Hl'].
    unfold resources_scoped. rewrite Hl'. auto.
  - destruct Hres as (Hd & Hn & Hi & Hs).
    apply (resources_scoped_keep w); try assumption; lia.
  - destruct Hres as ((d & Hd1 & Hd2) & Hn & Hi & Hs).
    pose proof Hlife as Hl'.
    unfold resources_scoped in *. rewrite Hl', Hs. destruct (life w).
    + destruct Hinv. congruence.
    + split; [|apply Hinv]. exists (now w + 30000). split; [assumption|lia].
    + destruct Hinv. congruence.
  - destruct Hres as (Hn & Hi & Hs).
    apply (resources_scoped_keep w); try assumption; lia.
  - destruct Hres as (Hn & Hi & Hs).
    apply (resources_scoped_keep w); try assumption; lia.
  - destruct Hres as (Hn & Hi & Hs).
    apply (resources_scoped_keep w); try assumption; lia.
  - destruct Hres as (Hn & Hi & Hs).
    apply (resources_scoped_keep w); try assumption; lia.
  - destruct Hres as (Hn & Hi & Hs).
    apply (resources_scoped_keep w); try assumption; lia.
Qed.

(** X3.  The periodic timer and the NetInfo listener are held exactly while
    the component is mounted: before the mount and after the unmount there
    is neither, and while mounted the listener is registered and the next
    tick of the timer is at most 30 s away. *)
Theorem timer_and_listener_scoped_to_mount (w : world) :
  reachable w -> resources_scoped w.
Proof.
  intros (t & es & Hrun).
  eapply (monitor_run_invariant resources_scoped);
    [exact resources_scoped_step| |exact Hrun].
  split; reflexivity.
Qed.

Lemma timer_and_listener_scoped_to_mount_witness :
  resources_scoped after_race.
Proof.
  apply (timer_and_listener_scoped_to_mount after_race).
  exists 0, race. vm_compute. reflexivity.
Defined.

(** *** Checks started and probes issued *)

Lemma calls_start_check w :
  calls (start_check w) = (calls w ++ [{| at_ := AwaitFetch; timer := None |}])%list.
Proof. unfold start_check. cbn. now destruct (life w). Qed.

Lemma length_calls_execs k cs w :
  ~ In netInfoFetch cs -> length (calls (execs k cs w)) = length (calls w).
Proof.
  unfold execs. revert w.
  induction cs as [|c cs IH]; intros w Hcs; [reflexivity|].
  cbn [fold_left]. rewrite IH by (intros H; apply Hcs; now right).
  destruct c; cbn; rewrite ?length_alter; try reflexivity.
  exfalso. apply Hcs. now left.
Qed.

Lemma afterProbe_no_fetch r : ~ In netInfoFetch (checkConnection_afterProbe r).
Proof. destruct r; cbn; intuition discriminate. Qed.

Lemma afterNetInfo_no_fetch r :
  ~ In netInfoFetch (fst (checkConnection_afterNetInfo r)).
Proof.
  unfold checkConnection_afterNetInfo.
  destruct r as [v|]; [destruct (negb (truthy v))|]; cbn; intuition discriminate.
Qed.

Lemma step_calls_length w e w' :
  step w e = Some w' ->
  length (calls w')
  = if starts_check e then S (length (calls w)) else length (calls w).
Proof.
  intros Hst. destruct e; monitor_step_inv Hst; cbn [starts_check calls].
  - rewrite calls_start_check, length_app. cbn. lia.
  - reflexivity.
  - reflexivity.
  - rewrite calls_start_check, length_app. cbn. lia.
  - rewrite calls_start_check, length_app. cbn. lia.
  - unfold onNetInfoChange in E0. destruct (truthy st); [discriminate|].
    apply Some_eq in E0. subst l. reflexivity.
  - unfold onNetInfoChange in E0. destruct (truthy st); [|discriminate].
    rewrite calls_start_check, length_app. cbn. lia.
  - unfold set_phase, set_calls. cbn [calls]. rewrite length_alter.
    apply length_calls_execs.
    replace l with (fst (checkConnection_afterNetInfo r)) by now rewrite E2.
    apply afterNetInfo_no_fetch.
  - unfold set_phase, set_calls. cbn [calls]. rewrite length_alter.
    apply length_calls_execs, afterProbe_no_fetch.
  - unfold set_timer, set_calls. cbn [calls]. now rewrite length_alter.
  - unfold set_phase, set_calls. cbn [calls]. rewrite length_alter.
    rewrite length_calls_execs by apply afterProbe_no_fetch.
    unfold set_timer, set_calls. cbn [calls]. now rewrite length_alter.
  - unfold set_timer, set_calls. cbn [calls]. now rewrite length_alter.
Qed.

Lemma torn_down_step u n w e w' :
  torn_down u n w -> step w e = Some w' -> torn_down u n w'.
Proof.
  intros (Hl & Hi & Hs & Hu & Hn) Hst.
  pose proof (step_life_exact w e w' Hst) as Hlife.
  pose proof (step_resources w e w' Hst) as Hres.
  pose proof (step_calls_length w e w' Hst) as Hlen.
  destruct (ui_step_not_mounted w e w') as [[_ Hui]|[-> _]];
    [congruence|assumption| |destruct Hlife; congruence].
  unfold torn_down. rewrite Hui, Hlen.
  destruct e; cbn [starts_check].
  - destruct Hlife. congruence.
  - destruct Hlife. congruence.
  - destruct Hres as (_ & _ & -> & ->). rewrite Hlife. auto.
  - destruct Hres as ((d & Hd & _) & _). congruence.
  - unfold step in Hst. rewrite Hl in Hst. discriminate.
  - unfold step in Hst. rewrite Hs in Hst. discriminate.
  - destruct Hres as (_ & -> & ->). rewrite Hlife. auto.
  - destruct Hres as (_ & -> & ->). rewrite Hlife. auto.
  - destruct Hres as (_ & -> & ->). rewrite Hlife. auto.
Qed.

(** X4.  After the unmount no check is ever started again: the timer and
    the listener are gone, the button is gone, and whatever is still in
    flight (a pending [NetInfo.fetch()], a pending probe, an abort timer)
    runs to its end without starting an invocation and without changing
    what the component last showed. *)
Theorem unmount_stops_new_checks
    (w w1 : world) (es : list event) (w' : world) :
  step w Unmount = Some w1 -> run w1 es = Some w' ->
  life w' = Unmounted
  /\ length (calls w') = length (calls w)
  /\ ui w' = ui w
  /\ step w' IntervalFire = None
  /\ step w' Press = None
  /\ forall st, step w' (NetInfoChange st) = None.
Proof.
  intros Hst Hrun.
  assert (torn_down (ui w) (length (calls w)) w1) as H1.
  { monitor_step_inv Hst. repeat split. }
  assert (torn_down (ui w) (length (calls w)) w') as (Hl & Hi & Hs & Hu & Hn).
  { eapply (monitor_run_invariant (torn_down (ui w) (length (calls w))));
      [apply torn_down_step|exact H1|exact Hrun]. }
  repeat split; try assumption.
  - unfold step. now rewrite Hi.
  - unfold step. now rewrite Hl.
  - intros st. unfold step. now rewrite Hs.
Qed.

Lemma unmount_stops_new_checks_witness :
  life unmounted_in_flight = Unmounted
  /\ length (calls unmounted_in_flight) = length (calls after_race)
  /\ ui unmounted_in_flight = ui after_race
  /\ step unmounted_in_flight IntervalFire = None
  /\ step unmounted_in_flight Press = None
  /\ forall st, step unmounted_in_flight (NetInfoChange st) = None.
Proof.
  apply (unmount_stops_new_checks after_race
           (default after_race (step after_race Unmount))
           [ProbeSettled 0 Rejected]);
    vm_compute; reflexivity.
Defined.

(** The abort of a pending probe, as a continuation of the check. *)
Lemma probe_timeout_is_failure_general (w : world) (k : nat) (d : Z) :
  life w = Mounted ->
  calls w !! k = Some {| at_ := AwaitProbe; timer := Some d |} ->
  d <= now w ->
  exists w',
    step w (TimeoutFire k) = Some w'
    /\ ui w' = {| isConnected := Some false; isChecking := false;
                  lastChecked := Some (now w) |}
    /\ phase_of w' k = Some Done.
Proof.
  intros Hl Hc Hd.
  assert (is_Some (calls (set_timer k None w) !! k)) as Hsome'.
  { eapply phase_of_is_Some. rewrite phase_of_set_timer.
    exact (lookup_phase _ _ _ Hc). }
  eexists. split.
  { unfold step. rewrite Hc.
    apply Z.leb_le in Hd. rewrite Hd. reflexivity. }
  split.
  - rewrite ui_set_phase.
    now rewrite (ui_afterProbe k Rejected (set_timer k None w)).
  - apply phase_of_set_phase_eq. now apply phase_of_execs.
Qed.

(** X6.  The probe is bounded at 5 s from the moment it is issued: when
    stage 1 reports the interface up, the request is issued with an abort
    timer due 5000 ms later; the timer cannot fire before, and when it
    fires with the probe still pending the check ends with Disconnected,
    stamped with the time of the abort. *)
Theorem probe_bounded_at_5s (w : world) (k : nat) (c : call) (dt : Z) :
  life w = Mounted ->
  calls w !! k = Some c -> at_ c = AwaitFetch -> 0 <= dt ->
  exists w1,
    step w (FetchSettled k (Resolved (Some true))) = Some w1
    /\ timer_of w1 k = Some (now w + 5000)
    /\ probes w1 = k :: probes w
    /\ (dt < 5000 -> run w1 [Advance dt; TimeoutFire k] = None)
    /\ (5000 <= dt ->
        exists w2, run w1 [Advance dt; TimeoutFire k] = Some w2
                   /\ ui w2 = {| isConnected := Some false; isChecking := false;
                                 lastChecked := Some (now w + dt) |}
                   /\ phase_of w2 k = Some Done).
Proof.
  intros Hl Hc Hat Hdt. destruct c as [p tm]; cbn [at_] in Hat; subst p.
  eexists. split.
  { unfold step. rewrite Hc. reflexivity. }
  set (w1 := set_phase k AwaitProbe (execs k [setTimeoutAbort 5000; fetchHEAD] w)).
  assert (calls w1 !! k
          = Some {| at_ := AwaitProbe; timer := Some (now w + 5000) |}) as Hk.
  { subst w1. cbn. rewrite !list_lookup_alter_eq, Hc. reflexivity. }
  assert (life w1 = Mounted) as Hl1 by exact Hl.
  assert (now w1 = now w) as Hn1 by reflexivity.
  split; [unfold timer_of; now rewrite Hk|].
  split; [reflexivity|].
  set (w1' := mkWorld (ui w1) (calls w1) (now w1 + dt) (interval w1)
                (subscribed w1) (life w1) (probes w1)).
  assert (step w1 (Advance dt) = Some w1') as Hadv.
  { unfold step. replace (0 <=? dt) with true; [reflexivity|].
    symmetry. now apply Z.leb_le. }
  split.
  - intros Hlt. cbn [run]. rewrite Hadv.
    unfold step. cbn [calls w1' now]. rewrite Hk.
    replace (now w + 5000 <=? now w1 + dt) with false; [reflexivity|].
    symmetry. apply Z.leb_gt. lia.
  - intros Hge.
    destruct (probe_timeout_is_failure_general w1' k (now w + 5000))
      as (w2 & Hw2 & Hui & Hph).
    + exact Hl1.
    + exact Hk.
    + cbn [w1' now]. lia.
    + exists w2. cbn [run]. rewrite Hadv, Hw2.
      split; [reflexivity|]. split; [|assumption].
      rewrite Hui. cbn [w1' now]. now rewrite Hn1.
Qed.

Lemma probe_bounded_at_5s_witness :
  exists w1,
    step after_mount (FetchSettled 0 (Resolved (Some true))) = Some w1
    /\ timer_of w1 0 = Some (now after_mount + 5000)
    /\ probes w1 = 0%nat :: probes after_mount
    /\ (5000 < 5000 -> run w1 [Advance 5000; TimeoutFire 0] = None)
    /\ (5000 <= 5000 ->
        exists w2, run w1 [Advance 5000; TimeoutFire 0] = Some w2
                   /\ ui w2 = {| isConnected := Some false; isChecking := false;
                                 lastChecked := Some (now after_mount + 5000) |}
                   /\ phase_of w2 0 = Some Done).
Proof.
  apply (probe_bounded_at_5s after_mount 0
           {| at_ := AwaitFetch; timer := None |} 5000);
    try reflexivity.
  lia.
Defined.

Lemma advance_step w dt :
  0 <= dt ->
  exists w',
    step w (Advance dt) = Some w'
    /\ calls w' = calls w /\ now w' = now w + dt
    /\ ui w' = ui w /\ probes w' = probes w.
Proof.
  intros H. eexists. split.
  - unfold step. replace (0 <=? dt) with true; [reflexivity|].
    symmetry. now apply Z.leb_le.
  - repeat split.
Qed.

(** X7.  Only an answered probe cancels its abort timer.  When the request
    fails ([catch] is entered before [clearTimeout]) the timer stays armed
    after the check has returned: it cannot fire before its time, and when
    it fires the abort finds nothing pending and changes nothing.  After a
    response the timer is gone and never fires.  This holds whenever the
    request settles, before its deadline or after. *)
Theorem failed_probe_leaves_timer_armed
    (w : world) (k : nat) (d : Z) (ok : bool) (dt : Z) :
  calls w !! k = Some {| at_ := AwaitProbe; timer := Some d |} ->
  0 <= dt ->
  (exists w1,
      step w (ProbeSettled k Rejected) = Some w1
      /\ calls w1 !! k = Some {| at_ := Done; timer := Some d |}
      /\ (now w + dt < d -> run w1 [Advance dt; TimeoutFire k] = None)
      /\ (d <= now w + dt ->
          exists w2,
            run w1 [Advance dt; TimeoutFire k] = Some w2
            /\ ui w2 = ui w1 /\ probes w2 = probes w1
            /\ calls w2 !! k = Some {| at_ := Done; timer := None |}))
  /\ (exists w1,
         step w (ProbeSettled k (Resolved ok)) = Some w1
         /\ calls w1 !! k = Some {| at_ := Done; timer := None |}
         /\ run w1 [Advance dt; TimeoutFire k] = None).
Proof.
  intros Hc Hdt. split.
  - set (w1 := set_phase k Done (execs k (checkConnection_afterProbe Rejected) w)).
    assert (calls w1 !! k = Some {| at_ := Done; timer := Some d |}) as Hk.
    { subst w1. cbn. destruct (life w); cbn; now rewrite list_lookup_alter_eq, Hc. }
    assert (now w1 = now w) as Hn.
    { subst w1. cbn. now destruct (life w). }
    exists w1.
    split; [unfold step; now rewrite Hc|].
    split; [exact Hk|].
    destruct (advance_step w1 dt Hdt) as (wa & Ha & Hca & Hna & Hua & Hpa).
    cbn [run]. rewrite Ha. unfold step. rewrite Hca, Hk, Hna, Hn. split.
    + intros Hlt. replace (d <=? now w + dt) with false; [reflexivity|].
      symmetry. apply Z.leb_gt. lia.
    + intros Hle. replace (d <=? now w + dt) with true.
      2: { symmetry. now apply Z.leb_le. }
      eexists. split; [reflexivity|].
      split; [exact Hua|]. split; [exact Hpa|].
      cbn [set_timer set_calls calls]. rewrite list_lookup_alter_eq, Hca, Hk.
      reflexivity.
  - set (w1 := set_phase k Done
                 (execs k (checkConnection_afterProbe (Resolved ok)) w)).
    assert (calls w1 !! k = Some {| at_ := Done; timer := None |}) as Hk.
    { subst w1. cbn. destruct (life w); cbn;
        now rewrite !list_lookup_alter_eq, Hc. }
    exists w1. split; [unfold step; now rewrite Hc|].
    split; [exact Hk|].
    destruct (advance_step w1 dt Hdt) as (wa & Ha & Hca & _).
    cbn [run]. rewrite Ha. unfold step. now rewrite Hca, Hk.
Qed.

Lemma failed_probe_leaves_timer_armed_witness :
  (exists w1,
      step probe_in_flight (ProbeSettled 0 Rejected) = Some w1
      /\ calls w1 !! 0%nat = Some {| at_ := Done; timer := Some 5000 |}
      /\ (now probe_in_flight + 4900 < 5000 ->
          run w1 [Advance 4900; TimeoutFire 0] = None)
      /\ (5000 <= now probe_in_flight + 4900 ->
          exists w2,
            run w1 [Advance 4900; TimeoutFire 0] = Some w2
            /\ ui w2 = ui w1 /\ probes w2 = probes w1
            /\ calls w2 !! 0%nat = Some {| at_ := Done; timer := None |}))
  /\ (exists w1,
         step probe_in_flight (ProbeSettled 0 (Resolved true)) = Some w1
         /\ calls w1 !! 0%nat = Some {| at_ := Done; timer := None |}
         /\ run w1 [Advance 4900; TimeoutFire 0] = None).
Proof.
  apply (failed_probe_leaves_timer_armed probe_in_flight 0 5000 true 4900).
  - reflexivity.
  - vm_compute. discriminate.
Defined.

(** What a step adds to the requests issued. *)
Lemma step_probes w e w' :
  step w e = Some w' ->
  probes w' = probes w
  \/ exists k, phase_of w k = Some AwaitFetch /\ probes w' = k :: probes w.
Proof.
  intros Hst. destruct e; monitor_step_inv Hst; cbn [probes];
    rewrite ?probes_start_check; auto.
  - left. rewrite probes_execs.
    unfold onNetInfoChange in E0. destruct (negb (truthy st)); [|discriminate].
    apply Some_eq in E0. now subst l.
  - cbn [set_phase set_calls probes]. rewrite probes_execs.
    unfold checkConnection_afterNetInfo in E2.
    destruct r as [v|]; [destruct (negb (truthy v))|];
      apply pair_equal_spec in E2 as [<- <-]; cbn; auto.
    right. exists k. split; [|reflexivity].
    now rewrite (lookup_phase _ _ _ E).
  - left. cbn [set_phase set_calls probes]. rewrite probes_execs.
    now destruct r.
Qed.

(** X8.  Every check issues at most one HEAD request: the requests issued
    belong to distinct invocations of [checkConnection], so there are never
    more requests than checks started. *)
Theorem one_probe_per_check (w : world) :
  reachable w ->
  NoDup (probes w) /\ (length (probes w) <= length (calls w))%nat.
Proof.
  intros Hr.
  assert (NoDup (probes w)) as Hnd.
  { destruct Hr as (t & es & Hrun).
    assert (probes_sound w /\ NoDup (probes w)) as [_ H]; [|exact H].
    eapply (monitor_run_invariant (fun q => probes_sound q /\ NoDup (probes q)));
      [| |exact Hrun].
    - intros q e q' [Hs Hn] Hst. split; [eapply probes_sound_step; eassumption|].
      destruct (step_probes q e q' Hst) as [->|(k & Hk & ->)]; [assumption|].
      apply NoDup_cons. split; [|assumption].
      intros Hin. destruct (Hs k Hin) as (p & Hp & Hne). congruence.
    - split; [intros k Hk; inversion Hk|constructor]. }
  split; [assumption|].
  pose proof (reachable_probes_sound w Hr) as Hs.
  assert (probes w ⊆+ seq 0 (length (calls w))) as Hsub.
  { apply NoDup_submseteq; [assumption|].
    intros k Hk. destruct (Hs k Hk) as (p & Hp & _).
    apply phase_of_is_Some, lookup_lt_is_Some in Hp.
    apply elem_of_seq. lia. }
  apply submseteq_length in Hsub. now rewrite List.length_seq in Hsub.
Qed.

Lemma one_probe_per_check_witness :
  NoDup (probes after_race)
  /\ (length (probes after_race) <= length (calls after_race))%nat.
Proof.
  apply (one_probe_per_check after_race).
  exists 0, race. vm_compute. reflexivity.
Defined.

(** X9.  [isChecking] is one flag for all checks: when a check completes it
    is cleared although another check is still in flight, so the spinner
    gives way to the status, the button is enabled again, and a press
    starts yet another check. *)
Theorem completion_clears_spinner_for_all
    (w : world) (k j : nat) (c : call) (p : phase) (r : settled bool) :
  life w = Mounted ->
  calls w !! k = Some c -> at_ c = AwaitProbe ->
  j <> k -> phase_of w j = Some p -> p <> Done ->
  exists w' w'',
    step w (ProbeSettled k r) = Some w'
    /\ phase_of w' j = Some p
    /\ spinner (render (ui w')) = false
    /\ buttonDisabled (render (ui w')) = false
    /\ step w' Press = Some w''
    /\ length (calls w'') = S (length (calls w)).
Proof.
  intros Hl Hc Hat Hne Hj Hp. destruct c as [q tm]; cbn [at_] in Hat; subst q.
  set (w' := set_phase k Done (execs k (checkConnection_afterProbe r) w)).
  assert (step w (ProbeSettled k r) = Some w') as Hst
    by (unfold step; now rewrite Hc).
  assert (ui w' = {| isConnected := Some (probe_result r); isChecking := false;
                     lastChecked := Some (now w) |}) as Hui.
  { subst w'. rewrite ui_set_phase. now apply ui_afterProbe. }
  assert (life w' = Mounted) as Hl'.
  { subst w'. now rewrite set_phase_life, execs_life. }
  exists w', (start_check w').
  split; [exact Hst|]. split.
  { subst w'. rewrite phase_of_set_phase_ne by congruence.
    destruct (phase_of_execs k (checkConnection_afterProbe r) w j) as [-> _];
      [eapply phase_of_is_Some; eassumption|assumption]. }
  split; [now rewrite Hui|]. split; [now rewrite Hui|]. split.
  { unfold step. now rewrite Hl', Hui. }
  rewrite calls_start_check, length_app.
  pose proof (step_calls_length w _ w' Hst) as Hlen. cbn [starts_check] in Hlen.
  rewrite Hlen. cbn. lia.
Qed.

Lemma completion_clears_spinner_for_all_witness :
  exists w' w'',
    step two_probes_pending (ProbeSettled 1 (Resolved true)) = Some w'
    /\ phase_of w' 0 = Some AwaitProbe
    /\ spinner (render (ui w')) = false
    /\ buttonDisabled (render (ui w')) = false
    /\ step w' Press = Some w''
    /\ length (calls w'') = S (length (calls two_probes_pending)).
Proof.
  apply (completion_clears_spinner_for_all two_probes_pending 1 0
           {| at_ := AwaitProbe; timer := Some 5000 |} AwaitProbe
           (Resolved true));
    try reflexivity; discriminate.
Defined.

End MonitorLifeFacts.

(** ** The screen with the native map: stages, region and tracking *)

Module ScreenStageFacts.


Import JSNumber Screen ScreenFacts ToFixedFacts.

Local Open Scope string_scope.

Lemma stage_map_shown w l :
  boot w = Started -> loading (st w) = false -> errorMsg (st w) = None ->
  location (st w) = Some l -> map_shown (st w) = true.
Proof.
  intros _ Hld Her Hlo. unfold map_shown, render.
  now rewrite Hld, Her, Hlo.
Qed.

Lemma map_shown_inv s :
  map_shown s = true ->
  loading s = false /\ (exists l, location s = Some l)
  /\ match errorMsg s with Some m => nonempty m = false | None => True end.
Proof.
  unfold map_shown, render. destruct (loading s); [discriminate|].
  destruct (errorMsg s) as [m|].
  - destruct (nonempty m); [discriminate|].
    destruct (location s); [eauto|discriminate].
  - destruct (location s); [eauto|discriminate].
Qed.

Lemma default_deltas_region w :
  region_follows w -> default_deltas (region (st w)).
Proof.
  intros (-> & _). destruct (location (st w)); cbn; auto.
Qed.

Lemma stage_same w w' :
  boot w' = boot w -> loading (st w') = loading (st w) ->
  errorMsg (st w') = errorMsg (st w) -> location (st w') = location (st w) ->
  asks w' = asks w -> watches w' = watches w ->
  stage w -> stage w'.
Proof.
  intros Hb Hld Her Hlo Ha Hw Hs.
  destruct Hs as [? ? ? ? ? ?|? ? ? ? ? ?|m ? ? ? ? ? ? ?|l ? ? ? ?].
  - apply stage_starting; congruence.
  - apply stage_stuck; congruence.
  - apply (stage_error _ m); congruence.
  - apply (stage_map _ l); congruence.
Qed.

Lemma well_staged_same w w' :
  st w' = st w -> boot w' = boot w -> asks w' = asks w ->
  watches w' = watches w -> well_staged w -> well_staged w'.
Proof.
  intros Hst Hb Ha Hw [Hs Hr]. split.
  - apply (stage_same w); congruence.
  - unfold region_follows in *. now rewrite Hst, Ha, Hw.
Qed.

Lemma well_staged_connectivity w v w' :
  step w (NetFetchSettled v) = Some w' \/ step w (NetInfoChange v) = Some w' ->
  well_staged w -> well_staged w'.
Proof.
  intros Hst [Hs Hr].
  destruct (connectivity_step w v w' Hst) as (Hst' & Hb & Ha & Hw & _).
  split.
  - destruct Hs as [? ? ? ? ? ?|? ? ? ? ? ?|m ? ? ? ? ? ? ?|l ? ? ? ?].
    + apply stage_starting; rewrite ?Hst', ?Hb, ?Ha, ?Hw; assumption.
    + apply stage_stuck; rewrite ?Hst', ?Hb, ?Ha, ?Hw; assumption.
    + apply (stage_error _ m); rewrite ?Hst', ?Hb, ?Ha, ?Hw; assumption.
    + apply (stage_map _ l); rewrite ?Hst', ?Hb; assumption.
  - destruct Hr as (Hreg & Hfa & Hfw). unfold region_follows.
    rewrite Hst', Ha, Hw. auto.
Qed.

Lemma well_staged_step w e w' :
  well_staged w -> step w e = Some w' -> well_staged w'.
Proof.
  intros Hinv Hst. destruct e.
  - (* PermissionSettled *)
    destruct Hinv as [Hs Hr].
    destruct Hs as [Hb Hld Her Hlo Ha Hw|Hb|m Hb|l Hb];
      try (unfold step in Hst; rewrite Hb in Hst; discriminate).
    destruct Hr as (Hreg & Hfa & Hfw).
    screen_step_inv Hst.
    + unfold startup_afterPermission in E1. destruct (negb v) eqn:Hv;
        apply pair_equal_spec in E1 as [<- <-].
      * split.
        -- now apply (stage_error _ "Se requiere permiso para acceder a la ubicación").
        -- repeat split; assumption.
      * split.
        -- apply stage_starting; try assumption. discriminate.
        -- repeat split; assumption.
    + split.
      * now apply stage_stuck.
      * repeat split; assumption.
  - (* PositionSettled *)
    destruct Hinv as [Hs Hr].
    destruct Hs as [Hb Hld Her Hlo Ha Hw|Hb|m Hb|l Hb];
      try (unfold step in Hst; rewrite Hb in Hst; discriminate).
    destruct Hr as (Hreg & Hfa & Hfw).
    screen_step_inv Hst. destruct r as [l|e].
    + split.
      * now apply (stage_map _ l).
      * repeat split; assumption.
    + split.
      * apply (stage_error _ ("Error al obtener la ubicación: " ++ errorMessage e));
          try assumption; reflexivity.
      * repeat split; assumption.
  - eapply well_staged_connectivity; [left|]; eassumption.
  - eapply well_staged_connectivity; [right|]; eassumption.
  - (* PressCenter *)
    screen_step_inv Hst. unfold centerMapOnLocation.
    destruct (location (st w)) eqn:Hlo; [rewrite E|]; [|exact Hinv].
    now apply (well_staged_same w).
  - (* PressTrack *)
    screen_step_inv Hst. destruct Hinv as [Hs Hr].
    destruct (map_shown_inv _ E) as (Hld & (l & Hlo) & Her).
    split.
    + destruct Hs as [? Hld'|? Hld'|m ? ? Hm Hne ?|l' ? ? ? ?];
        try congruence.
      now apply (stage_map _ l').
    + destruct Hr as (Hreg & Hfa & Hfw). repeat split; try assumption.
      cbn. apply Forall_app. split; [assumption|].
      constructor; [|constructor].
      apply default_deltas_region. repeat split; assumption.
  - (* TrackPermissionSettled *)
    screen_step_inv Hst. destruct Hinv as [Hs Hr].
    destruct Hs as [? ? ? ? Ha|? ? ? ? Ha|m ? ? ? ? ? Ha|l Hb Hld Her Hlo];
      try (rewrite Ha in E; discriminate).
    destruct Hr as (Hreg & Hfa & Hfw).
    assert (default_deltas o) as Ho.
    { rewrite Forall_forall in Hfa. apply Hfa.
      apply list_elem_of_lookup. eauto. }
    assert (Forall default_deltas (delete i (asks w))) as Hfa'.
    { rewrite Forall_forall in *. intros x Hx. apply Hfa.
      eapply list_elem_of_delete_inv; eassumption. }
    unfold startLocationTracking_after.
    destruct r as [g|e]; [destruct (negb g)|].
    + split; [now apply (stage_map _ l)|]. repeat split; assumption.
    + split; [now apply (stage_map _ l)|]. repeat split; try assumption.
      cbn. apply Forall_app. split; [assumption|]. now constructor.
    + split; [now apply (stage_map _ l)|]. repeat split; assumption.
  - (* WatchUpdate *)
    screen_step_inv Hst. destruct Hinv as [Hs Hr].
    destruct Hs as [? ? ? ? ? Hw|? ? ? ? ? Hw|m ? ? ? ? ? ? Hw|l0 Hb Hld Her Hlo];
      try (rewrite Hw in E; discriminate).
    destruct Hr as (Hreg & Hfa & Hfw).
    assert (default_deltas o) as Ho.
    { rewrite Forall_forall in Hfw. apply Hfw.
      apply list_elem_of_lookup. eauto. }
    unfold onPosition. rewrite (stage_map_shown w l0) by assumption.
    split.
    + now apply (stage_map _ l).
    + repeat split; try assumption. cbn. unfold region_of.
      destruct o as [r|]; cbn in Ho; [destruct Ho as [-> ->]|]; reflexivity.
  - (* Render *)
    destruct (render_step w w' Hst) as (Hs & Hb & Ha & Hw & _).
    now apply (well_staged_same w).
Qed.

Lemma reachable_well_staged w : reachable w -> well_staged w.
Proof.
  intros (es & Hrun).
  eapply (screen_run_invariant well_staged);
    [exact well_staged_step| |exact Hrun].
  split.
  - apply stage_starting; try reflexivity. discriminate.
  - repeat split; constructor.
Qed.

Lemma map_shown_with_isConnected v s :
  map_shown (with_isConnected v s) = map_shown s.
Proof.
  unfold map_shown, render. cbn.
  destruct (loading s); [reflexivity|].
  destruct (errorMsg s) as [m|]; [destruct (nonempty m)|];
    destruct (location s); reflexivity.
Qed.

Lemma halted_step s0 l0 w e w' :
  map_shown s0 = false ->
  halted s0 l0 w -> step w e = Some w' -> halted s0 l0 w'.
Proof.
  intros Hms (Hb & Has & Hwa & (v0 & Hst0) & cs & Hlog & Hcs) Hst.
  assert (map_shown (st w) = false) as Hms'
    by (rewrite Hst0; now rewrite map_shown_with_isConnected).
  destruct e.
  - screen_step_inv Hst; congruence.
  - screen_step_inv Hst; congruence.
  - destruct (connectivity_step w v w' (or_introl Hst))
      as (Hs & Hbo & Has' & Hwa' & cs' & Hlog' & Hcs').
    unfold halted. rewrite Hs, Hbo, Has', Hwa', Hlog', Hlog, Hst0.
    repeat (split; [assumption|]). split; [exists v; reflexivity|].
    exists (cs ++ cs')%list. split; [now rewrite app_assoc|].
    apply Forall_app. now split.
  - destruct (connectivity_step w v w' (or_intror Hst))
      as (Hs & Hbo & Has' & Hwa' & cs' & Hlog' & Hcs').
    unfold halted. rewrite Hs, Hbo, Has', Hwa', Hlog', Hlog, Hst0.
    repeat (split; [assumption|]). split; [exists v; reflexivity|].
    exists (cs ++ cs')%list. split; [now rewrite app_assoc|].
    apply Forall_app. now split.
  - screen_step_inv Hst. congruence.
  - screen_step_inv Hst. congruence.
  - screen_step_inv Hst. rewrite Has in E. discriminate.
  - screen_step_inv Hst. rewrite Hwa in E. discriminate.
  - destruct (render_step w w' Hst)
      as (Hs & Hbo & Has' & Hwa' & cs' & Hlog' & Hcs').
    unfold halted. rewrite Hs, Hbo, Has', Hwa', Hlog', Hlog, Hst0.
    repeat (split; [assumption|]). split; [exists v0; reflexivity|].
    exists (cs ++ cs')%list. split; [now rewrite app_assoc|].
    apply Forall_app. now split.
Qed.

Lemma halted_run s0 l0 es w w' :
  map_shown s0 = false ->
  halted s0 l0 w -> run w es = Some w' -> halted s0 l0 w'.
Proof.
  intros Hms Hh Hrun.
  eapply (screen_run_invariant (halted s0 l0)); [|exact Hh|exact Hrun].
  intros; eapply halted_step; eassumption.
Qed.

Lemma halted_now w :
  boot w = Started -> asks w = [] -> watches w = [] ->
  halted (st w) (log w) w.
Proof.
  intros Hb Ha Hw. repeat (split; [assumption|]). split.
  - exists (isConnected (st w)). now destruct (st w).
  - exists []. split; [now rewrite app_nil_r|constructor].
Qed.

(** X10.  When the position fetch of the start-up effect fails, one alert
    is raised, loading ends, and the screen shows 'Error al obtener la
    ubicación: ' followed by the message of the error (or 'Error
    desconocido') from then on, whatever happens: there is no retry, no
    map and no tracking, and the only platform calls ever added are
    [NetInfo.fetch()] and alerts. *)
Theorem position_failure_is_terminal
    (NumberToString : float64 -> string) (w : world) (e : thrown) :
  reachable w -> boot w = FetchingPosition ->
  exists w1,
    step w (PositionSettled (Thrown e)) = Some w1
    /\ log w1 = (log w ++ [Alert "Error" "No se pudo obtener la ubicación actual"])%list
    /\ forall es w', run w1 es = Some w' ->
         render NumberToString (st w')
         = ErrorView ("Error al obtener la ubicación: " ++ errorMessage e)
         /\ exists cs, log w' = (log w1 ++ cs)%list
                       /\ Forall connectivity_call cs.
Proof.
  intros Hreach Hb.
  destruct (reachable_starting_up w Hreach) as (Hld & Her & Hlo & Has & Hwa & _);
    [congruence|].
  eexists. split.
  { unfold step. rewrite Hb. reflexivity. }
  split; [reflexivity|].
  intros es w' Hrun.
  eapply halted_run in Hrun;
    [| |apply halted_now; first [reflexivity|assumption]].
  - destruct Hrun as (_ & _ & _ & (v & ->) & Hlog). split; [|exact Hlog].
    unfold render. cbn. reflexivity.
  - unfold map_shown, render. cbn. reflexivity.
Qed.

Lemma position_failure_is_terminal_witness :
  exists w1,
    step fetching (PositionSettled (Thrown (ErrorObject "timeout"))) = Some w1
    /\ log w1 = (log fetching
                 ++ [Alert "Error" "No se pudo obtener la ubicación actual"])%list
    /\ forall es w', run w1 es = Some w' ->
         render (fun _ => "") (st w')
         = ErrorView ("Error al obtener la ubicación: "
                      ++ errorMessage (ErrorObject "timeout"))
         /\ exists cs, log w' = (log w1 ++ cs)%list
                       /\ Forall connectivity_call cs.
Proof.
  apply (position_failure_is_terminal (fun _ => "") fetching
           (ErrorObject "timeout")).
  - exists [PermissionSettled (Ok true)]. reflexivity.
  - reflexivity.
Defined.

(** X11.  The permission request of the start-up effect sits outside the
    [try]: when its promise is rejected nothing handles it, [loading] is
    never cleared, and the screen shows the loading view for good; the
    position is never requested. *)
Theorem permission_rejection_keeps_loading
    (NumberToString : float64 -> string) (w : world) (e : thrown) :
  reachable w -> boot w = AskingPermission ->
  exists w1,
    step w (PermissionSettled (Thrown e)) = Some w1
    /\ forall es w', run w1 es = Some w' ->
         render NumberToString (st w') = LoadingView
         /\ (exists cs, log w' = (log w ++ cs)%list
                        /\ Forall connectivity_call cs)
         /\ (getCurrentPositionAsync ∉ log w').
Proof.
  intros Hreach Hb.
  destruct (reachable_starting_up w Hreach)
    as (Hld & Her & Hlo & Has & Hwa & Hw & Hg); [congruence|].
  eexists. split.
  { unfold step. rewrite Hb. reflexivity. }
  intros es w' Hrun.
  eapply (halted_run (st w) (log w)) in Hrun.
  - destruct Hrun as (_ & _ & _ & (v & Hst) & cs & Hlog & Hcs).
    split; [|split].
    + rewrite Hst. unfold render. cbn. now rewrite Hld.
    + eauto.
    + rewrite Hlog. apply not_in_connectivity; try assumption; try discriminate.
      now apply Hg.
  - now apply map_shown_loading.
  - apply (halted_now (set_boot Started w)); first [reflexivity|assumption].
Qed.

Lemma permission_rejection_keeps_loading_witness :
  exists w1,
    step init (PermissionSettled (Thrown OtherValue)) = Some w1
    /\ forall es w', run w1 es = Some w' ->
         render (fun _ => "") (st w') = LoadingView
         /\ (exists cs, log w' = (log init ++ cs)%list
                        /\ Forall connectivity_call cs)
         /\ (getCurrentPositionAsync ∉ log w').
Proof.
  apply (permission_rejection_keeps_loading (fun _ => "") init OtherValue).
  - exists []. reflexivity.
  - reflexivity.
Defined.

(** *** The map, once shown *)

(** X12.  The [region] cell is always the window of 0.01 degrees around
    the current location (and empty while there is none): nothing feeds the
    user's zooming or panning back into it, so the deltas a tracking
    callback reads from the region it closed over are always 0.01. *)
Theorem region_is_window_around_location (w : world) :
  reachable w ->
  region (st w) = option_map region_of (location (st w))
  /\ Forall default_deltas (watches w).
Proof.
  intros Hr. destruct (reachable_well_staged w Hr) as [_ (Hreg & _ & Hw)].
  now split.
Qed.

Lemma region_is_window_around_location_witness :
  region (st after_two_starts)
  = option_map region_of (location (st after_two_starts))
  /\ Forall default_deltas (watches after_two_starts).
Proof.
  apply (region_is_window_around_location after_two_starts).
  exists two_starts. vm_compute. reflexivity.
Defined.

Lemma reachable_watch_map_shown w i c :
  reachable w -> watches w !! i = Some c ->
  exists l, boot w = Started /\ loading (st w) = false
            /\ errorMsg (st w) = None /\ location (st w) = Some l.
Proof.
  intros Hr Hi. destruct (reachable_well_staged w Hr) as [Hs _].
  destruct Hs as [? ? ? ? ? Hw|? ? ? ? ? Hw|m ? ? ? ? ? ? Hw|l ? ? ? ?];
    try (rewrite Hw in Hi; discriminate).
  eauto.
Qed.

(** X13.  Every position a live subscription delivers replaces the
    location, moves the region with it, and is what the screen then shows:
    the map with exactly one marker, at the new coordinate.  The
    subscriptions and the platform calls are left as they were. *)
Theorem tracking_update_moves_marker
    (NumberToString : float64 -> string)
    (w : world) (i : nat) (c : option Region) (l : LocationObject) :
  reachable w -> watches w !! i = Some c ->
  exists w',
    step w (WatchUpdate i l) = Some w'
    /\ location (st w') = Some l
    /\ region (st w') = Some (region_of l)
    /\ render NumberToString (st w')
       = MainView (Some (render_map NumberToString (st w') l))
    /\ map coordinate (markers (render_map NumberToString (st w') l))
       = [(latitude (coords l), longitude (coords l))]
    /\ watches w' = watches w /\ log w' = log w.
Proof.
  intros Hr Hi.
  destruct (reachable_watch_map_shown w i c Hr Hi) as (l0 & Hb & Hld & Her & Hlo).
  destruct (reachable_well_staged w Hr) as [_ (_ & _ & Hfw)].
  assert (default_deltas c) as Hc.
  { rewrite Forall_forall in Hfw. apply Hfw. apply list_elem_of_lookup. eauto. }
  eexists. split.
  { unfold step. rewrite Hi. reflexivity. }
  unfold onPosition. rewrite (stage_map_shown w l0) by assumption.
  split; [reflexivity|]. split.
  { cbn. unfold region_of.
    destruct c as [r|]; cbn in Hc; [destruct Hc as [-> ->]|]; reflexivity. }
  split.
  { unfold render. cbn. now rewrite Hld, Her. }
  repeat split.
Qed.

Lemma tracking_update_moves_marker_witness :
  exists w',
    step after_two_starts (WatchUpdate 1 madrid) = Some w'
    /\ location (st w') = Some madrid
    /\ region (st w') = Some (region_of madrid)
    /\ render (fun _ => "") (st w')
       = MainView (Some (render_map (fun _ => "") (st w') madrid))
    /\ map coordinate (markers (render_map (fun _ => "") (st w') madrid))
       = [(latitude (coords madrid), longitude (coords madrid))]
    /\ watches w' = watches after_two_starts /\ log w' = log after_two_starts.
Proof.
  apply (tracking_update_moves_marker (fun _ => "") after_two_starts 1
           (Some (region_of madrid)) madrid).
  - exists two_starts. vm_compute. reflexivity.
  - reflexivity.
Defined.

Lemma showing_map_step w e w' :
  showing_map w -> step w e = Some w' -> showing_map w'.
Proof.
  intros (Hb & Hld & Her & l & Hlo) Hst. unfold showing_map. destruct e.
  - screen_step_inv Hst; congruence.
  - screen_step_inv Hst; congruence.
  - destruct (connectivity_step w v w' (or_introl Hst)) as (-> & -> & _).
    repeat split; eauto.
  - destruct (connectivity_step w v w' (or_intror Hst)) as (-> & -> & _).
    repeat split; eauto.
  - screen_step_inv Hst. unfold centerMapOnLocation. rewrite Hlo, E.
    repeat split; eauto.
  - screen_step_inv Hst. repeat split; eauto.
  - screen_step_inv Hst. unfold startLocationTracking_after.
    destruct r as [g|e]; [destruct (negb g)|]; repeat split; eauto.
  - screen_step_inv Hst. unfold onPosition.
    destruct (map_shown (st w)); repeat split; eauto.
  - destruct (render_step w w' Hst) as (-> & -> & _).
    repeat split; eauto.
Qed.

(** X14.  Once the map is on screen it stays on screen: no handler of this
    screen sets [loading] again or sets an error message after the
    start-up, so neither the loading view nor the error view can come
    back. *)
Theorem map_once_shown_stays
    (w : world) (es : list event) (w' : world) :
  reachable w -> map_shown (st w) = true -> run w es = Some w' ->
  map_shown (st w') = true.
Proof.
  intros Hr Hms Hrun.
  assert (showing_map w) as Hsh.
  { destruct (map_shown_inv _ Hms) as (Hld & (l & Hlo) & _).
    destruct (reachable_well_staged w Hr) as [Hs _].
    destruct Hs as [? ? ? ? ? ?|? ? ? ? ? ?|m ? ? ? ? ? ? ?|l' ? ? ? ?];
      try congruence.
    repeat split; eauto. }
  assert (showing_map w') as (Hb & Hld & Her & l & Hlo).
  { eapply (screen_run_invariant showing_map);
      [exact showing_map_step|exact Hsh|exact Hrun]. }
  now apply (stage_map_shown w' l).
Qed.

Lemma map_once_shown_stays_witness :
  map_shown
    (st (default after_two_starts
           (run after_two_starts
              [NetInfoChange None; WatchUpdate 0 madrid; PressCenter])))
  = true.
Proof.
  apply (map_once_shown_stays after_two_starts
           [NetInfoChange None; WatchUpdate 0 madrid; PressCenter]).
  - exists two_starts. vm_compute. reflexivity.
  - reflexivity.
  - vm_compute. reflexivity.
Defined.



(** *** Tracking without permission, and the off-line warning *)

Lemma not_watch_in_connectivity cs :
  Forall connectivity_call cs -> watchPositionAsync ∉ cs.
Proof.
  intros Hcs Hin. rewrite Forall_forall in Hcs.
  destruct (Hcs _ Hin) as [H|(t & m & H)]; discriminate.
Qed.

(** X16.  A position subscription is started by one event only: the answer
    'granted' to the permission query of [startLocationTracking].  Then
    [watchPositionAsync] is called, the subscription is live and 'Seguimiento
    activado' is raised.  Any other answer, and a rejection, start nothing,
    change no cell of the screen, and raise exactly one alert that says why;
    and no other event of the screen calls [watchPositionAsync] or touches
    the subscriptions. *)
Theorem tracking_starts_only_with_permission
    (w : world) (e : event) (w' : world) :
  step w e = Some w' ->
  match e with
  | TrackPermissionSettled i r =>
      exists c,
        asks w !! i = Some c /\ asks w' = delete i (asks w) /\ st w' = st w
        /\ if granted r
           then watches w' = (watches w ++ [c])%list
                /\ log w'
                   = (log w ++ [watchPositionAsync;
                                Alert "Seguimiento activado"
                                      "Ahora se está siguiendo tu ubicación en tiempo real"])%list
           else watches w' = watches w
                /\ log w' = (log w ++ [refusal r])%list
  | _ =>
      watches w' = watches w
      /\ exists cs, log w' = (log w ++ cs)%list /\ (watchPositionAsync ∉ cs)
  end.
Proof.
  intros Hst. destruct e.
  - screen_step_inv Hst.
    + unfold startup_afterPermission in E1. destruct (negb v);
        apply pair_equal_spec in E1 as [<- <-]; (split; [reflexivity|]).
      * exists []. split; [now rewrite app_nil_r|]. intros H. inversion H.
      * exists [getCurrentPositionAsync]. split; [reflexivity|].
        intros H. apply list_elem_of_In in H. cbn in H.
        intuition discriminate.
    + split; [reflexivity|]. exists [].
      split; [now rewrite app_nil_r|]. intros H. inversion H.
  - screen_step_inv Hst. destruct r as [l|e]; (split; [reflexivity|]).
    + exists []. split; [now rewrite app_nil_r|]. intros H. inversion H.
    + eexists [_]. split; [reflexivity|].
      intros H. apply list_elem_of_In in H. cbn in H. intuition discriminate.
  - destruct (connectivity_step w v w' (or_introl Hst))
      as (_ & _ & _ & Hw & cs & Hl & Hcs).
    split; [assumption|]. exists cs. split; [assumption|].
    now apply not_watch_in_connectivity.
  - destruct (connectivity_step w v w' (or_intror Hst))
      as (_ & _ & _ & Hw & cs & Hl & Hcs).
    split; [assumption|]. exists cs. split; [assumption|].
    now apply not_watch_in_connectivity.
  - screen_step_inv Hst. unfold centerMapOnLocation.
    destruct (location (st w)); [rewrite E|]; (split; [reflexivity|]).
    + eexists [_]. split; [reflexivity|].
      intros H. apply list_elem_of_In in H. cbn in H. intuition discriminate.
    + exists []. split; [now rewrite app_nil_r|]. intros H. inversion H.
  - screen_step_inv Hst. split; [reflexivity|].
    exists [getForegroundPermissionsAsync]. split; [reflexivity|].
    intros H. apply list_elem_of_In in H. cbn in H. intuition discriminate.
  - screen_step_inv Hst. exists o. split; [reflexivity|].
    unfold startLocationTracking_after.
    destruct r as [[|]|e]; cbn; rewrite <- ?app_assoc; repeat split.
  - screen_step_inv Hst. unfold onPosition.
    destruct (map_shown (st w)); (split; [reflexivity|]);
      exists []; (split; [now rewrite app_nil_r|]); intros H; inversion H.
  - destruct (render_step w w' Hst) as (_ & _ & _ & Hw & cs & Hl & Hcs).
    split; [assumption|]. exists cs. split; [assumption|].
    now apply not_watch_in_connectivity.
Qed.

Lemma tracking_starts_only_with_permission_witness :
  exists c,
    asks tracking_asked !! 0%nat = Some c
    /\ asks (default tracking_asked
               (step tracking_asked
                  (TrackPermissionSettled 0 (Thrown (ErrorObject "denied")))))
       = delete 0%nat (asks tracking_asked)
    /\ st (default tracking_asked
             (step tracking_asked
                (TrackPermissionSettled 0 (Thrown (ErrorObject "denied")))))
       = st tracking_asked
    /\ watches (default tracking_asked
                  (step tracking_asked
                     (TrackPermissionSettled 0 (Thrown (ErrorObject "denied")))))
       = watches tracking_asked
    /\ log (default tracking_asked
              (step tracking_asked
                 (TrackPermissionSettled 0 (Thrown (ErrorObject "denied")))))
       = (log tracking_asked
          ++ [refusal (Thrown (ErrorObject "denied"))])%list.
Proof.
  apply (tracking_starts_only_with_permission tracking_asked
           (TrackPermissionSettled 0 (Thrown (ErrorObject "denied")))).
  vm_compute. reflexivity.
Defined.

(** X17.  A lost connection is announced twice.  A listener that was
    subscribed while the status was Connected, told that the connection is
    down, raises 'Conexión perdida' and changes the status; at the next
    render the effect runs again and calls [checkInternetConnection]; when
    its result confirms that the connection is down, 'Sin conexión a
    Internet' follows.  A further fetch is made, at the render after, only
    if that result differs from what the listener was told ([false]
    against [null]). *)
Theorem lost_connection_is_announced_twice (w : world) (v v' : netinfo) :
  truthy (seen w) = true -> truthy v = false -> truthy v' = false ->
  exists w3 w4,
    run w [NetInfoChange v; Render; NetFetchSettled v'] = Some w3
    /\ isConnected (st w3) = v'
    /\ log w3 = (log w ++ [alert_lost; NetInfo_fetch; alert_offline])%list
    /\ step w3 Render = Some w4
    /\ log w4 = (log w3 ++ refetch v v')%list.
Proof.
  intros Hs Hv Hv'.
  destruct (listener_step w v) as (w1 & Hst1 & Hc1 & Hl1 & Hs1).
  assert (isConnected (st w1) <> seen w1) as Hne.
  { rewrite Hc1, Hs1. intros H. rewrite H in Hv. congruence. }
  assert (netFetches (commit w1) <> 0%nat) as Hn.
  { unfold commit. rewrite decide_False by assumption. cbn. lia. }
  destruct (step (commit w1) (NetFetchSettled v')) as [w3|] eqn:Hst3.
  2: { unfold step in Hst3.
       destruct (netFetches (commit w1)); [congruence|discriminate]. }
  destruct (fetch_result_raises_no_change_notification _ v' w3 Hst3)
    as (Hc3 & Hl3 & Hs3).
  exists w3, (commit w3). split.
  { cbn [run]. rewrite Hst1.
    change (step w1 Render) with (Some (commit w1)). cbv beta iota.
    now rewrite Hst3. }
  split; [assumption|]. split.
  { rewrite Hl3, log_commit, Hl1, Hs1, Hc1, Hv'. unfold notifications, refetch.
    rewrite Hs, Hv.
    rewrite decide_False by (intros H; rewrite H in Hv; congruence).
    cbn. now rewrite <- !app_assoc. }
  split; [reflexivity|].
  now rewrite log_commit, Hs3, seen_commit, Hc1, Hc3.
Qed.

Lemma lost_connection_is_announced_twice_witness :
  exists w3 w4,
    run after_two_starts_online
      [NetInfoChange (Some false); Render; NetFetchSettled None] = Some w3
    /\ isConnected (st w3) = None
    /\ log w3 = (log after_two_starts_online
                 ++ [alert_lost; NetInfo_fetch; alert_offline])%list
    /\ step w3 Render = Some w4
    /\ log w4 = (log w3 ++ refetch (Some false) None)%list.
Proof.
  apply (lost_connection_is_announced_twice after_two_starts_online
           (Some false) None); reflexivity.
Defined.

(** X18.  Latitude and longitude are always shown with exactly six
    decimals, in the info box and in the description of the marker alike:
    after the sign come at least one digit, the point and six digits, and
    the digits, read without the point, are those of the integer nearest to
    the absolute value times [10 ^ 6]. *)
Theorem coordinates_shown_with_six_decimals
    (NumberToString : float64 -> string) (s : state) (l : LocationObject) :
  huge (latitude (coords l)) = false ->
  huge (longitude (coords l)) = false ->
  exists a b p a' b' p',
    let lat := sign (latitude (coords l)) ++ a ++ "." ++ b in
    let lon := sign (longitude (coords l)) ++ a' ++ "." ++ b' in
    String.length b = 6%nat /\ String.length b' = 6%nat
    /\ (1 <= String.length a)%nat /\ (1 <= String.length a')%nat
    /\ a ++ b = zeros p ++ digits (scaled_nearest (latitude (coords l)) 6)
    /\ a' ++ b' = zeros p' ++ digits (scaled_nearest (longitude (coords l)) 6)
    /\ infoBox (render_map NumberToString s l) !! 0%nat
       = Some ("Latitud: " ++ lat)
    /\ infoBox (render_map NumberToString s l) !! 1%nat
       = Some ("Longitud: " ++ lon)
    /\ map description (markers (render_map NumberToString s l))
       = ["Lat: " ++ lat ++ ", Lng: " ++ lon].
Proof.
  intros Hlat Hlon.
  destruct (toFixed_format NumberToString _ 5 Hlat) as (a & b & p & Ha & Hb & H1 & Hd).
  destruct (toFixed_format NumberToString _ 5 Hlon)
    as (a' & b' & p' & Ha' & Hb' & H1' & Hd').
  exists a, b, p, a', b', p'. cbv zeta.
  repeat (split; [assumption|]).
  unfold render_map, fixed. cbn [infoBox markers map description].
  rewrite Ha, Ha'. repeat split.
Qed.

Lemma coordinates_shown_with_six_decimals_witness :
  exists a b p a' b' p',
    let lat := sign (latitude (coords madrid)) ++ a ++ "." ++ b in
    let lon := sign (longitude (coords madrid)) ++ a' ++ "." ++ b' in
    String.length b = 6%nat /\ String.length b' = 6%nat
    /\ (1 <= String.length a)%nat /\ (1 <= String.length a')%nat
    /\ a ++ b = zeros p ++ digits (scaled_nearest (latitude (coords madrid)) 6)
    /\ a' ++ b' = zeros p' ++ digits (scaled_nearest (longitude (coords madrid)) 6)
    /\ infoBox (render_map (fun _ => "") initial madrid) !! 0%nat
       = Some ("Latitud: " ++ lat)
    /\ infoBox (render_map (fun _ => "") initial madrid) !! 1%nat
       = Some ("Longitud: " ++ lon)
    /\ map description (markers (render_map (fun _ => "") initial madrid))
       = ["Lat: " ++ lat ++ ", Lng: " ++ lon].
Proof.
  apply (coordinates_shown_with_six_decimals (fun _ => "") initial madrid);
    vm_compute; reflexivity.
Defined.

End ScreenStageFacts.

(** ** The screen with the web map: tracking, refresh and map errors *)

Module WebTrackingFacts.


Import WebScreen WebScreenFacts.
Import Screen(outcome, Ok, Thrown, LocationObject, errorMessage, Started,
              AskingPermission, FetchingPosition, nonempty, madrid).

Local Open Scope string_scope.

Lemma remove_if_frame h w :
  boot (remove_if h w) = boot w /\ refreshes (remove_if h w) = refreshes w
  /\ asks (remove_if h w) = asks w.
Proof. destruct h; repeat split. Qed.

Lemma web_commit_frame w :
  boot (commit w) = boot w
  /\ refreshes (commit w) = refreshes w
  /\ starting (commit w) = starting w
  /\ asks (commit w) = asks w.
Proof.
  unfold commit. destruct (decide _); [repeat split|].
  cbn. rewrite remove_if_starting.
  destruct (remove_if_frame (held w) w) as (-> & -> & ->).
  repeat split.
Qed.

Lemma web_seen_commit w : seen (commit w) = isConnected (st w).
Proof.
  unfold commit. destruct (decide _) as [[H _]|_]; [now rewrite H|].
  cbn. now rewrite remove_if_st.
Qed.

Lemma flag_matches_handle_step w e w' :
  flag_matches_handle w -> step w e = Some w' -> flag_matches_handle w'.
Proof.
  intros Hf Hh. unfold flag_matches_handle in *.
  destruct e; cbn [step] in Hh.
  - destruct (boot w); try discriminate. destruct r as [g|e].
    + unfold startup_afterPermission in Hh.
      destruct (negb g); cbv beta iota in Hh; apply Some_eq in Hh; now subst w'.
    + apply Some_eq in Hh; now subst w'.
  - destruct (boot w); try discriminate.
    apply Some_eq in Hh; subst w'. now destruct r.
  - destruct (netFetches w); [discriminate|].
    apply Some_eq in Hh; subst w'. unfold checkInternetConnection_after.
    now destruct (negb (truthy v)).
  - apply Some_eq in Hh; subst w'. unfold onNetInfoChange.
    now repeat destruct (_ && _).
  - destruct (actions_shown (st w)); [|discriminate].
    apply Some_eq in Hh; now subst w'.
  - destruct (refreshes w); [discriminate|].
    apply Some_eq in Hh; subst w'. now destruct r.
  - destruct (_ && _); [|discriminate].
    apply Some_eq in Hh; now subst w'.
  - destruct (_ && _); [|discriminate].
    apply Some_eq in Hh; subst w'. unfold stopLocationTracking.
    destruct (watchId (st w)) as [id|] eqn:Hw; [|now rewrite Hw].
    cbn. split; [discriminate|congruence].
  - destruct (asks w !! i) as [closed|]; [|discriminate].
    apply Some_eq in Hh; subst w'.
    unfold startLocationTracking_afterPermission.
    destruct r as [g|e]; [destruct (negb g)|]; cbn; try assumption.
    now rewrite remove_if_st.
  - destruct (starting w !! j) as [id|]; [|discriminate].
    apply Some_eq in Hh; subst w'.
    unfold startLocationTracking_afterWatch. destruct r as [[]|e]; cbn.
    + split; [discriminate|reflexivity].
    + assumption.
  - destruct (bool_decide _); [|discriminate].
    apply Some_eq in Hh; now subst w'.
  - apply Some_eq in Hh; now subst w'.
  - apply Some_eq in Hh; subst w'. now rewrite commit_st.
Qed.

Lemma web_run_invariant (P : world -> Prop) :
  (forall w e w', P w -> step w e = Some w' -> P w') ->
  forall es w w', P w -> run w es = Some w' -> P w'.
Proof.
  intros Hstep. induction es as [|e es IH]; intros w w' HP Hrun; simpl in Hrun.
  - apply Some_eq in Hrun. now subst.
  - destruct (step w e) as [w1|] eqn:E; [|discriminate].
    eapply IH; [|eassumption]. eapply Hstep; eassumption.
Qed.

Lemma reachable_flag_matches_handle w : reachable w -> flag_matches_handle w.
Proof.
  intros (es & Hrun).
  eapply (web_run_invariant flag_matches_handle);
    [exact flag_matches_handle_step| |exact Hrun].
  split; [discriminate|intros H; now elim H].
Qed.

Lemma live_is_handle w :
  tracked w -> starting w = [] ->
  forall id, id ∈ live w -> watchId (st w) = Some id.
Proof.
  intros (_ & _ & Hin) Hs id Hid. rewrite Hs in Hin.
  destruct (Hin id Hid) as [?|H]; [assumption|inversion H].
Qed.

Lemma without_all id l :
  (forall j, j ∈ l -> j = id) -> without id l = [].
Proof.
  intros H. induction l as [|a l IH]; [reflexivity|].
  cbn. rewrite (H a) by left. rewrite Nat.eqb_refl. cbn.
  apply IH. intros j Hj. apply H. now right.
Qed.

Lemma not_elem_of_without id l : id ∉ without id l.
Proof. intros H. apply elem_of_without in H as [_ H]. now apply H. Qed.

(** X19.  On the screen with the web map, as long as React renders after
    every event, whenever no start is in flight at most one subscription is
    live, and it is the one whose handle [watchId] holds: every other one
    has been removed, by the new start or by the clean-up of the effect.
    (Without that condition a subscription can stay behind: two
    [setWatchId] batched into one render, [batched_double_start_leaks].) *)
Theorem web_tracking_keeps_one_subscription
    (es : list event) (w : world) :
  run init (rendering_each es) = Some w -> starting w = [] ->
  (length (live w) <= 1)%nat
  /\ forall id, id ∈ live w -> watchId (st w) = Some id.
Proof.
  intros Hr Hs. split; [now apply (at_most_one_live es)|].
  apply live_is_handle; [|assumption].
  now destruct (run_rendering_each_caught_up es init w caught_up_init Hr).
Qed.

Lemma web_tracking_keeps_one_subscription_witness :
  (length (live tracking_on) <= 1)%nat
  /\ forall id, id ∈ live tracking_on -> watchId (st tracking_on) = Some id.
Proof.
  apply (web_tracking_keeps_one_subscription tracking_on_trace tracking_on).
  - vm_compute. reflexivity.
  - reflexivity.
Defined.

(** X20.  As long as React renders after every event, 'Detener
    seguimiento' ends the tracking for good: with no start in flight,
    after the press no subscription is live, the handle is cleared and the
    flag is off, so the button offers to start again. *)
Theorem stop_ends_tracking (es : list event) (w w' : world) :
  run init (rendering_each es) = Some w -> starting w = [] ->
  step w PressStop = Some w' ->
  live w' = [] /\ watchId (st w') = None /\ trackingActive (st w') = false
  /\ render_buttons (st w')
     = ["Actualizar ubicación"; "Seguimiento en tiempo real"].
Proof.
  intros Hr Hs Hst.
  destruct (run_rendering_each_caught_up es init w caught_up_init Hr)
    as [Ht _].
  pose proof (reachable_flag_matches_handle w
                (ex_intro _ (rendering_each es) Hr)) as Hf.
  cbn [step] in Hst.
  destruct (actions_shown (st w) && trackingActive (st w)) eqn:E; [|discriminate].
  apply andb_true_iff in E as [_ Hta].
  apply Some_eq in Hst. subst w'.
  destruct (watchId (st w)) as [id|] eqn:Hw.
  2: { exfalso. apply Hf in Hta. now apply Hta. }
  assert (forall j, j ∈ live w -> j = id) as Hall.
  { intros j Hj. pose proof (live_is_handle w Ht Hs j Hj) as H. congruence. }
  unfold stopLocationTracking. rewrite Hw.
  split; [|cbn; repeat split].
  cbn. fold (without id (live w)). now apply without_all.
Qed.

Lemma stop_ends_tracking_witness :
  live (default tracking_on (step tracking_on PressStop)) = []
  /\ watchId (st (default tracking_on (step tracking_on PressStop))) = None
  /\ trackingActive (st (default tracking_on (step tracking_on PressStop)))
     = false
  /\ render_buttons (st (default tracking_on (step tracking_on PressStop)))
     = ["Actualizar ubicación"; "Seguimiento en tiempo real"].
Proof.
  apply (stop_ends_tracking tracking_on_trace tracking_on).
  - vm_compute. reflexivity.
  - reflexivity.
  - vm_compute. reflexivity.
Defined.

(** X21.  On the screen with the web map a change of connectivity ends the
    position subscription without telling anyone.  The effect that
    subscribes to NetInfo depends on [isConnected]; when the render that
    follows a report finds it changed, the clean-up of the effect removes
    the subscription it holds.  When that is the subscription in
    [watchId], tracking has ended while the handle and the flag stay as
    they were: the screen still offers 'Detener seguimiento' and no
    position is delivered any more. *)
Theorem connectivity_change_ends_tracking
    (w : world) (v : netinfo) (id : nat) :
  reachable w -> watchId (st w) = Some id -> held w = Some id ->
  v <> seen w ->
  exists w1 w2,
    step w (NetInfoChange v) = Some w1
    /\ step w1 Render = Some w2
    /\ (id ∉ live w2)
    /\ (forall l, step w2 (WatchUpdate id l) = None)
    /\ watchId (st w2) = Some id
    /\ trackingActive (st w2) = true
    /\ render_buttons (st w2)
       = ["Actualizar ubicación"; "Detener seguimiento"].
Proof.
  intros Hr Hw Hh Hv.
  pose proof (reachable_flag_matches_handle w Hr) as Hf.
  assert (trackingActive (st w) = true) as Hta
    by (apply Hf; rewrite Hw; discriminate).
  assert (watchId (st (onNetInfoChange v w)) = Some id
          /\ trackingActive (st (onNetInfoChange v w)) = true
          /\ isConnected (st (onNetInfoChange v w)) = v
          /\ seen (onNetInfoChange v w) = seen w
          /\ held (onNetInfoChange v w) = Some id)
    as (Hw1 & Hta1 & Hic & Hs1 & Hh1).
  { unfold onNetInfoChange. repeat destruct (_ && _); repeat split; assumption. }
  assert (id ∉ live (commit (onNetInfoChange v w))) as Hlive.
  { unfold commit. rewrite decide_False by (rewrite Hic, Hs1; tauto).
    rewrite Hh1. cbn. apply not_elem_of_without. }
  exists (onNetInfoChange v w), (commit (onNetInfoChange v w)).
  split; [reflexivity|]. split; [reflexivity|]. split; [exact Hlive|]. split.
  { intros l. cbn [step]. now rewrite bool_decide_eq_false_2. }
  rewrite commit_st. unfold render_buttons. rewrite Hw1, Hta1. auto.
Qed.

Lemma connectivity_change_ends_tracking_witness :
  exists w1 w2,
    step tracking_on (NetInfoChange (Some true)) = Some w1
    /\ step w1 Render = Some w2
    /\ (0%nat ∉ live w2)
    /\ (forall l, step w2 (WatchUpdate 0 l) = None)
    /\ watchId (st w2) = Some 0%nat
    /\ trackingActive (st w2) = true
    /\ render_buttons (st w2)
       = ["Actualizar ubicación"; "Detener seguimiento"].
Proof.
  apply (connectivity_change_ends_tracking tracking_on (Some true) 0).
  - exists (rendering_each tracking_on_trace). vm_compute. reflexivity.
  - reflexivity.
  - reflexivity.
  - discriminate.
Defined.

Lemma actions_shown_inv s :
  actions_shown s = true ->
  loading s = false /\ no_error s = true /\ location s <> None.
Proof.
  unfold actions_shown, no_error. intros H.
  apply andb_true_iff in H as [H Hlo]. apply andb_true_iff in H as [Hld He].
  repeat split; [now destruct (loading s)|assumption|].
  now destruct (location s).
Qed.

Lemma refresh_behind_loading_step w e w' :
  refresh_behind_loading w -> step w e = Some w' -> refresh_behind_loading w'.
Proof.
  intros (Hb & Hle & Hp) Hh. unfold refresh_behind_loading.
  destruct e; cbn [step] in Hh.
  - destruct (boot w) eqn:Eb; try discriminate.
    assert (refreshes w = 0%nat) as H0.
    { destruct (refreshes w) as [|[|n]] eqn:Er; [reflexivity| |lia].
      destruct (Hp eq_refl) as (_ & ? & _). congruence. }
    destruct r as [g|e].
    + unfold startup_afterPermission in Hh.
      destruct (negb g); cbv beta iota in Hh; apply Some_eq in Hh; subst w';
        cbn; rewrite H0; repeat split; try lia; try congruence.
      intros _. apply Hb. congruence.
    + apply Some_eq in Hh; subst w'; cbn. rewrite H0.
      repeat split; try lia; try congruence.
  - destruct (boot w) eqn:Eb; try discriminate.
    assert (refreshes w = 0%nat) as H0.
    { destruct (refreshes w) as [|[|n]] eqn:Er; [reflexivity| |lia].
      destruct (Hp eq_refl) as (_ & ? & _). congruence. }
    apply Some_eq in Hh; subst w'.
    destruct r; cbn; rewrite H0; repeat split; try lia; congruence.
  - destruct (netFetches w); [discriminate|].
    apply Some_eq in Hh; subst w'. unfold checkInternetConnection_after.
    destruct (negb (truthy v)); cbn; auto.
  - apply Some_eq in Hh; subst w'. unfold onNetInfoChange.
    repeat destruct (_ && _); cbn; auto.
  - destruct (actions_shown (st w)) eqn:Ea; [|discriminate].
    apply Some_eq in Hh; subst w'.
    destruct (actions_shown_inv _ Ea) as (Hld & He & Hlo).
    assert (boot w = Started) as Hs.
    { destruct (boot w); try reflexivity;
        (assert (loading (st w) = true) by (apply Hb; discriminate));
        congruence. }
    assert (refreshes w = 0%nat) as H0.
    { destruct (refreshes w) as [|[|n]] eqn:Er; [reflexivity| |lia].
      destruct (Hp eq_refl) as (? & _). congruence. }
    cbn. rewrite H0. repeat split; auto.
  - destruct (refreshes w) as [|n] eqn:Er; [discriminate|].
    assert (n = 0%nat) by lia. subst n.
    destruct (Hp eq_refl) as (_ & Hs & He & Hlo).
    apply Some_eq in Hh; subst w'.
    destruct r; cbn; repeat split; try lia; try congruence.
  - destruct (_ && _); [|discriminate].
    apply Some_eq in Hh; now subst w'.
  - destruct (_ && _); [|discriminate].
    apply Some_eq in Hh; subst w'. unfold stopLocationTracking.
    destruct (watchId (st w)); cbn; auto.
  - destruct (asks w !! i) as [closed|]; [|discriminate].
    apply Some_eq in Hh; subst w'.
    unfold startLocationTracking_afterPermission.
    destruct r as [g|e]; [destruct (negb g)|]; cbn; auto.
    rewrite remove_if_st.
    destruct (remove_if_frame closed
                {| st := st w; seen := seen w; held := held w;
                   netFetches := netFetches w; boot := boot w;
                   refreshes := refreshes w; asks := delete i (asks w);
                   starting := starting w; live := live w;
                   created := created w; log := log w |}) as (-> & -> & _).
    cbn. auto.
  - destruct (starting w !! j) as [id|]; [|discriminate].
    apply Some_eq in Hh; subst w'.
    unfold startLocationTracking_afterWatch. destruct r as [[]|e]; cbn; auto.
  - destruct (bool_decide _); [|discriminate].
    apply Some_eq in Hh; subst w'. cbn.
    split; [assumption|]. split; [assumption|]. intros H.
    destruct (Hp H) as (? & ? & ? & ?). repeat split; auto.
  - apply Some_eq in Hh; subst w'. cbn. auto.
  - apply Some_eq in Hh; subst w'. rewrite commit_st.
    destruct (web_commit_frame w) as (-> & -> & _). auto.
Qed.

Lemma reachable_refresh_behind_loading w :
  reachable w -> refresh_behind_loading w.
Proof.
  intros (es & Hrun).
  eapply (web_run_invariant refresh_behind_loading);
    [exact refresh_behind_loading_step| |exact Hrun].
  cbn. repeat split; auto; discriminate.
Qed.

(** X22.  'Actualizar ubicación' is a round trip through the loading view.
    While the position is being fetched the buttons are off screen, so no
    second refresh and no tracking action can start; when the fetch
    settles the screen is back on the location section whatever the
    outcome: with the new position if there is one, and after a failure
    with the position it had, an alert, and no error view (the start-up,
    in contrast, ends in the error view when its fetch fails). *)
Theorem refresh_is_a_round_trip
    (w : world) (r : outcome LocationObject) :
  reachable w -> refreshes w = 1%nat ->
  (step w PressRefresh = None /\ step w PressStart = None
   /\ step w PressStop = None)
  /\ exists w',
       step w (RefreshSettled r) = Some w'
       /\ refreshes w' = 0%nat
       /\ actions_shown (st w') = true
       /\ location (st w')
          = match r with Ok l => Some l | Thrown _ => location (st w) end
       /\ match r with
          | Ok _ => log w' = log w
          | Thrown e =>
              log w' = (log w ++ [Alert "Error"
                                    ("No se pudo actualizar la ubicación: "
                                     ++ errorMessage e)])%list
          end.
Proof.
  intros Hr H1.
  destruct (reachable_refresh_behind_loading w Hr) as (_ & _ & Hp).
  destruct (Hp H1) as (Hld & Hb & He & Hlo).
  split.
  { cbn [step]. unfold actions_shown. rewrite Hld. auto. }
  cbn [step]. rewrite H1.
  eexists. split; [reflexivity|].
  unfold no_error in He. unfold actions_shown.
  destruct r as [l|e]; cbn; rewrite He; repeat split.
  destruct (location (st w)); [reflexivity|congruence].
Qed.

Lemma refresh_is_a_round_trip_witness :
  (step refreshing PressRefresh = None /\ step refreshing PressStart = None
   /\ step refreshing PressStop = None)
  /\ exists w',
       step refreshing (RefreshSettled (Thrown (Screen.ErrorObject "timeout")))
       = Some w'
       /\ refreshes w' = 0%nat
       /\ actions_shown (st w') = true
       /\ location (st w') = location (st refreshing)
       /\ log w' = (log refreshing
                    ++ [Alert "Error"
                          ("No se pudo actualizar la ubicación: "
                           ++ errorMessage (Screen.ErrorObject "timeout"))])%list.
Proof.
  apply (refresh_is_a_round_trip refreshing
           (Thrown (Screen.ErrorObject "timeout"))).
  - exists refreshing_trace. vm_compute. reflexivity.
  - reflexivity.
Defined.

Lemma map_error_step w e w' :
  step w e = Some w' -> online_without_refresh e = true ->
  mapError (st w) = true -> truthy (isConnected (st w)) = true ->
  truthy (seen w) = true ->
  mapError (st w') = true /\ truthy (isConnected (st w')) = true
  /\ truthy (seen w') = true.
Proof.
  intros Hh Hc Hm Hi Hs.
  destruct e; cbn [step] in Hh; cbn in Hc; try discriminate.
  - destruct (boot w); try discriminate. destruct r as [g|e].
    + unfold startup_afterPermission in Hh.
      destruct (negb g); cbv beta iota in Hh; apply Some_eq in Hh; now subst w'.
    + apply Some_eq in Hh; now subst w'.
  - destruct (boot w); try discriminate.
    apply Some_eq in Hh; subst w'. now destruct r.
  - destruct (netFetches w); [discriminate|].
    apply Some_eq in Hh; subst w'. unfold checkInternetConnection_after.
    rewrite Hc. cbn. auto.
  - apply Some_eq in Hh; subst w'. unfold onNetInfoChange.
    rewrite Hc, Hs. cbn. auto.
  - destruct (refreshes w); [discriminate|].
    apply Some_eq in Hh; subst w'. now destruct r.
  - destruct (_ && _); [|discriminate].
    apply Some_eq in Hh; now subst w'.
  - destruct (_ && _); [|discriminate].
    apply Some_eq in Hh; subst w'. unfold stopLocationTracking.
    destruct (watchId (st w)); cbn; auto.
  - destruct (asks w !! i) as [closed|]; [|discriminate].
    apply Some_eq in Hh; subst w'.
    unfold startLocationTracking_afterPermission.
    destruct r as [g|e]; [destruct (negb g)|]; cbn; auto.
    rewrite remove_if_st. now destruct closed.
  - destruct (starting w !! j) as [id|]; [|discriminate].
    apply Some_eq in Hh; subst w'.
    unfold startLocationTracking_afterWatch. destruct r as [[]|e]; cbn; auto.
  - destruct (bool_decide _); [|discriminate].
    apply Some_eq in Hh; now subst w'.
  - apply Some_eq in Hh; subst w'. cbn. auto.
  - apply Some_eq in Hh; subst w'. rewrite commit_st, web_seen_commit. auto.
Qed.

(** A listener subscribed while disconnected takes the next report of
    Connected for a restored connection: the connection is lost and the
    screen renders, [checkInternetConnection] then finds the connection
    up, and the report that follows, before the next render, clears the
    error of the map although the status was Connected already. *)
Example stale_listener_clears_map_error :
  option_map (fun w => (isConnected (st w), mapError (st w)))
    (run map_failed [NetInfoChange (Some false); Render;
                     NetFetchSettled (Some true)])
  = Some (Some true, true)
  /\ option_map (fun w => mapError (st w))
       (run map_failed [NetInfoChange (Some false); Render;
                        NetFetchSettled (Some true);
                        NetInfoChange (Some true)])
     = Some false.
Proof. split; vm_compute; reflexivity. Qed.

(** X23.  Once the WebView has reported an error, the map stays replaced by
    'No se pudo cargar el mapa. Intente de nuevo más tarde.' for as long
    as the connection is reported up and the location is not refreshed: no
    position update, tracking action, connectivity check or render loads
    it again.  This is so when the listener in place was subscribed by a
    render that was connected, as the render that showed the WebView was: a
    listener subscribed while disconnected takes the next report of
    Connected for a restored connection and clears the error.
    'Actualizar ubicación' clears the error. *)
Theorem failed_map_stays_hidden
    (w : world) (es : list event) (w' : world) :
  run w es = Some w' ->
  mapError (st w) = true -> truthy (isConnected (st w)) = true ->
  truthy (seen w) = true ->
  forallb online_without_refresh es = true ->
  (forall l, render_pane (st w') l
             = NoMap "No se pudo cargar el mapa. Intente de nuevo más tarde.")
  /\ forall w'', step w' PressRefresh = Some w'' ->
                 mapError (st w'') = false /\ loading (st w'') = true.
Proof.
  intros Hrun Hm Hi Hs Hes.
  assert (mapError (st w') = true /\ truthy (isConnected (st w')) = true)
    as [Hm' Hi'].
  { revert w Hrun Hm Hi Hs Hes.
    induction es as [|e es IH]; intros w Hrun Hm Hi Hs Hes; cbn [run] in Hrun.
    - apply Some_eq in Hrun. now subst.
    - destruct (step w e) as [w1|] eqn:E; [|discriminate].
      cbn in Hes. apply andb_true_iff in Hes as [He Hes].
      destruct (map_error_step w e w1 E He Hm Hi Hs) as (? & ? & ?).
      now apply (IH w1). }
  split.
  - intros l. unfold render_pane. now rewrite Hm', Hi'.
  - intros w'' Hst. cbn [step] in Hst.
    destruct (actions_shown (st w')); [|discriminate].
    apply Some_eq in Hst. now subst w''.
Qed.

Lemma failed_map_stays_hidden_witness :
  (forall l,
      render_pane
        (st (default map_failed
               (run map_failed
                  [NetInfoChange (Some true); Render; PressStart;
                   TrackPermissionSettled 0 (Ok true);
                   WatchSettled 0 (Ok tt); Render; WatchUpdate 0 madrid]))) l
      = NoMap "No se pudo cargar el mapa. Intente de nuevo más tarde.")
  /\ forall w'',
       step (default map_failed
               (run map_failed
                  [NetInfoChange (Some true); Render; PressStart;
                   TrackPermissionSettled 0 (Ok true);
                   WatchSettled 0 (Ok tt); Render; WatchUpdate 0 madrid]))
            PressRefresh = Some w'' ->
       mapError (st w'') = false /\ loading (st w'') = true.
Proof.
  apply (failed_map_stays_hidden map_failed
           [NetInfoChange (Some true); Render; PressStart;
            TrackPermissionSettled 0 (Ok true);
            WatchSettled 0 (Ok tt); Render; WatchUpdate 0 madrid]).
  - vm_compute. reflexivity.
  - reflexivity.
  - reflexivity.
  - reflexivity.
  - reflexivity.
Defined.

End WebTrackingFacts.

(** ** The monitor inside the screen *)

Module AppLifeFacts.


Import MonitorFacts ScreenFacts MonitorLifeFacts ScreenStageFacts.

Lemma screen_reachable_step w e w' :
  Screen.reachable w -> Screen.step w e = Some w' -> Screen.reachable w'.
Proof.
  intros (es & Hrun) Hst. exists (es ++ [e]).
  revert Hrun. generalize Screen.init.
  induction es as [|x es IH]; intros w0 Hrun; cbn in *.
  - apply Some_eq in Hrun. subst w0. now rewrite Hst.
  - destruct (Screen.step w0 x); [|discriminate]. now apply IH.
Qed.

Lemma monitor_reachable_step w e w' :
  Monitor.reachable w -> Monitor.step w e = Some w' -> Monitor.reachable w'.
Proof.
  intros (t & es & Hrun) Hst. exists t, (es ++ [e]).
  revert Hrun. generalize (Monitor.boot t).
  induction es as [|x es IH]; intros w0 Hrun; cbn in *.
  - apply Some_eq in Hrun. subst w0. now rewrite Hst.
  - destruct (Monitor.step w0 x); [|discriminate]. now apply IH.
Qed.

Lemma main_view_is_map w :
  Screen.reachable w ->
  (exists o, Screen.render (fun _ => EmptyString) (Screen.st w)
             = Screen.MainView o) ->
  Screen.map_shown (Screen.st w) = true.
Proof.
  intros Hr (o & Ho).
  destruct (reachable_well_staged w Hr) as [Hs _].
  unfold Screen.map_shown. unfold Screen.render in *.
  destruct Hs as [? Hld ? ? ? ?|? Hld ? ? ? ?|m ? Hld He Hn ? ? ?|l ? Hld He Hl];
    rewrite Hld in *; try discriminate.
  - rewrite He, Hn in Ho. discriminate.
  - now rewrite He, Hl.
Qed.

Lemma map_shown_step w e w' :
  Screen.reachable w -> Screen.map_shown (Screen.st w) = true ->
  Screen.step w e = Some w' -> Screen.map_shown (Screen.st w') = true.
Proof.
  intros Hr Hms Hst.
  assert (Screen.showing_map w) as Hsh.
  { destruct (map_shown_inv _ Hms) as (Hld & (l & Hlo) & _).
    destruct (reachable_well_staged w Hr) as [Hs _].
    destruct Hs as [? ? ? ? ? ?|? ? ? ? ? ?|m ? ? ? ? ? ? ?|l' ? ? ? ?];
      try congruence.
    repeat split; eauto. }
  destruct (showing_map_step w e w' Hsh Hst) as (Hb & Hld & Her & l & Hlo).
  now apply (stage_map_shown w' l).
Qed.

Lemma in_step_step a e a' :
  App.in_step a -> App.step a e = Some a' -> App.in_step a'.
Proof.
  intros (Hs & Hm & Hl) Hst. unfold App.in_step. destruct e as [e|e]; unfold App.step in Hst.
  - destruct (Screen.step (App.screen a) e) as [s|] eqn:E; [|discriminate].
    pose proof (screen_reachable_step _ _ _ Hs E) as Hs'.
    destruct (App.mounts s (App.monitor a)) eqn:Em.
    + destruct (Monitor.step (App.monitor a) Monitor.Mount) as [m|] eqn:Es;
        cbn [option_map] in Hst; [|discriminate].
      apply Some_eq in Hst. subst a'. cbn.
      split; [assumption|]. split; [eapply monitor_reachable_step; eauto|].
      pose proof (step_life_exact _ _ _ Es) as [_ ->].
      rewrite main_view_is_map; [reflexivity|assumption|].
      unfold App.mounts in Em.
      destruct (Screen.render _ _); try discriminate. eauto.
    + apply Some_eq in Hst. subst a'. cbn.
      split; [assumption|]. split; [assumption|]. rewrite Hl.
      destruct (Screen.map_shown (Screen.st (App.screen a))) eqn:Ems.
      * now rewrite (map_shown_step _ _ _ Hs Ems E).
      * unfold App.mounts in Em. rewrite Hl in Em.
        unfold Screen.map_shown.
        destruct (Screen.render _ _); try reflexivity. discriminate.
  - destruct e; try discriminate;
      (destruct (Monitor.step (App.monitor a) _) as [m|] eqn:Es;
       cbn [option_map] in Hst; [|discriminate]);
      apply Some_eq in Hst; subst a'; cbn;
      (split; [assumption|]); (split; [eapply monitor_reachable_step; eauto|]);
      pose proof (step_life_exact _ _ _ Es) as Hx; cbn in Hx; congruence.
Qed.

(** X24.  In the application the monitor lives exactly as long as the main
    view is rendered: every run of the application is a run of the screen
    and a run of the monitor, and the monitor is mounted exactly when the
    screen shows the map section.  It is never unmounted, since the screen
    never leaves that view. *)
Theorem monitor_lives_with_main_view
    (t : Z) (es : list App.event) (a : App.world) :
  App.run (App.init t) es = Some a ->
  Screen.reachable (App.screen a) /\ Monitor.reachable (App.monitor a)
  /\ Monitor.life (App.monitor a)
     = if Screen.map_shown (Screen.st (App.screen a))
       then Monitor.Mounted else Monitor.NotMounted.
Proof.
  intros Hrun.
  assert (App.in_step (App.init t)) as H0.
  { split; [now exists []|]. split; [now exists t, []|]. reflexivity. }
  revert H0 Hrun. generalize (App.init t).
  induction es as [|e es IH]; intros a0 H0 Hrun; cbn in Hrun.
  - apply Some_eq in Hrun. now subst.
  - destruct (App.step a0 e) as [a1|] eqn:E; [|discriminate].
    apply (IH a1); [|assumption]. eapply in_step_step; eauto.
Qed.

Lemma monitor_lives_with_main_view_witness :
  Screen.reachable (App.screen App.behind_captive_portal)
  /\ Monitor.reachable (App.monitor App.behind_captive_portal)
  /\ Monitor.life (App.monitor App.behind_captive_portal)
     = if Screen.map_shown (Screen.st (App.screen App.behind_captive_portal))
       then Monitor.Mounted else Monitor.NotMounted.
Proof.
  apply (monitor_lives_with_main_view 0 App.captive_portal).
  vm_compute. reflexivity.
Defined.

End AppLifeFacts.

(** ** The screen of the tab against the screen with connectivity *)

Module TabScreenFacts.


Import Screen TabScreen ScreenFacts.

Local Open Scope string_scope.

Lemma forget_call c w :
  forget (Screen.call c w)
  = if of_connectivity c then forget w else TabScreen.call c (forget w).
Proof.
  unfold forget, Screen.call, TabScreen.call. cbn.
  rewrite List.filter_app. cbn.
  destruct (of_connectivity c); cbn; [now rewrite app_nil_r|reflexivity].
Qed.

Lemma map_shown_forget s :
  TabScreen.map_shown (forget_state s) = Screen.map_shown s.
Proof.
  unfold TabScreen.map_shown, Screen.map_shown, TabScreen.render, Screen.render.
  cbn. destruct (Screen.loading s); [reflexivity|].
  destruct (Screen.errorMsg s) as [m|]; [destruct (nonempty m)|];
    try reflexivity; now destruct (Screen.location s).
Qed.

Lemma render_forget ts s :
  TabScreen.render ts (forget_state s) = forget_view (Screen.render ts s).
Proof.
  unfold TabScreen.render, Screen.render. cbn.
  destruct (Screen.loading s); [reflexivity|].
  destruct (Screen.errorMsg s) as [m|]; [destruct (nonempty m)|];
    try reflexivity; now destruct (Screen.location s).
Qed.

Lemma filter_forget w w' cs :
  Screen.st w' = Screen.st w
  \/ (exists v, Screen.st w' = with_isConnected v (Screen.st w)) ->
  Screen.boot w' = Screen.boot w -> Screen.asks w' = Screen.asks w ->
  Screen.watches w' = Screen.watches w ->
  Screen.log w' = (Screen.log w ++ cs)%list ->
  List.filter (fun c => negb (of_connectivity c)) cs = [] ->
  forget w' = forget w.
Proof.
  intros Hst Hb Ha Hw Hlog Hcs. unfold forget.
  rewrite Hb, Ha, Hw, Hlog, List.filter_app, Hcs, app_nil_r.
  destruct Hst as [->|(v & ->)]; reflexivity.
Qed.

Lemma forget_connectivity w v w' :
  Screen.step w (Screen.NetFetchSettled v) = Some w'
  \/ Screen.step w (Screen.NetInfoChange v) = Some w' ->
  forget w' = forget w.
Proof.
  intros H.
  destruct (connectivity_step w v w' H) as (Hst & Hb & Ha & Hw & _).
  destruct H as [H|H].
  - destruct (fetch_result_raises_no_change_notification w v w' H)
      as (_ & Hl & _).
    apply (filter_forget w w' _ (or_intror (ex_intro _ v Hst)) Hb Ha Hw Hl).
    now destruct (truthy v).
  - destruct (listener_step w v) as (w1 & Hs1 & _ & Hl & _).
    rewrite Hs1 in H. apply Some_eq in H. subst w1.
    apply (filter_forget w w' _ (or_intror (ex_intro _ v Hst)) Hb Ha Hw Hl).
    unfold notifications. now destruct (truthy _), (truthy v).
Qed.

Lemma forget_render w w' :
  Screen.step w Screen.Render = Some w' -> forget w' = forget w.
Proof.
  intros H. destruct (render_step w w' H) as (Hst & Hb & Ha & Hw & _).
  cbn [Screen.step] in H. apply Some_eq in H.
  apply (filter_forget w w' (refetch (Screen.seen w)
                               (Screen.isConnected (Screen.st w)))
           (or_introl Hst) Hb Ha Hw).
  - subst w'. apply log_commit.
  - unfold refetch. now destruct (decide _).
Qed.

Lemma forget_set_boot b w :
  forget (Screen.set_boot b w) = TabScreen.set_boot b (forget w).
Proof. reflexivity. Qed.

(** On the events the two screens share, [LocationApp] does what
    [LocationMap] does. *)
Lemma step_embed w e :
  TabScreen.step (forget w) e = option_map forget (Screen.step w (embed e)).
Proof.
  destruct e; cbn [embed Screen.step TabScreen.step].
  - change (TabScreen.boot (forget w)) with (Screen.boot w).
    destruct (Screen.boot w); try (now destruct r).
    destruct r as [g|e]; [|reflexivity].
    unfold Screen.startup_afterPermission, TabScreen.startup_afterPermission.
    destruct (negb g); cbn [option_map]; f_equal.
    rewrite forget_set_boot, forget_call. reflexivity.
  - change (TabScreen.boot (forget w)) with (Screen.boot w).
    destruct (Screen.boot w); try reflexivity.
    cbn [option_map]. f_equal. rewrite forget_set_boot. f_equal.
    unfold Screen.startup_afterPosition, TabScreen.startup_afterPosition.
    destruct r as [l|e]; [reflexivity|].
    change (forget (Screen.setLoading false ?x))
      with (TabScreen.setLoading false (forget x)).
    now rewrite forget_call.
  - change (TabScreen.st (forget w)) with (forget_state (Screen.st w)).
    rewrite map_shown_forget.
    destruct (Screen.map_shown (Screen.st w)) eqn:E; [|reflexivity].
    cbn [option_map]. f_equal.
    unfold Screen.centerMapOnLocation, TabScreen.centerMapOnLocation.
    change (TabScreen.st (forget w)) with (forget_state (Screen.st w)).
    rewrite map_shown_forget, E.
    change (TabScreen.location (forget_state (Screen.st w)))
      with (Screen.location (Screen.st w)).
    destruct (Screen.location (Screen.st w)); [|reflexivity].
    now rewrite forget_call.
  - change (TabScreen.st (forget w)) with (forget_state (Screen.st w)).
    rewrite map_shown_forget.
    destruct (Screen.map_shown (Screen.st w)); [|reflexivity].
    cbn [option_map]. f_equal.
    unfold Screen.startLocationTracking_enter,
      TabScreen.startLocationTracking_enter, forget. cbn.
    rewrite List.filter_app. reflexivity.
  - change (TabScreen.asks (forget w)) with (Screen.asks w).
    destruct (Screen.asks w !! i) as [closed|]; [|reflexivity].
    cbn [option_map]. f_equal.
    unfold Screen.startLocationTracking_after,
      TabScreen.startLocationTracking_after.
    destruct r as [g|e]; [destruct (negb g)|];
      unfold forget; cbn; rewrite ?List.filter_app; reflexivity.
  - change (TabScreen.watches (forget w)) with (Screen.watches w).
    destruct (Screen.watches w !! i) as [closed|]; [|reflexivity].
    cbn [option_map]. f_equal.
    unfold Screen.onPosition, TabScreen.onPosition.
    change (TabScreen.st (forget w)) with (forget_state (Screen.st w)).
    rewrite map_shown_forget.
    destruct (Screen.map_shown (Screen.st w)); reflexivity.
Qed.

Lemma embed_erase e e' : erase e = Some e' -> embed e' = e.
Proof.
  destruct e; cbn; intros H; try discriminate; apply Some_eq in H; now subst.
Qed.

Lemma erase_embed e : erase (embed e) = Some e.
Proof. now destruct e. Qed.

Lemma run_forget es : forall w w',
  Screen.run w es = Some w' ->
  TabScreen.run (forget w) (omap erase es) = Some (forget w').
Proof.
  induction es as [|e es IH]; intros w w' Hrun; cbn in Hrun.
  - apply Some_eq in Hrun. now subst.
  - destruct (Screen.step w e) as [w1|] eqn:E; [|discriminate].
    change (omap erase (e :: es))
      with (match erase e with
            | Some y => y :: omap erase es
            | None => omap erase es
            end).
    destruct (erase e) as [e'|] eqn:Ee.
    + cbn [TabScreen.run]. rewrite step_embed, (embed_erase e e' Ee), E.
      cbn [option_map]. now apply IH.
    + assert (forget w1 = forget w) as <-.
      { destruct e; try discriminate;
          try (apply (forget_connectivity w v w1); auto; fail).
        now apply forget_render. }
      now apply IH.
Qed.

Lemma run_embed es : forall w t,
  TabScreen.run (forget w) es = Some t ->
  exists w', Screen.run w (map embed es) = Some w' /\ forget w' = t.
Proof.
  induction es as [|e es IH]; intros w t Hrun; cbn [TabScreen.run] in Hrun.
  - apply Some_eq in Hrun. subst. now exists w.
  - rewrite step_embed in Hrun. cbn [map Screen.run].
    destruct (Screen.step w (embed e)) as [w1|]; [|discriminate].
    cbn [option_map] in Hrun. now apply IH.
Qed.

(** X25.  [LocationApp] is [LocationMap] with connectivity added, and the
    addition does not reach the location logic.  Forget the [isConnected]
    cell, the 'Internet:' line and the platform calls of the connectivity
    handling: every run of [LocationApp] is then a run of [LocationMap] on
    the same events without the connectivity ones, it renders the same
    view, and every run of [LocationMap] arises so. *)
Theorem location_logic_ignores_connectivity
    (es : list Screen.event) (w : Screen.world) :
  Screen.run Screen.init es = Some w ->
  TabScreen.run TabScreen.init (omap erase es) = Some (forget w)
  /\ (forall ts, TabScreen.render ts (TabScreen.st (forget w))
                 = forget_view (Screen.render ts (Screen.st w)))
  /\ forall es' t,
       TabScreen.run (forget w) es' = Some t ->
       exists w', Screen.run w (map embed es') = Some w' /\ forget w' = t.
Proof.
  intros Hrun. split; [|split].
  - exact (run_forget es Screen.init w Hrun).
  - intros ts. apply render_forget.
  - intros es' t. apply run_embed.
Qed.

Lemma location_logic_ignores_connectivity_witness :
  TabScreen.run TabScreen.init (omap erase offline_two_starts)
  = Some (forget after_offline_two_starts)
  /\ (forall ts,
         TabScreen.render ts (TabScreen.st (forget after_offline_two_starts))
         = forget_view
             (Screen.render ts (Screen.st after_offline_two_starts)))
  /\ forall es' t,
       TabScreen.run (forget after_offline_two_starts) es' = Some t ->
       exists w',
         Screen.run after_offline_two_starts (map embed es') = Some w'
         /\ forget w' = t.
Proof.
  apply (location_logic_ignores_connectivity offline_two_starts
           after_offline_two_starts).
  vm_compute. reflexivity.
Defined.

End TabScreenFacts.
